(** * gemelli: the CTF driver [ctf_helper] and the stand-alone transforms

    A shallow embedding of [gemelli/ctf.py] and of
    [gemelli/scripts/_standalone_transforms.py].

    The driver is glue code around four libraries (biom, pandas, qiime2,
    scikit-bio) and around the numeric core of gemelli itself
    ([gemelli.preprocessing], [gemelli.factorization]).  The library
    objects are modelled by the part of their behaviour the driver relies
    on; the numeric core, the qiime2 metadata validator and the reader of
    biom files are taken as section variables, so every statement below
    holds for whatever they compute. *)

From Stdlib Require Import ZArith QArith Ascii.
From stdpp Require Import base list strings gmap sets sorting pretty.

Set Default Proof Using "Type".

Local Open Scope string_scope.
Local Open Scope list_scope.
Local Open Scope Z_scope.

(** ** Python exceptions and fallible computations *)

Inductive exn :=
| ValueError (msg : string)
| KeyError (msg : string)
| TypeError (msg : string)
| AttributeError (msg : string)
| IndexError (msg : string)
| IndexingError (msg : string)
| DistanceMatrixError (msg : string)
| UsageError (msg : string)
| IOError (msg : string).

Inductive result (A : Type) :=
| Ok (a : A)
| Raise (e : exn).
Arguments Ok {A} a.
Arguments Raise {A} e.

#[global] Instance result_ret : MRet result := λ A a, Ok a.
#[global] Instance result_bind : MBind result := λ A B f m,
  match m with
  | Ok a => f a
  | Raise e => Raise e
  end.

Definition is_Ok {A} (r : result A) : Prop :=
  match r with Ok _ => True | Raise _ => False end.

(** ** Boolean-mask selection, [a[mask]] in numpy *)

Fixpoint compress {A} (mask : list bool) (l : list A) : list A :=
  match mask, l with
  | b :: mask, x :: l => if b then x :: compress mask l else compress mask l
  | _, _ => []
  end.

(** ** biom.Table

    Rows of [matrix_data] are observations (features), columns are samples.
    Counts are integer valued. *)

Inductive axis := sample | observation.

Record Table := {
  observation_ids : list string;
  sample_ids : list string;
  matrix_data : list (list Z);
}.

(** [table.ids(axis)] *)
Definition ids (ax : axis) (t : Table) : list string :=
  match ax with
  | sample => sample_ids t
  | observation => observation_ids t
  end.

Definition sum_row (r : list Z) : Z := foldr Z.add 0 r.

(** [table.sum(axis)]: one total per identifier of the axis. *)
Definition table_sum (ax : axis) (t : Table) : list Z :=
  match ax with
  | observation => sum_row <$> matrix_data t
  | sample =>
      foldr (zip_with Z.add) (replicate (length (sample_ids t)) 0)
            (matrix_data t)
  end.

(** The table cut down to the positions of an axis a mask selects. *)
Definition table_compress (mask : list bool) (ax : axis) (t : Table) : Table :=
  match ax with
  | sample =>
      {| observation_ids := observation_ids t;
         sample_ids := compress mask (sample_ids t);
         matrix_data := compress mask <$> matrix_data t |}
  | observation =>
      {| observation_ids := compress mask (observation_ids t);
         sample_ids := sample_ids t;
         matrix_data := compress mask (matrix_data t) |}
  end.

(** [table.filter(ids_to_keep, axis=ax)]: an identifier of the axis is kept
    when it is among [ids_to_keep]; the table's own order is kept. *)
Definition table_filter (ids_to_keep : list string) (ax : axis) (t : Table)
  : Table :=
  table_compress ((λ i, bool_decide (i ∈ ids_to_keep)) <$> ids ax t) ax t.

(** The shape invariant every biom table has. *)
Definition table_wf (t : Table) : Prop :=
  length (matrix_data t) = length (observation_ids t) ∧
  Forall (λ r, length r = length (sample_ids t)) (matrix_data t).

(** ** pandas: cells, columns and frames *)

Inductive value :=
| NaN
| VBool (b : bool)
| VInt (z : Z)
| VFloat (q : Q)
| VStr (s : string).

Inductive dtype := dt_bool | dt_int64 | dt_float64 | dt_object.

#[global] Instance dtype_eq_dec : EqDecision dtype.
Proof. solve_decision. Defined.

Record Series := {
  name : string;
  dtype_of : dtype;
  values : list value;
}.

Record DataFrame (I : Type) := {
  index_name : option string;
  index : list I;
  columns : list Series;
}.
Arguments index_name {I} _.
Arguments index {I} _.
Arguments columns {I} _.

#[global] Instance Q_eq_dec : EqDecision Q.
Proof. solve_decision. Defined.

#[global] Instance value_eq_dec : EqDecision value.
Proof. solve_decision. Defined.

Definition isna (v : value) : bool :=
  match v with NaN => true | _ => false end.

(** [df.columns] as a list of labels *)
Definition column_names {I} (df : DataFrame I) : list string :=
  name <$> columns df.

(** The dtype a column takes when a missing value enters it. *)
Definition upcast_na (d : dtype) : dtype :=
  match d with
  | dt_bool => dt_object
  | dt_int64 => dt_float64
  | d => d
  end.

(** [df.drop(labels, axis=1)]: every label has to be a column. *)
Definition drop_columns {I} (labels : list string) (df : DataFrame I)
  : result (DataFrame I) :=
  match filter (λ l, l ∉ column_names df) labels with
  | [] =>
      Ok {| index_name := index_name df;
            index := index df;
            columns := filter (λ c, name c ∉ labels) (columns df) |}
  | l :: _ => Raise (KeyError l)
  end.

(** [df[labels]] for a list of labels: the columns in the order of the list,
    every column carrying the label when a label is repeated in the frame. *)
Fixpoint select_series (labels : list string) (cols : list Series)
  : result (list Series) :=
  match labels with
  | [] => Ok []
  | l :: labels =>
      match filter (λ c, name c = l) cols with
      | [] => Raise (KeyError l)
      | found => rest ← select_series labels cols; Ok (found ++ rest)
      end
  end.

Definition getitem_columns {I} (labels : list string) (df : DataFrame I)
  : result (DataFrame I) :=
  cols ← select_series labels (columns df);
  Ok {| index_name := index_name df; index := index df; columns := cols |}.

(** [df.loc[:, mask]] for a boolean mask over the columns *)
Definition loc_columns {I} (mask : list bool) (df : DataFrame I)
  : DataFrame I :=
  {| index_name := index_name df;
     index := index df;
     columns := compress mask (columns df) |}.

(** Position of the first row carrying a label. *)
Fixpoint get_loc {I} `{EqDecision I} (l : I) (idx : list I) : option nat :=
  match idx with
  | [] => None
  | x :: idx => if decide (x = l) then Some 0%nat else S <$> get_loc l idx
  end.

Definition take_values (pos : list (option nat)) (vs : list value)
  : list value :=
  (λ p, match p with
        | Some i => default NaN (vs !! i)
        | None => NaN
        end) <$> pos.

Definition reindex_series (pos : list (option nat)) (c : Series) : Series :=
  {| name := name c;
     dtype_of := if bool_decide (None ∈ pos) then upcast_na (dtype_of c)
                 else dtype_of c;
     values := take_values pos (values c) |}.

(** [df.reindex(labels)]: one row per label, in the order of [labels], all
    missing for a label the frame does not have.  pandas refuses to reindex
    a frame whose own index repeats a label. *)
Definition reindex {I} `{EqDecision I} (labels : list I) (df : DataFrame I)
  : result (DataFrame I) :=
  if decide (NoDup (index df)) then
    let pos := (λ l, get_loc l (index df)) <$> labels in
    Ok {| index_name := index_name df;
          index := labels;
          columns := reindex_series pos <$> columns df |}
  else Raise (ValueError "cannot reindex on an axis with duplicate labels").

(** Row mask of [dropna]: a row is kept when none of the inspected columns is
    missing there. *)
Definition notna_rows (n : nat) (cols : list Series) : list bool :=
  (λ i, forallb (λ c, negb (isna (default NaN (values c !! i)))) cols)
    <$> seq 0 n.

Definition compress_series (mask : list bool) (c : Series) : Series :=
  {| name := name c; dtype_of := dtype_of c;
     values := compress mask (values c) |}.

Definition compress_rows {I} (mask : list bool) (df : DataFrame I)
  : DataFrame I :=
  {| index_name := index_name df;
     index := compress mask (index df);
     columns := compress_series mask <$> columns df |}.

(** [df.dropna(axis=0)] *)
Definition dropna {I} (df : DataFrame I) : DataFrame I :=
  compress_rows (notna_rows (length (index df)) (columns df)) df.

(** [df.dropna(subset=labels)] *)
Definition dropna_subset {I} (labels : list string) (df : DataFrame I)
  : result (DataFrame I) :=
  cols ← select_series labels (columns df);
  Ok (compress_rows (notna_rows (length (index df)) cols) df).

(** [df[label] = vs]: replaces the column(s) carrying the label, or appends a
    new last column; the list has to be as long as the index. *)
Definition setitem_column {I} (label : string) (d : dtype) (vs : list value)
    (df : DataFrame I) : result (DataFrame I) :=
  if decide (length vs = length (index df)) then
    let new := {| name := label; dtype_of := d; values := vs |} in
    Ok {| index_name := index_name df;
          index := index df;
          columns :=
            if bool_decide (label ∈ column_names df)
            then (λ c, if bool_decide (name c = label) then new else c)
                   <$> columns df
            else columns df ++ [new] |}
  else Raise (ValueError "Length of values does not match length of index").

(** An integer scalar stored into a column of a given dtype. *)
Definition coerce_int (d : dtype) (z : Z) : value :=
  match d with
  | dt_float64 => VFloat (inject_Z z)
  | _ => VInt z
  end.

Definition dtype_with_int (d : dtype) : dtype :=
  match d with dt_bool => dt_object | d => d end.

(** [df.loc[label, :] = z]: overwrites the row(s) carrying the label, or
    enlarges the frame by a new last row. *)
Definition loc_setitem_row {I} `{EqDecision I} (label : I) (z : Z)
    (df : DataFrame I) : DataFrame I :=
  if bool_decide (label ∈ index df) then
    {| index_name := index_name df;
       index := index df;
       columns :=
         (λ c, {| name := name c;
                  dtype_of := dtype_with_int (dtype_of c);
                  values := zip_with
                    (λ i v, if bool_decide (i = label)
                            then coerce_int (dtype_of c) z else v)
                    (index df) (values c) |}) <$> columns df |}
  else
    {| index_name := index_name df;
       index := index df ++ [label];
       columns :=
         (λ c, {| name := name c;
                  dtype_of := dtype_with_int (dtype_of c);
                  values := values c ++ [coerce_int (dtype_of c) z] |})
           <$> columns df |}.

(** Python's [sub in s] on strings *)
Fixpoint contains (sub s : string) : bool :=
  String.prefix sub s ||
  match s with
  | EmptyString => false
  | String _ s' => contains sub s'
  end.

(** Lexicographic order on identifiers; [sorted] on a list of strings. *)
Definition str_le (a b : string) : Prop := String.leb a b = true.

#[global] Instance str_le_dec a b : Decision (str_le a b).
Proof. unfold str_le. apply _. Defined.

Definition sort_labels (l : list string) : list string := merge_sort str_le l.

(** [concat([a, b], axis=1, sort=True)]: the row labels of the result are the
    union of the two indexes, sorted; a frame whose index already is the
    result's is used as it stands, any other one is reindexed to it. *)
Definition union_index (i1 i2 : list string) : list string :=
  if decide (i1 = i2) then i1 else i1 ++ filter (λ l, l ∉ i1) i2.

Definition safe_sort_index (idx : list string) : list string :=
  if decide (Sorted str_le idx) then idx else sort_labels idx.

Definition align_rows (idx : list string) (df : DataFrame string)
  : result (DataFrame string) :=
  if decide (index df = idx) then Ok df else reindex idx df.

Definition concat_columns_sorted (a b : DataFrame string)
  : result (DataFrame string) :=
  let idx := safe_sort_index (union_index (index a) (index b)) in
  a' ← align_rows idx a;
  b' ← align_rows idx b;
  Ok {| index_name := None;
        index := idx;
        columns := columns a' ++ columns b' |}.

(** ** Index labels that need not be strings, and [index.astype(str)] *)

Inductive label :=
| LStr (s : string)
| LInt (z : Z).

#[global] Instance label_eq_dec : EqDecision label.
Proof. solve_decision. Defined.

Definition str_of_label (l : label) : string :=
  match l with
  | LStr s => s
  | LInt z => pretty z
  end.

Definition index_astype_str (df : DataFrame label) : DataFrame string :=
  {| index_name := index_name df;
     index := str_of_label <$> index df;
     columns := columns df |}.

(** ** qiime2.Metadata: an object that hands out its frame *)

Record Metadata := { to_dataframe : DataFrame string }.

(** The metadata argument is either a raw frame or a qiime2 object. *)
Inductive metadata_arg :=
| as_DataFrame (df : DataFrame string)
| as_Metadata (md : Metadata).

(** ** scikit-bio containers *)

Record DistanceMatrix := {
  dm_data : list (list Q);
  dm_ids : list string;
}.

(** One value per axis, as the eigenvalues and the proportion explained
    are: the objects are made by [gemelli.factorization], as a
    one-dimensional labelled vector (a pandas Series, what scikit-bio takes
    for both) or as a table with one row per axis. *)
Inductive per_axis :=
| axis_vector (labels : list string) (data : Series)
| axis_table (df : DataFrame string).

Definition axis_labels (x : per_axis) : list string :=
  match x with
  | axis_vector labels _ => labels
  | axis_table df => index df
  end.

Record OrdinationResults := {
  short_method_name : string;
  long_method_name : string;
  ord_eigvals : per_axis;
  ord_samples : DataFrame string;
  ord_features : DataFrame label;
  ord_proportion_explained : per_axis;
}.

(** Integer (fancy) indexing [a[indices]]; out of range is an error. *)
Fixpoint take {A} (indices : list nat) (l : list A) : result (list A) :=
  match indices with
  | [] => Ok []
  | i :: indices =>
      match l !! i with
      | Some x => rest ← take indices l; Ok (x :: rest)
      | None => Raise (IndexError "index out of bounds")
      end
  end.

(** [m[indices, :][:, indices]] *)
Definition submatrix (indices : list nat) (m : list (list Q))
  : result (list (list Q)) :=
  rows ← take indices m;
  mapM (take indices) rows.

Definition entry (m : list (list Q)) (i j : nat) : Q :=
  default 0%Q (m !! i ≫= (.!! j)).

Definition is_square (m : list (list Q)) : bool :=
  forallb (λ r, bool_decide (length r = length m)) m.

Definition is_hollow (m : list (list Q)) : bool :=
  forallb (λ i, Qeq_bool (entry m i i) 0) (seq 0 (length m)).

Definition is_symmetric (m : list (list Q)) : bool :=
  forallb (λ i, forallb (λ j, Qeq_bool (entry m i j) (entry m j i))
                        (seq 0 (length m)))
          (seq 0 (length m)).

(** [skbio.stats.distance.DistanceMatrix(data, ids=ids)] with the checks of
    its constructor. *)
Definition DistanceMatrix_new (data : list (list Q)) (ids : list string)
  : result DistanceMatrix :=
  if bool_decide (data = []) then
    Raise (DistanceMatrixError "Data must be at least 1x1 in size.")
  else if negb (is_square data) then
    Raise (DistanceMatrixError "Data must be square")
  else if negb (bool_decide (NoDup ids)) then
    Raise (DistanceMatrixError "IDs must be unique")
  else if negb (bool_decide (length ids = length data)) then
    Raise (DistanceMatrixError "The number of IDs must match the data")
  else if negb (is_hollow data) then
    Raise (DistanceMatrixError "Data must be hollow")
  else if negb (is_symmetric data) then
    Raise (DistanceMatrixError "Data must be symmetric")
  else Ok {| dm_data := data; dm_ids := ids |}.

(** ** Python dictionaries in insertion order *)

Fixpoint dict_setitem {V} (k : string) (v : V) (d : list (string * V))
  : list (string * V) :=
  match d with
  | [] => [(k, v)]
  | (k', v') :: d =>
      if decide (k' = k) then (k, v) :: d else (k', v') :: dict_setitem k v d
  end.

Fixpoint dict_get {V} (k : string) (d : list (string * V)) : option V :=
  match d with
  | [] => None
  | (k', v) :: d => if decide (k' = k) then Some v else dict_get k d
  end.

(** [enumerate(l)] *)
Definition enumerate {A} (l : list A) : list (nat * A) :=
  zip (seq 0 (length l)) l.

(** ** What the fitted and labelled [TensorFactorization] exposes *)

Record TensorFactorization := {
  subjects : DataFrame string;
  features : DataFrame label;
  proportion_explained : per_axis;
  eigvals : per_axis;
  subject_distances : list (list (list Q));
  subject_trajectory : list (DataFrame string);
  feature_trajectory : list (DataFrame label);
}.

(** The four values [ctf_helper] returns. *)
Record ctf_output := {
  ordination : OrdinationResults;
  distances : list (string * DistanceMatrix);
  subject_trajectories : list (string * DataFrame string);
  feature_trajectories : list (string * DataFrame string);
}.

(** ** Computations on a mutable object

    [ctf_helper] filters the biom table it is handed in place, and the
    command line wrappers read and write files, so the object (the table,
    the file system) is threaded as state: a computation maps the state to
    the new state and a result or an exception. *)

Definition stateful (S A : Type) : Type := S → S * result A.

#[global] Instance stateful_ret {S} : MRet (stateful S) := λ A a s, (s, Ok a).
#[global] Instance stateful_bind {S} : MBind (stateful S) := λ A B f m s,
  match m s with
  | (s', Ok a) => f a s'
  | (s', Raise e) => (s', Raise e)
  end.

Definition lift {S A} (r : result A) : stateful S A := λ s, (s, r).
Definition raise {S A} (e : exn) : stateful S A := λ s, (s, Raise e).

Abbreviation prog := (stateful Table).

Definition read_table {A} (f : Table → A) : prog A := λ t, (t, Ok (f t)).

(** [table.filter(ids_to_keep, axis=ax, inplace=True)] *)
Definition filter_inplace (ids_to_keep : list string) (ax : axis) : prog unit :=
  λ t, (table_filter ids_to_keep ax t, Ok ()).

(** ** [ctf_helper], stage by stage *)

Definition any_eq (s : string) (c : Series) : bool :=
  existsb (λ v, match v with VStr s' => bool_decide (s' = s) | _ => false end)
          (values c).

(** Lines 72-78: the two passes that drop boolean looking columns from the
    auxiliary metadata. *)
Definition drop_bool_columns (all_sample_metadata : DataFrame string)
  : DataFrame string :=
  let drop_bool :=
    (λ c, bool_decide (dtype_of c = dt_bool))
      <$> columns all_sample_metadata in
  let all_sample_metadata :=
    loc_columns (negb <$> drop_bool) all_sample_metadata in
  let drop_bool :=
    (λ c, xorb (any_eq "True" c) (any_eq "False" c))
      <$> columns all_sample_metadata in
  loc_columns (negb <$> drop_bool) all_sample_metadata.

Definition no_more_features_feature_metadata : string :=
  "No more features left.  Check to make sure that the sample names between `feature-metadata` and `table` are consistent".

Definition no_more_features_sample_metadata : string :=
  "No more features left.  Check to make sure that the sample names between `sample-metadata` and `table` are consistent".

(** Lines 124-129: the two minimum-count filters, samples first. *)
Definition filter_min_count (ax : axis) (min_sum : Z) : prog unit :=
  t ← read_table id;
  filter_inplace
    (compress ((λ s, bool_decide (min_sum ≤ s)) <$> table_sum ax t) (ids ax t))
    ax.

Fixpoint filter_min_counts (todo : list (axis * Z)) : prog unit :=
  match todo with
  | [] => mret ()
  | (ax, min_sum) :: todo =>
      filter_min_count ax min_sum ≫= λ _, filter_min_counts todo
  end.

(** Lines 95-121: identifiers of the table against those of the metadata. *)
Definition match_feature_ids (subtablefids : gset string)
    (feature_metadata : option (DataFrame string))
  : prog (option (DataFrame string * gset string)) :=
  match feature_metadata with
  | Some fm =>
      let submetadatafeat : gset string := list_to_set (index fm) in
      let fidx := subtablefids ∩ submetadatafeat in
      if bool_decide (size fidx = 0%nat)
      then raise (ValueError no_more_features_feature_metadata)
      else fm' ← lift (reindex (elements fidx) fm);
           mret (Some (fm', fidx))
  | None => mret None
  end.

Definition filter_matched_features
    (matched : option (DataFrame string * gset string)) : prog unit :=
  match matched with
  | Some (_, fidx) => filter_inplace (elements fidx) observation
  | None => mret ()
  end.

Definition match_ids (sample_metadata : DataFrame string)
    (feature_metadata : option (DataFrame string))
  : prog (DataFrame string * option (DataFrame string)) :=
  subtablefids ← read_table (ids observation);
  subtablesids ← read_table (ids sample);
  if bool_decide
       (length subtablesids ≠ size (list_to_set subtablesids : gset string))
  then raise (ValueError "Data-table contains duplicate sample IDs")
  else if bool_decide
       (length subtablefids ≠ size (list_to_set subtablefids : gset string))
  then raise (ValueError "Data-table contains duplicate feature IDs")
  else
    let submetadataids : gset string :=
      list_to_set (index sample_metadata) in
    let subtablesids : gset string := list_to_set subtablesids in
    let subtablefids : gset string := list_to_set subtablefids in
    matched ← match_feature_ids subtablefids feature_metadata;
    let sidx := subtablesids ∩ submetadataids in
    if bool_decide (size sidx = 0%nat)
    then raise (ValueError no_more_features_sample_metadata)
    else
      filter_matched_features matched ≫= λ _,
      filter_inplace (elements sidx) sample ≫= λ _,
      sample_metadata ← lift (reindex (elements sidx) sample_metadata);
      mret (sample_metadata, fst <$> matched).

(** Lines 150-158: the third axis of zeros. *)
Definition zeros {I} (df : DataFrame I) : list value :=
  replicate (length (index df)) (VInt 0).

(** [x.loc[label, :] = z]: a row label and a column slice, which is one
    indexer too many for a one-dimensional vector. *)
Definition loc_setitem_row_slice (label : string) (z : Z) (x : per_axis)
  : result per_axis :=
  match x with
  | axis_table df => Ok (axis_table (loc_setitem_row label z df))
  | axis_vector _ _ => Raise (IndexingError "Too many indexers")
  end.

Definition add_PC3 (n_components : Z) (TF : TensorFactorization)
  : result TensorFactorization :=
  if bool_decide (n_components = 2) then
    subjects' ← setitem_column "PC3" dt_int64 (zeros (subjects TF))
                               (subjects TF);
    features' ← setitem_column "PC3" dt_int64 (zeros (features TF))
                               (features TF);
    proportion_explained' ←
      loc_setitem_row_slice "PC3" 0 (proportion_explained TF);
    eigvals' ← loc_setitem_row_slice "PC3" 0 (eigvals TF);
    Ok {| subjects := subjects';
          features := features';
          proportion_explained := proportion_explained';
          eigvals := eigvals';
          subject_distances := subject_distances TF;
          subject_trajectory := subject_trajectory TF;
          feature_trajectory := feature_trajectory TF |}
  else Ok TF.

(** Lines 160-171: the ordination. *)
Definition keep_PC (TF : TensorFactorization) : list string :=
  filter (λ col, contains "PC" col = true) (column_names (features TF)).

Definition build_ordination (TF : TensorFactorization)
  : result OrdinationResults :=
  samples ← getitem_columns (keep_PC TF) (subjects TF);
  feats ← getitem_columns (keep_PC TF) (features TF);
  Ok {| short_method_name := "CTF_Biplot";
        long_method_name := "Compositional Tensor Factorization Biplot";
        ord_eigvals := eigvals TF;
        ord_samples := dropna samples;
        ord_features := dropna feats;
        ord_proportion_explained := proportion_explained TF |}.

(** Lines 182-188: one distance matrix, matched to the metadata. *)
Definition ind_dict (ids : list string) : gmap string nat :=
  foldl (λ d '(ind_i, ind), <[ind := ind_i]> d) ∅ (enumerate ids).

Definition matched_indices (ids : list string)
    (sample_metadata : DataFrame string) : result (list nat) :=
  let inter : gset string :=
    dom (ind_dict ids) ∩ list_to_set (index sample_metadata) in
  found ← mapM (λ ind, match ind_dict ids !! ind with
                       | Some ind_i => Ok ind_i
                       | None => Raise (KeyError ind)
                       end) (elements inter);
  Ok (merge_sort le found).

Definition match_distances (straj : DataFrame string)
    (sample_metadata : DataFrame string) (dist : list (list Q))
  : result DistanceMatrix :=
  indices ← matched_indices (index straj) sample_metadata;
  dist ← submatrix indices dist;
  ids ← take indices (index straj);
  DistanceMatrix_new dist ids.

(** Lines 192-198: one subject trajectory, merged with the metadata. *)
Definition set_index_name {I} (n : string) (df : DataFrame I) : DataFrame I :=
  {| index_name := Some n; index := index df; columns := columns df |}.

Definition merge_trajectory (straj all_sample_metadata : DataFrame string)
  : result (DataFrame string) :=
  let pre_merge_cols := column_names straj in
  reindexed ← reindex (index all_sample_metadata) straj;
  straj ← concat_columns_sorted reindexed all_sample_metadata;
  straj ← dropna_subset pre_merge_cols straj;
  Ok (set_index_name "#SampleID" straj).

(** Lines 174-203: the loop over the conditions. *)
Definition loop_state : Type :=
  list (string * DistanceMatrix) * list (string * DataFrame string)
  * list (string * DataFrame string).

Definition condition_step (sample_metadata all_sample_metadata : DataFrame string)
    (acc : loop_state)
    (item : string * (list (list Q) * (DataFrame string * DataFrame label)))
  : result loop_state :=
  let '(distances, subject_trajectories, feature_trajectories) := acc in
  let '(condition, (dist, (straj, ftraj))) := item in
  dm ← match_distances straj sample_metadata dist;
  straj ← merge_trajectory straj all_sample_metadata;
  Ok (dict_setitem condition dm distances,
      dict_setitem condition straj subject_trajectories,
      dict_setitem condition (index_astype_str ftraj) feature_trajectories).

Fixpoint conditions_loop (sample_metadata all_sample_metadata : DataFrame string)
    (acc : loop_state)
    (items : list (string * (list (list Q)
                             * (DataFrame string * DataFrame label))))
  : result loop_state :=
  match items with
  | [] => Ok acc
  | item :: items =>
      acc ← condition_step sample_metadata all_sample_metadata acc item;
      conditions_loop sample_metadata all_sample_metadata acc items
  end.

(** ** The stand-alone transforms: files, click and the two commands *)

(** A phylogeny, kept as its newick text. *)
Record TreeNode := { newick_text : string }.

(** A table of transformed (no longer integral) values. *)
Record ValueTable := {
  vt_observation_ids : list string;
  vt_sample_ids : list string;
  vt_data : list (list Q);
}.

Inductive file :=
| biom_counts (t : Table)
| biom_values (t : ValueTable)
| newick (t : TreeNode).

(** The files and the directories, each under its path as it is spelled:
    paths are taken in normal form, so that one place has one path. *)
Record filesystem := {
  files : gmap string file;
  dirs : gset string;
}.

Abbreviation io := (stateful filesystem).

(** What a parameter of a command can be bound to: click hands over plain
    strings, a caller from Python may hand over a path object. *)
Inductive pyobj :=
| py_str (s : string)
| py_path (p : string).

Definition fspath (o : pyobj) : string :=
  match o with py_str s => s | py_path p => p end.

Definition read_file (path : string) : io file := λ fs,
  (fs, match files fs !! path with
       | Some f => Ok f
       | None => Raise (IOError path)
       end).

(** Opening a path for writing and filling it: a directory cannot be
    opened that way. *)
Definition write_file (path : string) (f : file) : io unit := λ fs,
  if bool_decide (path ∈ dirs fs) then (fs, Raise (IOError path))
  else ({| files := <[path := f]> (files fs); dirs := dirs fs |}, Ok ()).

(** The directories above a path: what stands before each of its slashes. *)
Fixpoint ancestors_from (pre rest : string) : list string :=
  match rest with
  | EmptyString => []
  | String c rest' =>
      (if bool_decide (c = "/"%char) then [pre] else [])
        ++ ancestors_from (pre +:+ String c EmptyString) rest'
  end.

Definition ancestors (path : string) : list string :=
  filter (λ a, a ≠ "") (ancestors_from "" path).

(** [os.makedirs(d, exist_ok=True)]: the empty path names nothing, and
    neither the directory nor one above it may be a file; the directory is
    made with all those above it. *)
Definition makedirs (d : string) : io unit := λ fs,
  if bool_decide (d = "") then (fs, Raise (IOError d))
  else
    match filter (λ p, is_Some (files fs !! p)) (ancestors d ++ [d]) with
    | p :: _ => (fs, Raise (IOError p))
    | [] =>
        ({| files := files fs;
            dirs := list_to_set (ancestors d ++ [d]) ∪ dirs fs |}, Ok ())
    end.

(** [os.path.join(d, f)] for a relative [f] *)
Definition path_join (d f : string) : string :=
  if bool_decide (d = "") then f
  else if bool_decide (String.get (String.length d - 1) d = Some "/"%char)
       then d +:+ f
       else d +:+ "/" +:+ f.

(** [obj.open()]: a path object has the method, a string has not. *)
Definition py_open (o : pyobj) : io file :=
  match o with
  | py_str _ => raise (AttributeError "'str' object has no attribute 'open'")
  | py_path p => read_file p
  end.

(** [TreeNode.read(fh, format='newick')] *)
Definition TreeNode_read (fh : file) : result TreeNode :=
  match fh with
  | newick t => Ok t
  | _ => Raise (ValueError "not a newick file")
  end.

(** The name under which click passes the value of an option to the
    callback: leading dashes dropped, inner dashes turned into underscores. *)
Fixpoint dashes_to_underscores (s : string) : string :=
  match s with
  | EmptyString => EmptyString
  | String c s =>
      String (if bool_decide (c = "-"%char) then "_"%char else c)
             (dashes_to_underscores s)
  end.

Fixpoint strip_dashes (s : string) : string :=
  match s with
  | String c s' => if bool_decide (c = "-"%char) then strip_dashes s' else s
  | EmptyString => EmptyString
  end.

Definition click_param_name (opt : string) : string :=
  dashes_to_underscores (strip_dashes opt).

(** The value click binds to an option: the one of its last occurrence on
    the command line. *)
Definition option_value (o : string) (argv : list (string * string))
  : option string :=
  dict_get o (reverse argv).

(** click collecting the (all required) options of a command from the
    command line, given as option/value pairs. *)
Definition click_parse (options : list string) (argv : list (string * string))
  : result (list (string * string)) :=
  match filter (λ a, a.1 ∉ options) argv with
  | (o, _) :: _ => Raise (UsageError ("No such option: " +:+ o))
  | [] =>
      mapM (λ o, match option_value o argv with
                 | Some v => Ok (click_param_name o, v)
                 | None => Raise (UsageError ("Missing option " +:+ o))
                 end) options
  end.

(** Python binding keyword arguments to the parameters of a function. *)
Definition bind_keywords (fname : string) (params : list string)
    (kwargs : list (string * string)) : result (list string) :=
  match filter (λ a, a.1 ∉ params) kwargs with
  | (k, _) :: _ =>
      Raise (TypeError (fname +:+ "() got an unexpected keyword argument '"
                          +:+ k +:+ "'"))
  | [] =>
      mapM (λ p, match dict_get p kwargs with
                 | Some v => Ok v
                 | None =>
                     Raise (TypeError (fname +:+
                       "() missing 1 required positional argument: '"
                       +:+ p +:+ "'"))
                 end) params
  end.

(** The arguments a click command calls its callback with. *)
Definition click_invoke (fname : string) (options params : list string)
    (argv : list (string * string)) : result (list string) :=
  kwargs ← click_parse options argv;
  bind_keywords fname params kwargs.

(** ** Inputs used to exercise the embedding *)

(** A validator that accepts every frame as it is. *)
Definition accept_metadata (df : DataFrame string) : result Metadata :=
  Ok {| to_dataframe := df |}.

Definition float_column (n : string) (qs : list Q) : Series :=
  {| name := n; dtype_of := dt_float64; values := VFloat <$> qs |}.

Definition str_column (n : string) (ss : list string) : Series :=
  {| name := n; dtype_of := dt_object; values := VStr <$> ss |}.

Definition subject_time_metadata (ids : list string) : DataFrame string :=
  {| index_name := None;
     index := ids;
     columns := [str_column "subject" (ids);
                 str_column "time" ((λ _, "0") <$> ids)] |}.

(** Two samples of two subjects, with one auxiliary column. *)
Definition example_table : Table :=
  {| observation_ids := ["f1"; "f2"];
     sample_ids := ["s1"; "s2"];
     matrix_data := [[3; 4]; [5; 6]] |}.

Definition example_metadata : DataFrame string :=
  {| index_name := None;
     index := ["s1"; "s2"];
     columns := [str_column "subject" ["A"; "B"];
                 str_column "time" ["0"; "0"];
                 str_column "site" ["gut"; "skin"]] |}.



(** A labelled two-component factorization of it; the trajectory lists the
    samples in the order [s2], [s1]. *)
Definition example_TF : TensorFactorization :=
  {| subjects :=
       {| index_name := None; index := ["A"; "B"];
          columns := [float_column "PC1" [1 # 2; -1 # 2];
                      float_column "PC2" [1 # 4; 3 # 4]] |};
     features :=
       {| index_name := None; index := [LStr "f1"; LStr "f2"];
          columns := [float_column "PC1" [2 # 3; 1 # 3];
                      float_column "PC2" [-1 # 5; 1 # 5]] |};
     proportion_explained :=
       axis_table
         {| index_name := None; index := ["PC1"; "PC2"];
            columns := [float_column "proportion_explained" [3 # 4; 1 # 4]] |};
     eigvals :=
       axis_table
         {| index_name := None; index := ["PC1"; "PC2"];
            columns := [float_column "eigvals" [6 # 1; 2 # 1]] |};
     subject_distances := [[[0 # 1; 1 # 1]; [1 # 1; 0 # 1]]];
     subject_trajectory :=
       [{| index_name := None; index := ["s2"; "s1"];
           columns := [float_column "PC1" [-1 # 2; 1 # 2];
                       float_column "PC2" [3 # 4; 1 # 4]] |}];
     feature_trajectory :=
       [{| index_name := None; index := [LInt 7; LStr "f2"];
           columns := [float_column "PC1" [2 # 3; 1 # 3];
                       float_column "PC2" [-1 # 5; 1 # 5]] |}] |}.

(** The same factorization with the two subjects loaded identically. *)
Definition twin_TF : TensorFactorization :=
  {| subjects :=
       {| index_name := None; index := ["A"; "B"];
          columns := [float_column "PC1" [1 # 2; 1 # 2];
                      float_column "PC2" [1 # 4; 1 # 4]] |};
     features := features example_TF;
     proportion_explained := proportion_explained example_TF;
     eigvals := eigvals example_TF;
     subject_distances := subject_distances example_TF;
     subject_trajectory := subject_trajectory example_TF;
     feature_trajectory := feature_trajectory example_TF |}.

(** The same factorization with the proportion explained and the
    eigenvalues as vectors. *)
Definition vector_TF : TensorFactorization :=
  {| subjects := subjects example_TF;
     features := features example_TF;
     proportion_explained :=
       axis_vector ["PC1"; "PC2"]
                   (float_column "proportion_explained" [3 # 4; 1 # 4]);
     eigvals :=
       axis_vector ["PC1"; "PC2"] (float_column "eigvals" [6 # 1; 2 # 1]);
     subject_distances := subject_distances example_TF;
     subject_trajectory := subject_trajectory example_TF;
     feature_trajectory := feature_trajectory example_TF |}.

(** A numeric core with a fixed outcome. *)
Definition fit_returns (conditions : list string) (TF : TensorFactorization)
  : Table → DataFrame string → string → list string → Z → Z → Z → Z →
    option (DataFrame string) → result (list string * TensorFactorization) :=
  λ _ _ _ _ _ _ _ _ _, Ok (conditions, TF).

Definition empty_frame {I} : DataFrame I :=
  {| index_name := None; index := []; columns := [] |}.

Definition nothing_fitted : TensorFactorization :=
  {| subjects := empty_frame;
     features := empty_frame;
     proportion_explained := axis_table empty_frame;
     eigvals := axis_table empty_frame;
     subject_distances := [];
     subject_trajectory := [];
     feature_trajectory := [] |}.

(** A phylogenetic transformation that hands back what it was given, and a
    file system holding a table and a tree. *)
Definition relabel_only (t : Table) (tree : TreeNode)
  : result (Table * ValueTable * TreeNode) :=
  Ok (t, {| vt_observation_ids := observation_ids t;
            vt_sample_ids := sample_ids t;
            vt_data := [] |}, tree).

(** A reader of tables that finds no table in a file of another kind. *)
Definition counts_or_nothing (f : file) : result Table :=
  match f with
  | biom_counts t => Ok t
  | _ => Ok {| observation_ids := []; sample_ids := []; matrix_data := [] |}
  end.

Definition example_files : filesystem :=
  {| files := {[ "table.biom" := biom_counts example_table;
                 "tree.nwk" := newick {| newick_text := "(f1,f2);" |} ]};
     dirs := ∅ |}.

Section driver.

(** [qiime2.Metadata(df)]: the validator of qiime2. *)
Variable Metadata_new : DataFrame string → result Metadata.

(** Lines 131-148: tensor building, rclr, fitting and labelling, all of them
    in [gemelli.preprocessing] and [gemelli.factorization]; the outcome is
    [tensor.conditions] and the labelled factorization. *)
Variable fit_and_label :
  Table → DataFrame string → string → list string → Z → Z → Z → Z →
  option (DataFrame string) → result (list string * TensorFactorization).

(** [gemelli.preprocessing.rclr_transformation] and
    [phylogenetic_rclr_transformation]. *)
Variable rclr_transformation : Table → result ValueTable.
Variable phylogenetic_rclr_transformation :
  Table → TreeNode → result (Table * ValueTable * TreeNode).

(** What [biom.load_table] makes of the content of a file: it tries HDF5,
    then JSON, then tab-separated text. *)
Variable parse_biom_table : file → result Table.

(** [biom.load_table(path)] *)
Definition load_table (path : pyobj) : io Table :=
  f ← read_file (fspath path);
  lift (parse_biom_table f).

(** Lines 66-88: the state and subject columns against the auxiliary ones. *)
Definition split_sample_metadata (sample_metadata : metadata_arg)
    (individual_id_column : string) (state_columns : list string)
  : result (DataFrame string * DataFrame string) :=
  match sample_metadata with
  | as_DataFrame sample_metadata =>
      let keep_cols := state_columns ++ [individual_id_column] in
      all_sample_metadata ← drop_columns keep_cols sample_metadata;
      sample_metadata ← getitem_columns keep_cols sample_metadata;
      let all_sample_metadata := drop_bool_columns all_sample_metadata in
      md ← Metadata_new sample_metadata;
      Ok (to_dataframe md, all_sample_metadata)
  | as_Metadata md =>
      let keep_cols := state_columns ++ [individual_id_column] in
      let sample_metadata := to_dataframe md in
      all_sample_metadata ← drop_columns keep_cols sample_metadata;
      sample_metadata ← getitem_columns keep_cols sample_metadata;
      Ok (sample_metadata, all_sample_metadata)
  end.

(** Lines 90-93 *)
Definition load_feature_metadata (feature_metadata : option metadata_arg)
  : result (option (DataFrame string)) :=
  match feature_metadata with
  | Some (as_DataFrame df) => md ← Metadata_new df; Ok (Some (to_dataframe md))
  | Some (as_Metadata md) => Ok (Some (to_dataframe md))
  | None => Ok None
  end.

(** Lines 94-129: alignment and filtering, on the caller's table. *)
Definition align_and_filter (sample_metadata : DataFrame string)
    (feature_metadata : option (DataFrame string))
    (min_sample_count min_feature_count : Z)
  : prog (DataFrame string * option (DataFrame string)) :=
  matched ← match_ids sample_metadata feature_metadata;
  filter_min_counts
    (zip [sample; observation] [min_sample_count; min_feature_count])
    ≫= λ _, mret matched.

(** Line 177: what the loop runs over. *)
Definition loop_items (conditions : list string) (TF : TensorFactorization)
  : list (string * (list (list Q) * (DataFrame string * DataFrame label))) :=
  zip conditions
      (zip (subject_distances TF)
           (zip (subject_trajectory TF) (feature_trajectory TF))).

(** Lines 150-203: everything after the fit. *)
Definition assemble (n_components : Z) (conditions : list string)
    (TF : TensorFactorization)
    (sample_metadata all_sample_metadata : DataFrame string)
  : result ctf_output :=
  TF ← add_PC3 n_components TF;
  ord ← build_ordination TF;
  '(d, s, f) ← conditions_loop sample_metadata all_sample_metadata ([], [], [])
                              (loop_items conditions TF);
  Ok {| ordination := ord;
        distances := d;
        subject_trajectories := s;
        feature_trajectories := f |}.

Definition ctf_helper (sample_metadata : metadata_arg)
    (individual_id_column : string) (state_columns : list string)
    (n_components min_sample_count min_feature_count : Z)
    (max_iterations_als max_iterations_rptm n_initializations : Z)
    (feature_metadata : option metadata_arg) : prog ctf_output :=
  '(sample_metadata, all_sample_metadata) ←
     lift (split_sample_metadata sample_metadata individual_id_column
                                 state_columns);
  feature_metadata ← lift (load_feature_metadata feature_metadata);
  '(sample_metadata, feature_metadata) ←
     align_and_filter sample_metadata feature_metadata
                      min_sample_count min_feature_count;
  table ← read_table id;
  '(conditions, TF) ←
     lift (fit_and_label table sample_metadata individual_id_column
             state_columns n_components max_iterations_als
             max_iterations_rptm n_initializations feature_metadata);
  lift (assemble n_components conditions TF sample_metadata
                 all_sample_metadata).

(** [standalone_phylogenetic_rclr(in_biom, in_tree, output_dir)] *)
Definition standalone_phylogenetic_rclr (in_biom in_tree : pyobj)
    (output_dir : string) : io unit :=
  table ← load_table in_biom;
  fh ← py_open in_tree;
  phylogeny ← lift (TreeNode_read fh);
  '(counts_by_node, rclr_table, phylogeny) ←
     lift (phylogenetic_rclr_transformation table phylogeny);
  makedirs output_dir ≫= λ _,
  write_file (path_join output_dir "labeled-phylogeny.tsv") (newick phylogeny)
    ≫= λ _,
  write_file (path_join output_dir "phylo-rclr-table.biom")
             (biom_values rclr_table) ≫= λ _,
  write_file (path_join output_dir "phylo-count-table.biom")
             (biom_counts counts_by_node).

(** The [phylogenetic-rclr] subcommand: the callback behind its three click
    options. *)
Definition phylogenetic_rclr_command (argv : list (string * string))
  : io unit :=
  args ← lift (click_invoke "standalone_phylogenetic_rclr"
                 ["--in-biom"; "--in-phylogeny"; "--output-dir"]
                 ["in_biom"; "in_tree"; "output_dir"] argv);
  match args with
  | [in_biom; in_tree; output_dir] =>
      standalone_phylogenetic_rclr (py_str in_biom) (py_str in_tree) output_dir
  | _ => raise (TypeError "standalone_phylogenetic_rclr()")
  end.

(** [standalone_rclr(in_biom, output_dir)] *)
Definition standalone_rclr (in_biom : pyobj) (output_dir : string) : io unit :=
  loaded ← load_table in_biom;
  table ← lift (rclr_transformation loaded);
  makedirs output_dir ≫= λ _,
  write_file (path_join output_dir "rclr-table.biom") (biom_values table).

(** The [rclr] subcommand. *)
Definition rclr_command (argv : list (string * string)) : io unit :=
  args ← lift (click_invoke "standalone_rclr"
                 ["--in-biom"; "--output-dir"]
                 ["in_biom"; "output_dir"] argv);
  match args with
  | [in_biom; output_dir] => standalone_rclr (py_str in_biom) output_dir
  | _ => raise (TypeError "standalone_rclr()")
  end.

(** The driver once the metadata is loaded: what it does with the outcome of
    the alignment. *)
Definition after_alignment (individual_id_column : string)
    (state_columns : list string) (n_components : Z)
    (max_iterations_als max_iterations_rptm n_initializations : Z)
    (all_sample_metadata : DataFrame string)
    (aligned : Table * result (DataFrame string * option (DataFrame string)))
  : Table * result ctf_output :=
  match aligned with
  | (t', Raise e) => (t', Raise e)
  | (t', Ok (sm, fm)) =>
      (t', match fit_and_label t' sm individual_id_column state_columns
                   n_components max_iterations_als max_iterations_rptm
                   n_initializations fm with
           | Raise e => Raise e
           | Ok (conditions, TF) =>
               assemble n_components conditions TF sm all_sample_metadata
           end)
  end.

(** The two messages with which a table that repeats an identifier is
    rejected. *)
Definition duplicate_error (e : exn) : Prop :=
  e = ValueError "Data-table contains duplicate sample IDs" ∨
  e = ValueError "Data-table contains duplicate feature IDs".

(** The messages that name the identifier set that came out empty. *)
Definition names_empty_id_set (e : exn) : Prop :=
  e = ValueError no_more_features_sample_metadata ∨
  e = ValueError no_more_features_feature_metadata.

(** The optional feature metadata can be matched to the table: its index
    repeats no label and shares a feature with the table. *)
Definition feature_metadata_matches (t : Table)
    (fm : option (DataFrame string)) : Prop :=
  match fm with
  | None => True
  | Some f =>
      NoDup (index f) ∧
      list_to_set (observation_ids t) ∩ list_to_set (index f)
        ≠ (∅ : gset string)
  end.

(** One pass of the loop of lines 124-129, as a function on tables. *)
Definition threshold (ax : axis) (min_sum : Z) (t : Table) : Table :=
  table_filter
    (compress ((λ s, bool_decide (min_sum ≤ s)) <$> table_sum ax t) (ids ax t))
    ax t.

(** Lines 118-120, as a function on tables. *)
Definition restrict_to_metadata (sm : DataFrame string)
    (fm : option (DataFrame string)) (t : Table) : Table :=
  table_filter
    (elements (list_to_set (sample_ids t) ∩ list_to_set (index sm)
               : gset string))
    sample
    match fm with
    | Some f =>
        table_filter
          (elements (list_to_set (observation_ids t) ∩ list_to_set (index f)
                     : gset string))
          observation t
    | None => t
    end.

(** How the feature metadata leaves the matching stage: reindexed to the
    features it shares with the table. *)
Definition feature_metadata_matched (t : Table)
    (fm fm' : option (DataFrame string)) : Prop :=
  match fm, fm' with
  | Some m, Some m' =>
      index m' = elements (list_to_set (observation_ids t)
                           ∩ list_to_set (index m) : gset string) ∧
      list_to_set (observation_ids t) ∩ list_to_set (index m)
        ≠ (∅ : gset string)
  | None, None => True
  | _, _ => False
  end.

(** The table and the metadata are already aligned: same identifiers on both
    sides, every total at or above its threshold. *)
Definition already_aligned (sm : DataFrame string)
    (fm : option (DataFrame string)) (min_sample_count min_feature_count : Z)
    (t : Table) : Prop :=
  list_to_set (sample_ids t) = (list_to_set (index sm) : gset string) ∧
  match fm with
  | Some m =>
      list_to_set (observation_ids t) = (list_to_set (index m) : gset string)
  | None => True
  end ∧
  Forall (λ s, min_sample_count ≤ s) (table_sum sample t) ∧
  Forall (λ s, min_feature_count ≤ s) (table_sum observation t).

(** The axes a factorization is labelled with, in its four outputs: the
    columns of the subject loadings, the principal-coordinate columns of
    the feature loadings, the labels of the proportion explained and of
    the eigenvalues. *)
Definition component_axes (TF : TensorFactorization) : list (list string) :=
  [column_names (subjects TF); keep_PC TF;
   axis_labels (proportion_explained TF); axis_labels (eigvals TF)].

(** The same four lists of axes, in the ordination. *)
Definition ordination_axes (ord : OrdinationResults) : list (list string) :=
  [column_names (ord_samples ord); column_names (ord_features ord);
   axis_labels (ord_proportion_explained ord);
   axis_labels (ord_eigvals ord)].

Definition is_zero (v : value) : Prop := v = VInt 0 ∨ v = VFloat (inject_Z 0).

(** [df'] is [df] with one more, last column, named [label] and all zero. *)
Definition zero_column_appended {I} (label : string) (df df' : DataFrame I)
  : Prop :=
  index df' = index df ∧
  ∃ c, columns df' = columns df ++ [c] ∧ name c = label ∧
       length (values c) = length (index df) ∧ Forall is_zero (values c).

(** [df'] is [df] with one more, last row, labelled [label] and all zero. *)
Definition zero_row_appended (label : string) (df df' : DataFrame string)
  : Prop :=
  index df' = index df ++ [label] ∧
  Forall2 (λ c c', name c' = name c ∧
                   ∃ z, is_zero z ∧ values c' = values c ++ [z])
          (columns df) (columns df').

(** The rule by which an auxiliary column of a raw frame survives: it is not
    of boolean dtype, and it holds the string 'True' exactly when it holds
    the string 'False'. *)
Definition survives_bool_drop (c : Series) : Prop :=
  dtype_of c ≠ dt_bool ∧ (VStr "True" ∈ values c ↔ VStr "False" ∈ values c).

#[global] Instance survives_bool_drop_dec c : Decision (survives_bool_drop c).
Proof. unfold survives_bool_drop. apply _. Defined.

(** A position of the trajectory index that the distance matrix keeps: its
    label is in the metadata, and it is the last position with that label. *)
Definition kept_position (ids sm_index : list string) (i : nat) : Prop :=
  match ids !! i with
  | Some ind => ind ∈ sm_index ∧ ind ∉ drop (S i) ids
  | None => False
  end.

#[global] Instance kept_position_dec ids sm_index i :
  Decision (kept_position ids sm_index i).
Proof. unfold kept_position. destruct (ids !! i); apply _. Defined.

(** The kept positions, in the order of the trajectory index. *)
Definition kept_positions (ids sm_index : list string) : list nat :=
  filter (kept_position ids sm_index) (seq 0 (length ids)).

(** The rows of a frame, each with its label: the first cell of every
    column, then the rows of the rest. *)
Fixpoint frame_rows {I} (idx : list I) (cols : list (list value))
  : list (I * list value) :=
  match idx with
  | [] => []
  | i :: idx =>
      (i, (λ vs, default NaN (head vs)) <$> cols)
        :: frame_rows idx (tail <$> cols)
  end.

Definition rows {I} (df : DataFrame I) : list (I * list value) :=
  frame_rows (index df) (values <$> columns df).

(** A row without a missing value. *)
Definition row_complete {I} (r : I * list value) : Prop :=
  Forall (λ v, v ≠ NaN) r.2.

#[global] Instance row_complete_dec {I} (r : I * list value) :
  Decision (row_complete r).
Proof. unfold row_complete. apply _. Defined.

(** What [drop_duplicates] would have left: no two rows with the same
    values. *)
Definition deduplicated {I} (df : DataFrame I) : Prop :=
  NoDup ((rows df).*2).

(** The cells of a frame at a position, and in the first row carrying a
    label (all missing when no row carries it). *)
Definition row_at {I} (df : DataFrame I) (p : nat) : list value :=
  (λ c, default NaN (values c !! p)) <$> columns df.

Definition labelled_row {I} `{EqDecision I} (df : DataFrame I) (l : I)
  : list value :=
  match get_loc l (index df) with
  | Some p => row_at df p
  | None => (λ _, NaN) <$> columns df
  end.

(** The subject loadings merged by identifier with the auxiliary metadata:
    one row for each identifier of the metadata, taken in sorted order,
    whose loadings are all there, made of the loadings followed by the
    metadata cells; under the index name of qiime2. *)
Definition merged_by_identifier (straj al tr : DataFrame string) : Prop :=
  index_name tr = Some "#SampleID" ∧
  column_names tr = column_names straj ++ column_names al ∧
  rows tr
  = (λ l, (l, labelled_row straj l ++ labelled_row al l))
      <$> filter (λ l, Forall (λ v, v ≠ NaN) (labelled_row straj l))
                 (safe_sort_index (index al)).

(** The lemmas that do not speak of the numeric core or of the validator
    drop them from the context before first-order automation runs. *)
Ltac forget_oracles :=
  try clear parse_biom_table;
  try clear rclr_transformation; try clear phylogenetic_rclr_transformation;
  try clear fit_and_label; try clear Metadata_new.

(** ** The entry point [ctf] (lines 15-46) *)

(** [list(d.values())[0]] *)
Definition first_value {V} (d : list (string * V)) : result V :=
  match d with
  | (_, v) :: _ => Ok v
  | [] => Raise (IndexError "list index out of range")
  end.

Definition ctf (sample_metadata : metadata_arg)
    (individual_id_column state_column : string)
    (n_components min_sample_count min_feature_count : Z)
    (max_iterations_als max_iterations_rptm n_initializations : Z)
    (feature_metadata : option metadata_arg)
  : prog (OrdinationResults * DistanceMatrix
          * DataFrame string * DataFrame string) :=
  out ← ctf_helper sample_metadata individual_id_column [state_column]
          n_components min_sample_count min_feature_count max_iterations_als
          max_iterations_rptm n_initializations feature_metadata;
  let PC_cols := (λ i, "PC" +:+ pretty (Z.of_nat i + 1))
                   <$> seq 0 (Z.to_nat n_components) in
  dists ← lift (first_value (distances out));
  straj ← lift (first_value (subject_trajectories out));
  ftraj ← lift (first_value (feature_trajectories out));
  mret (ordination out, dists, straj, ftraj).

(** The frame behind a metadata argument, before any validation. *)
Definition metadata_frame (m : metadata_arg) : DataFrame string :=
  match m with
  | as_DataFrame df => df
  | as_Metadata md => to_dataframe md
  end.

(** The keys of a dictionary filled in the order of a list of keys: every
    key once, at the place of its first occurrence. *)
Definition insertion_order (keys : list string) : list string :=
  foldl (λ ks k, if decide (k ∈ ks) then ks else ks ++ [k]) [] keys.

(** The count a table holds for a feature and a sample. *)
Definition table_cell (t : Table) (f s : string) : option Z :=
  i ← get_loc f (observation_ids t);
  j ← get_loc s (sample_ids t);
  matrix_data t !! i ≫= (.!! j).

(** [t'] is [t] with samples and features taken out and nothing else
    changed: a table of the right shape, its identifiers those of [t] in the
    order of [t], its counts those of [t]. *)
Definition subtable (t' t : Table) : Prop :=
  table_wf t' ∧
  sample_ids t' `sublist_of` sample_ids t ∧
  observation_ids t' `sublist_of` observation_ids t ∧
  ∀ f s, f ∈ observation_ids t' → s ∈ sample_ids t' →
         table_cell t' f s = table_cell t f s.

(** No count of the table is negative. *)
Definition nonnegative (t : Table) : Prop :=
  Forall (Forall (λ z, 0 ≤ z)) (matrix_data t).

#[global] Instance nonnegative_dec t : Decision (nonnegative t).
Proof. unfold nonnegative. apply _. Defined.

(** What scikit-bio asks of the data of a distance matrix over [n]
    identifiers. *)
Definition valid_distances (n : nat) (m : list (list Q)) : Prop :=
  length m = n ∧ is_square m = true ∧ is_hollow m = true ∧
  is_symmetric m = true.

#[global] Instance valid_distances_dec n m : Decision (valid_distances n m).
Proof. unfold valid_distances. apply _. Defined.

(** A file system after a command has written [written] below [d]: the
    directory is there with those above it, the written paths hold the new
    files, every other path is as before. *)
Definition wrote (d : string) (written : list (string * file))
    (fs fs' : filesystem) : Prop :=
  dirs fs' = list_to_set (ancestors d ++ [d]) ∪ dirs fs ∧
  (∀ p f, (p, f) ∈ written → files fs' !! path_join d p = Some f) ∧
  (∀ q, (∀ p, p ∈ written.*1 → q ≠ path_join d p) →
        files fs' !! q = files fs !! q).

(** A symmetric, hollow table of distances between four samples, and the
    trajectory that goes with it. *)
Definition four_distances : list (list Q) :=
  [[0; 1; 2; 3]; [1; 0; 4; 5]; [2; 4; 0; 6]; [3; 5; 6; 0]]%Q.

Definition four_trajectory : DataFrame string :=
  {| index_name := None; index := ["s4"; "s2"; "s3"; "s1"];
     columns := [float_column "PC1" [1 # 2; -1 # 2; 1 # 3; -1 # 3]] |}.

(** A transformation that turns every count into a value. *)
Definition values_of_counts (t : Table) : result ValueTable :=
  Ok {| vt_observation_ids := observation_ids t;
        vt_sample_ids := sample_ids t;
        vt_data := (λ r : list Z, inject_Z <$> r) <$> matrix_data t |}.

(** A table with one empty sample and one rare feature. *)
Definition sparse_table : Table :=
  {| observation_ids := ["f1"; "f2"; "f3"];
     sample_ids := ["s1"; "s2"; "s3"];
     matrix_data := [[3; 0; 4]; [0; 0; 1]; [5; 0; 6]] |}.

(** A numeric core that fails. *)
Definition fit_raises (e : exn)
  : Table → DataFrame string → string → list string → Z → Z → Z → Z →
    option (DataFrame string) → result (list string * TensorFactorization) :=
  λ _ _ _ _ _ _ _ _ _, Raise e.

(** The example factorization labelled with a taxonomy one of whose columns
    has PC in its name. *)
Definition taxonomy_TF : TensorFactorization :=
  {| subjects := subjects example_TF;
     features :=
       {| index_name := None; index := [LStr "f1"; LStr "f2"];
          columns := [float_column "PC1" [2 # 3; 1 # 3];
                      float_column "PC2" [-1 # 5; 1 # 5];
                      str_column "PCR_primer" ["515F"; "806R"]] |};
     proportion_explained := proportion_explained example_TF;
     eigvals := eigvals example_TF;
     subject_distances := subject_distances example_TF;
     subject_trajectory := subject_trajectory example_TF;
     feature_trajectory := feature_trajectory example_TF |}.

(** Feature metadata about features the example table does not have. *)
Definition foreign_taxonomy : DataFrame string :=
  {| index_name := None; index := ["g1"; "g2"];
     columns := [str_column "taxon" ["Bacteroides"; "Prevotella"]] |}.

(** * Properties *)

(** ** Masks, sets of identifiers *)

Lemma compress_fmap_filter {A} (P : A → Prop) `{∀ x, Decision (P x)}
    (l : list A) :
  compress ((λ x, bool_decide (P x)) <$> l) l = filter P l.
Proof.
  induction l as [|x l IH]; [done|].
  cbn [fmap list_fmap compress]. rewrite filter_cons.
  destruct (decide (P x)) as [HP|HP].
  - rewrite bool_decide_eq_true_2 by done. by f_equal.
  - by rewrite bool_decide_eq_false_2.
Qed.

Lemma size_list_to_set_le (l : list string) :
  (size (list_to_set l : gset string) ≤ length l)%nat.
Proof.
  induction l as [|x l IH]; [done|].
  cbn [list_to_set foldr length].
  destruct (decide (x ∈ (list_to_set l : gset string))) as [Hin|Hin].
  - rewrite (subseteq_union_1_L {[x]} (list_to_set l))
      by (by apply singleton_subseteq_l).
    lia.
  - rewrite size_union by set_solver. rewrite size_singleton. lia.
Qed.

Lemma length_size_NoDup (l : list string) :
  length l = size (list_to_set l : gset string) ↔ NoDup l.
Proof.
  split; [|intros; symmetry; by apply size_list_to_set].
  induction l as [|x l IH]; [constructor|].
  cbn [list_to_set foldr length]. intros Hlen.
  destruct (decide (x ∈ (list_to_set l : gset string))) as [Hin|Hin].
  - rewrite (subseteq_union_1_L {[x]} (list_to_set l)) in Hlen
      by (by apply singleton_subseteq_l).
    pose proof (size_list_to_set_le l). lia.
  - rewrite size_union, size_singleton in Hlen by set_solver.
    constructor; [set_solver|]. apply IH. lia.
Qed.

(** ** The driver as a cascade of its stages *)

Lemma ctf_helper_stages sample_metadata individual_id_column state_columns
    n_components min_sample_count min_feature_count max_iterations_als
    max_iterations_rptm n_initializations feature_metadata t :
  ctf_helper sample_metadata individual_id_column state_columns n_components
    min_sample_count min_feature_count max_iterations_als max_iterations_rptm
    n_initializations feature_metadata t =
  match split_sample_metadata sample_metadata individual_id_column
          state_columns with
  | Raise e => (t, Raise e)
  | Ok (sm, all_sample_metadata) =>
      match load_feature_metadata feature_metadata with
      | Raise e => (t, Raise e)
      | Ok fm =>
          after_alignment individual_id_column state_columns n_components
            max_iterations_als max_iterations_rptm n_initializations
            all_sample_metadata
            (align_and_filter sm fm min_sample_count min_feature_count t)
      end
  end.
Proof.
  unfold ctf_helper, after_alignment, mbind, stateful_bind, lift, read_table.
  destruct (split_sample_metadata _ _ _) as [[sm al]|e]; [|done].
  destruct (load_feature_metadata _) as [fm|e]; [|done].
  destruct (align_and_filter _ _ _ _ _) as [t' [[sm' fm']|e]]; [|done].
  cbn. destruct (fit_and_label _ _ _ _ _ _ _ _ _) as [[c TF]|e]; done.
Qed.

Lemma match_ids_duplicate_samples sm fm t :
  ¬ NoDup (sample_ids t) →
  match_ids sm fm t
  = (t, Raise (ValueError "Data-table contains duplicate sample IDs")).
Proof.
  intros Hdup. unfold match_ids, mbind, stateful_bind, read_table, raise.
  cbn. rewrite bool_decide_eq_true_2; [done|].
  by rewrite length_size_NoDup.
Qed.

Lemma match_ids_duplicate_features sm fm t :
  NoDup (sample_ids t) → ¬ NoDup (observation_ids t) →
  match_ids sm fm t
  = (t, Raise (ValueError "Data-table contains duplicate feature IDs")).
Proof.
  intros Hs Hdup. unfold match_ids, mbind, stateful_bind, read_table, raise.
  cbn. rewrite bool_decide_eq_false_2 by (by rewrite length_size_NoDup; auto).
  rewrite bool_decide_eq_true_2; [done|].
  by rewrite length_size_NoDup.
Qed.

(** ** Duplicate identifiers (lines 95-100) *)

Lemma match_ids_no_duplicate_error sm fm t :
  NoDup (sample_ids t) → NoDup (observation_ids t) →
  ∀ e, (match_ids sm fm t).2 = Raise e → ¬ duplicate_error e.
Proof.
  intros Hs Hf e. unfold match_ids, mbind, stateful_bind, read_table, raise.
  cbn.
  rewrite bool_decide_eq_false_2 by (by rewrite length_size_NoDup; auto).
  rewrite bool_decide_eq_false_2 by (by rewrite length_size_NoDup; auto).
  unfold match_feature_ids, filter_matched_features, filter_inplace, reindex,
    lift, raise, mbind, stateful_bind, mret, stateful_ret.
  intros He [-> | ->];
    repeat (first [ discriminate He
                  | destruct fm as [fm|]
                  | case_bool_decide
                  | case_decide ]; cbn in He).
Qed.

Lemma align_and_filter_raise sm fm a b t t' e :
  match_ids sm fm t = (t', Raise e) →
  align_and_filter sm fm a b t = (t', Raise e).
Proof.
  intros H. unfold align_and_filter, mbind, stateful_bind. by rewrite H.
Qed.

Lemma ctf_helper_alignment_raise sample_metadata individual_id_column
    state_columns n_components min_sample_count min_feature_count
    max_iterations_als max_iterations_rptm n_initializations
    feature_metadata t :
  (∀ sm fm, ∃ e, match_ids sm fm t = (t, Raise e)) →
  ∃ e, ctf_helper sample_metadata individual_id_column state_columns
         n_components min_sample_count min_feature_count max_iterations_als
         max_iterations_rptm n_initializations feature_metadata t
       = (t, Raise e).
Proof.
  intros H. rewrite ctf_helper_stages.
  destruct (split_sample_metadata _ _ _) as [[sm al]|e]; [|by eexists].
  destruct (load_feature_metadata _) as [fm|e]; [|by eexists].
  destruct (H sm fm) as [e He].
  rewrite (align_and_filter_raise _ _ _ _ _ _ _ He). by eexists.
Qed.

Lemma match_ids_duplicates sm fm t :
  ¬ (NoDup (sample_ids t) ∧ NoDup (observation_ids t)) →
  ∃ e, match_ids sm fm t = (t, Raise e) ∧ duplicate_error e.
Proof.
  intros Hdup. destruct (decide (NoDup (sample_ids t))) as [Hs|Hs].
  - eexists.
    split; [apply match_ids_duplicate_features; [done|]; by intros Hf; apply Hdup|].
    by right.
  - eexists. split; [by apply match_ids_duplicate_samples|]. by left.
Qed.

(** C3. A table that repeats a sample identifier or a feature identifier is
    rejected by [ctf_helper] with the caller's table untouched, that is
    before anything is aligned or filtered, and the error of the matching
    stage is one of the two duplicate-identifier errors; a table whose
    sample and feature identifiers are all distinct never meets either of
    these errors. *)
Theorem duplicate_identifiers_rejected sample_metadata individual_id_column
    state_columns n_components min_sample_count min_feature_count
    max_iterations_als max_iterations_rptm n_initializations
    feature_metadata (t : Table) :
  (¬ (NoDup (sample_ids t) ∧ NoDup (observation_ids t)) →
     (∀ sm fm, ∃ e, match_ids sm fm t = (t, Raise e) ∧ duplicate_error e) ∧
     ∃ e, ctf_helper sample_metadata individual_id_column state_columns
            n_components min_sample_count min_feature_count
            max_iterations_als max_iterations_rptm n_initializations
            feature_metadata t
          = (t, Raise e))
  ∧ (NoDup (sample_ids t) ∧ NoDup (observation_ids t) →
     ∀ sm fm e, (match_ids sm fm t).2 = Raise e → ¬ duplicate_error e).
Proof.
  split.
  - intros Hdup. split; [intros; by apply match_ids_duplicates|].
    apply ctf_helper_alignment_raise. intros sm fm.
    destruct (match_ids_duplicates sm fm t Hdup) as (e & He & _). eauto.
  - intros [Hs Hf] sm fm. by apply match_ids_no_duplicate_error.
Qed.

(** ** An empty intersection of sample identifiers (lines 113-117) *)

Lemma match_ids_empty_intersection sm fm t :
  list_to_set (sample_ids t) ∩ list_to_set (index sm) = (∅ : gset string) →
  ∃ msg, match_ids sm fm t = (t, Raise (ValueError msg)) ∧
    (NoDup (sample_ids t) → NoDup (observation_ids t) →
     feature_metadata_matches t fm →
     msg = no_more_features_sample_metadata).
Proof.
  intros Hempty.
  destruct (decide (NoDup (sample_ids t))) as [Hs|Hs];
    [|eexists; split; [by apply match_ids_duplicate_samples|done]].
  destruct (decide (NoDup (observation_ids t))) as [Hf|Hf];
    [|eexists; split; [by apply match_ids_duplicate_features|done]].
  unfold match_ids, mbind, stateful_bind, read_table, raise. cbn.
  rewrite bool_decide_eq_false_2 by (by rewrite length_size_NoDup; auto).
  rewrite bool_decide_eq_false_2 by (by rewrite length_size_NoDup; auto).
  rewrite Hempty, size_empty. cbn.
  destruct fm as [f|]; cbn; [|by eexists].
  unfold mbind, stateful_bind, lift, raise, reindex.
  case_bool_decide as Hfidx.
  - eexists. split; [done|]. intros _ _ [_ Hne].
    apply size_empty_iff in Hfidx. by apply leibniz_equiv in Hfidx.
  - case_decide as Hdup; cbn.
    + by eexists.
    + eexists. split; [done|]. by intros _ _ [? _].
Qed.

(** C2 (amended). When the sample identifiers of the table and the index of
    the validated sample metadata have nothing in common, [ctf_helper]
    raises a [ValueError] with the caller's table untouched, whatever the
    numeric core would compute: nothing is filtered, built or factorized.
    The message is the one naming [sample-metadata] and [table] whenever the
    table repeats no identifier and the feature metadata, if any, can be
    matched; an earlier check that fails reports its own message. *)
Theorem empty_sample_intersection_raises sample_metadata individual_id_column
    state_columns n_components min_sample_count min_feature_count
    max_iterations_als max_iterations_rptm n_initializations
    feature_metadata (t : Table) sm all_sample_metadata fm :
  split_sample_metadata sample_metadata individual_id_column state_columns
    = Ok (sm, all_sample_metadata) →
  load_feature_metadata feature_metadata = Ok fm →
  list_to_set (sample_ids t) ∩ list_to_set (index sm) = (∅ : gset string) →
  ∃ msg,
    ctf_helper sample_metadata individual_id_column state_columns
      n_components min_sample_count min_feature_count max_iterations_als
      max_iterations_rptm n_initializations feature_metadata t
    = (t, Raise (ValueError msg)) ∧
    (NoDup (sample_ids t) → NoDup (observation_ids t) →
     feature_metadata_matches t fm →
     msg = no_more_features_sample_metadata).
Proof.
  intros Hsplit Hload Hempty.
  destruct (match_ids_empty_intersection sm fm t Hempty) as (msg & Hm & Hmsg).
  exists msg. split; [|done].
  rewrite ctf_helper_stages, Hsplit, Hload.
  by rewrite (align_and_filter_raise _ _ _ _ _ _ _ Hm).
Qed.

(** ** Filtering a table *)

Lemma compress_elem_of {A} (mask : list bool) (l : list A) x :
  x ∈ compress mask l → x ∈ l.
Proof.
  revert mask. induction l as [|y l IH]; intros [|b mask]; cbn; try done.
  - by intros ?%elem_of_nil.
  - destruct b.
    + intros [->|?]%elem_of_cons; [by left|right; eauto].
    + intros ?. right. eauto.
Qed.

Lemma compress_length_eq {A B} (mask : list bool) (l1 : list A) (l2 : list B) :
  length l1 = length l2 →
  length (compress mask l1) = length (compress mask l2).
Proof.
  revert l1 l2. induction mask as [|b mask IH]; intros [|x l1] [|y l2];
    cbn; try done.
  intros [= Hlen]. destruct b; cbn; auto.
Qed.

Lemma compress_fmap {A B} (f : A → B) (mask : list bool) (l : list A) :
  f <$> compress mask l = compress mask (f <$> l).
Proof.
  revert l. induction mask as [|b mask IH]; intros [|x l]; cbn; try done.
  destruct b; cbn; by rewrite IH.
Qed.

Lemma compress_Forall {A} (P : A → Prop) (mask : list bool) (l : list A) :
  Forall P l → Forall P (compress mask l).
Proof.
  rewrite !Forall_forall. intros H x Hx. apply H. by eapply compress_elem_of.
Qed.

Lemma compress_NoDup {A} (mask : list bool) (l : list A) :
  NoDup l → NoDup (compress mask l).
Proof.
  revert mask. induction l as [|x l IH]; intros [|b mask]; cbn;
    try done; try constructor.
  intros [Hx Hl]%NoDup_cons. destruct b; [|by apply IH].
  constructor; [|by apply IH]. by intros ?%compress_elem_of.
Qed.

Lemma compress_all {A} (mask : list bool) (l : list A) :
  length mask = length l → Forall (λ b, b = true) mask →
  compress mask l = l.
Proof.
  revert l. induction mask as [|b mask IH]; intros [|x l]; cbn; try done.
  intros [= Hlen] [-> Hall]%Forall_cons. f_equal. by apply IH.
Qed.

(** Selecting by a mask and filtering by the identifiers the mask selects
    agree on a list without repetition. *)
Lemma mask_of_compress (mask : list bool) (l : list string) :
  NoDup l → length mask = length l →
  (λ i, bool_decide (i ∈ compress mask l)) <$> l = mask.
Proof.
  revert mask. induction l as [|x l IH]; intros [|b mask]; cbn; try done.
  intros [Hx Hl]%NoDup_cons [= Hlen]. f_equal.
  - destruct b.
    + apply bool_decide_eq_true_2. by left.
    + apply bool_decide_eq_false_2. by intros ?%compress_elem_of.
  - etrans; [|apply (IH mask Hl Hlen)]. apply list_fmap_ext.
    intros i y Hy. apply bool_decide_ext.
    destruct b; [|done]. rewrite elem_of_cons.
    split; [|by right]. intros [->|?]; [|done].
    destruct Hx. by eapply list_elem_of_lookup_2.
Qed.

Lemma table_compress_wf mask ax t :
  table_wf t → table_wf (table_compress mask ax t).
Proof.
  intros [Hrows Hcols]. destruct ax; split; cbn.
  - by rewrite length_fmap.
  - rewrite Forall_fmap. eapply Forall_impl; [done|]. cbn.
    intros r Hr. by apply compress_length_eq.
  - by apply compress_length_eq.
  - by apply compress_Forall.
Qed.

Lemma table_filter_wf keep ax t : table_wf t → table_wf (table_filter keep ax t).
Proof. apply table_compress_wf. Qed.

Lemma table_filter_ids keep ax t :
  ids ax (table_filter keep ax t) = filter (λ i, i ∈ keep) (ids ax t).
Proof. destruct ax; cbn; apply compress_fmap_filter. Qed.

Lemma table_compress_all mask ax t :
  table_wf t → length mask = length (ids ax t) →
  Forall (λ b, b = true) mask → table_compress mask ax t = t.
Proof.
  intros [Hrows Hcols] Hlen Hall. destruct t as [os ss rows].
  destruct ax; cbn in *; f_equal.
  - by apply compress_all.
  - rewrite <- (list_fmap_id rows) at 2. apply Forall_fmap_ext.
    eapply Forall_impl; [done|]. cbn. intros r Hr.
    apply compress_all; [congruence|done].
  - by apply compress_all.
  - apply compress_all; [congruence|done].
Qed.

Lemma table_filter_all keep ax t :
  table_wf t → (∀ i, i ∈ ids ax t → i ∈ keep) → table_filter keep ax t = t.
Proof.
  intros Hwf Hkeep. apply table_compress_all; [done|by rewrite length_fmap|].
  rewrite Forall_fmap, Forall_forall. intros i Hi. cbn.
  by apply bool_decide_eq_true_2, Hkeep.
Qed.

(** *** Totals along an axis *)

Lemma compress_zip_with {A B C} (f : A → B → C) mask (l1 : list A)
    (l2 : list B) :
  compress mask (zip_with f l1 l2)
  = zip_with f (compress mask l1) (compress mask l2).
Proof.
  revert l1 l2. induction mask as [|b mask IH]; intros [|x l1] [|y l2];
    cbn; try done.
  - by destruct (if b then _ else _).
  - destruct b; cbn; by rewrite IH.
Qed.

Lemma compress_replicate {A B} mask (l : list A) (x : B) :
  compress mask (replicate (length l) x)
  = replicate (length (compress mask l)) x.
Proof.
  revert l. induction mask as [|b mask IH]; intros [|y l]; cbn; try done.
  destruct b; cbn; by rewrite IH.
Qed.

Lemma table_sum_length ax t :
  table_wf t → length (table_sum ax t) = length (ids ax t).
Proof.
  intros [Hrows Hcols]. destruct ax; cbn; [|by rewrite length_fmap].
  clear Hrows. induction Hcols as [|r rows Hr _ IH]; cbn.
  - by rewrite length_replicate.
  - rewrite length_zip_with, IH, Hr. apply Nat.min_id.
Qed.

Lemma table_sum_compress mask ax t :
  table_sum ax (table_compress mask ax t) = compress mask (table_sum ax t).
Proof.
  destruct ax; cbn; [|by rewrite compress_fmap].
  rewrite <- compress_replicate.
  induction (matrix_data t) as [|r rows IH]; cbn; [done|].
  by rewrite IH, compress_zip_with.
Qed.

(** *** One pass of the minimum-count loop *)

Lemma threshold_mask ax min_sum t :
  table_wf t → NoDup (ids ax t) →
  threshold ax min_sum t
  = table_compress ((λ s, bool_decide (min_sum ≤ s)) <$> table_sum ax t) ax t.
Proof.
  intros Hwf Hnd. unfold threshold, table_filter. f_equal.
  apply mask_of_compress; [done|].
  by rewrite length_fmap, table_sum_length.
Qed.

Lemma threshold_totals ax min_sum t :
  table_wf t → NoDup (ids ax t) →
  Forall (λ s, min_sum ≤ s) (table_sum ax (threshold ax min_sum t)).
Proof.
  intros Hwf Hnd. rewrite threshold_mask, table_sum_compress by done.
  rewrite (compress_fmap_filter (λ s, min_sum ≤ s)).
  apply Forall_forall. by intros s [? _]%list_elem_of_filter.
Qed.

Lemma threshold_all ax min_sum t :
  table_wf t → NoDup (ids ax t) →
  Forall (λ s, min_sum ≤ s) (table_sum ax t) → threshold ax min_sum t = t.
Proof.
  intros Hwf Hnd Hall. rewrite threshold_mask by done.
  apply table_compress_all; [done|by rewrite length_fmap, table_sum_length|].
  rewrite Forall_fmap. eapply Forall_impl; [done|]. cbn.
  intros s Hs. by apply bool_decide_eq_true_2.
Qed.

(** ** The alignment stage (lines 94-129) *)

Lemma filter_min_counts_run a b t :
  filter_min_counts (zip [sample; observation] [a; b]) t
  = (threshold observation b (threshold sample a t), Ok ()).
Proof. done. Qed.

Lemma match_ids_Ok sm fm t t' sm' fm' :
  match_ids sm fm t = (t', Ok (sm', fm')) →
  t' = restrict_to_metadata sm fm t ∧
  NoDup (sample_ids t) ∧ NoDup (observation_ids t) ∧
  index sm' = elements (list_to_set (sample_ids t) ∩ list_to_set (index sm)
                        : gset string) ∧
  list_to_set (sample_ids t) ∩ list_to_set (index sm) ≠ (∅ : gset string).
Proof.
  unfold match_ids, mbind, stateful_bind, read_table, raise. cbn.
  case_bool_decide as Hs; [done|]. case_bool_decide as Hf; [done|].
  rewrite length_size_NoDup in Hs, Hf.
  unfold restrict_to_metadata, match_feature_ids, filter_matched_features,
    filter_inplace, lift, raise, mbind, stateful_bind, mret, stateful_ret.
  destruct fm as [f|].
  - case_bool_decide as Hfidx; [done|].
    unfold reindex at 1. case_decide; [cbn|done].
    case_bool_decide as Hsidx; [done|]. cbn.
    unfold reindex. case_decide; [|done]. intros [= <- <- <-]. cbn.
    repeat split; try done.
    intros Heq. apply Hsidx. by rewrite Heq, size_empty.
  - case_bool_decide as Hsidx; [done|]. cbn.
    unfold reindex. case_decide; [|done]. intros [= <- <- <-]. cbn.
    repeat split; try done.
    intros Heq. apply Hsidx. by rewrite Heq, size_empty.
Qed.

Lemma align_and_filter_Ok sm fm a b t t' sm' fm' :
  align_and_filter sm fm a b t = (t', Ok (sm', fm')) →
  t' = threshold observation b
         (threshold sample a (restrict_to_metadata sm fm t)) ∧
  match_ids sm fm t = (restrict_to_metadata sm fm t, Ok (sm', fm')).
Proof.
  unfold align_and_filter, mbind, stateful_bind.
  destruct (match_ids sm fm t) as [t1 [[sm1 fm1]|e]] eqn:Hm; [|done].
  rewrite filter_min_counts_run. cbn. intros [= <- <- <-].
  apply match_ids_Ok in Hm as Hm'. destruct Hm' as (-> & _). done.
Qed.

Lemma filter_ext_in {A} (P Q : A → Prop) `{∀ x, Decision (P x)}
    `{∀ x, Decision (Q x)} (l : list A) :
  (∀ x, x ∈ l → P x ↔ Q x) → filter P l = filter Q l.
Proof.
  induction l as [|x l IH]; intros HPQ; [done|].
  rewrite !filter_cons.
  rewrite IH by (intros y Hy; apply HPQ; by right).
  destruct (decide (P x)) as [HP|HP], (decide (Q x)) as [HQ|HQ]; try done;
    destruct (HPQ x); try (by left); forget_oracles; tauto.
Qed.

Lemma restrict_to_metadata_ids sm fm t :
  sample_ids (restrict_to_metadata sm fm t)
  = filter (λ s, s ∈ index sm) (sample_ids t) ∧
  observation_ids (restrict_to_metadata sm fm t)
  = match fm with
    | Some m => filter (λ f, f ∈ index m) (observation_ids t)
    | None => observation_ids t
    end.
Proof.
  unfold restrict_to_metadata. split.
  - rewrite (table_filter_ids _ sample).
    assert (ids sample match fm with
                       | Some f => table_filter _ observation t
                       | None => t
                       end = sample_ids t) as -> by by destruct fm.
    apply filter_ext_in. intros s Hs.
    rewrite elem_of_elements, elem_of_intersection, !elem_of_list_to_set.
    forget_oracles. tauto.
  - change (observation_ids (table_filter ?k sample ?x))
      with (observation_ids x).
    destruct fm as [m|]; [|done].
    rewrite (table_filter_ids _ observation).
    apply filter_ext_in. intros s Hs.
    rewrite elem_of_elements, elem_of_intersection, !elem_of_list_to_set.
    cbn. forget_oracles. tauto.
Qed.

Lemma restrict_to_metadata_wf sm fm t :
  table_wf t → table_wf (restrict_to_metadata sm fm t).
Proof.
  intros Hwf. apply table_filter_wf. destruct fm; [|done].
  by apply table_filter_wf.
Qed.

Lemma threshold_wf ax m t : table_wf t → table_wf (threshold ax m t).
Proof. apply table_filter_wf. Qed.

Lemma threshold_ids_sub ax m t i :
  i ∈ ids ax (threshold ax m t) → i ∈ ids ax t.
Proof.
  unfold threshold. rewrite table_filter_ids.
  by intros [_ ?]%list_elem_of_filter.
Qed.

Lemma threshold_other_ids m t :
  observation_ids (threshold sample m t) = observation_ids t ∧
  sample_ids (threshold observation m t) = sample_ids t.
Proof. done. Qed.

Lemma threshold_NoDup ax ax' m t :
  NoDup (ids ax t) → NoDup (ids ax (threshold ax' m t)).
Proof.
  intros Hnd. destruct ax, ax'; cbn; try done; by apply compress_NoDup.
Qed.

Lemma ctf_helper_Ok_inv sample_metadata individual_id_column state_columns
    n_components min_sample_count min_feature_count max_iterations_als
    max_iterations_rptm n_initializations feature_metadata t t' out :
  ctf_helper sample_metadata individual_id_column state_columns n_components
    min_sample_count min_feature_count max_iterations_als max_iterations_rptm
    n_initializations feature_metadata t = (t', Ok out) →
  ∃ sm all_sample_metadata fm sm' fm' conditions TF,
    split_sample_metadata sample_metadata individual_id_column state_columns
      = Ok (sm, all_sample_metadata) ∧
    load_feature_metadata feature_metadata = Ok fm ∧
    align_and_filter sm fm min_sample_count min_feature_count t
      = (t', Ok (sm', fm')) ∧
    fit_and_label t' sm' individual_id_column state_columns n_components
      max_iterations_als max_iterations_rptm n_initializations fm'
      = Ok (conditions, TF) ∧
    assemble n_components conditions TF sm' all_sample_metadata = Ok out.
Proof.
  rewrite ctf_helper_stages.
  destruct (split_sample_metadata _ _ _) as [[sm al]|e] eqn:Hsplit; [|done].
  destruct (load_feature_metadata _) as [fm|e] eqn:Hload; [|done].
  unfold after_alignment.
  destruct (align_and_filter _ _ _ _ _) as [t1 [[sm' fm']|e]] eqn:Ha;
    [|done].
  destruct (fit_and_label _ _ _ _ _ _ _ _ _) as [[c TF]|e] eqn:Hfit; [|done].
  intros [= <- Hout]. by exists sm, al, fm, sm', fm', c, TF.
Qed.

(** C9. A successful call of [ctf_helper] leaves the caller's table object
    in the filtered state: restricted to the feature identifiers of the
    feature metadata (when supplied) and to the sample identifiers of the
    sample metadata, then cut down to the samples whose total reaches
    [min_sample_count], then to the features whose total reaches
    [min_feature_count]; the state the table had before the call is not
    what the caller holds afterwards. *)
Theorem table_filtered_in_place sample_metadata individual_id_column
    state_columns n_components min_sample_count min_feature_count
    max_iterations_als max_iterations_rptm n_initializations
    feature_metadata (t t' : Table) out :
  table_wf t →
  ctf_helper sample_metadata individual_id_column state_columns n_components
    min_sample_count min_feature_count max_iterations_als max_iterations_rptm
    n_initializations feature_metadata t = (t', Ok out) →
  ∃ sm all_sample_metadata fm,
    split_sample_metadata sample_metadata individual_id_column state_columns
      = Ok (sm, all_sample_metadata) ∧
    load_feature_metadata feature_metadata = Ok fm ∧
    let aligned := restrict_to_metadata sm fm t in
    let kept := threshold sample min_sample_count aligned in
    t' = threshold observation min_feature_count kept ∧
    sample_ids aligned = filter (λ s, s ∈ index sm) (sample_ids t) ∧
    observation_ids aligned
    = match fm with
      | Some m => filter (λ f, f ∈ index m) (observation_ids t)
      | None => observation_ids t
      end ∧
    sample_ids t' = sample_ids kept ∧
    (∀ s, s ∈ sample_ids t' → s ∈ sample_ids aligned) ∧
    (∀ f, f ∈ observation_ids t' → f ∈ observation_ids aligned) ∧
    Forall (λ s, min_sample_count ≤ s) (table_sum sample kept) ∧
    Forall (λ s, min_feature_count ≤ s) (table_sum observation t').
Proof.
  intros Hwf Hrun.
  apply ctf_helper_Ok_inv in Hrun
    as (sm & al & fm & sm' & fm' & c & TF & Hsplit & Hload & Ha & _ & _).
  exists sm, al, fm. do 2 (split; [done|]).
  apply align_and_filter_Ok in Ha as [-> Hm].
  apply match_ids_Ok in Hm as (_ & Hs & Hf & _).
  pose proof (restrict_to_metadata_ids sm fm t) as [Hsid Hoid].
  pose proof (restrict_to_metadata_wf sm fm t Hwf) as Hwf1.
  assert (NoDup (sample_ids (restrict_to_metadata sm fm t))) as Hs1.
  { rewrite Hsid. by apply NoDup_filter. }
  assert (NoDup (observation_ids (restrict_to_metadata sm fm t))) as Hf1.
  { rewrite Hoid. destruct fm; [by apply NoDup_filter|done]. }
  cbn zeta. repeat split; try done.
  - intros s Hs'. by apply (threshold_ids_sub sample) in Hs'.
  - intros f Hf'. by apply (threshold_ids_sub observation) in Hf'.
  - by apply threshold_totals.
  - apply threshold_totals; [by apply threshold_wf|].
    by apply (threshold_NoDup observation sample).
Qed.

(** ** Idempotence of the alignment stage *)

Lemma match_ids_feature_metadata sm fm t t' sm' fm' :
  match_ids sm fm t = (t', Ok (sm', fm')) → feature_metadata_matched t fm fm'.
Proof.
  unfold match_ids, mbind, stateful_bind, read_table, raise. cbn.
  case_bool_decide as Hs; [done|]. case_bool_decide as Hf; [done|].
  unfold match_feature_ids, filter_matched_features,
    filter_inplace, lift, raise, mbind, stateful_bind, mret, stateful_ret.
  destruct fm as [f|].
  - case_bool_decide as Hfidx; [done|].
    unfold reindex at 1. case_decide; [cbn|done].
    case_bool_decide as Hsidx; [done|]. cbn.
    unfold reindex. case_decide; [|done]. intros [= <- <- <-]. cbn.
    split; [done|]. intros Heq. apply Hfidx. by rewrite Heq, size_empty.
  - case_bool_decide as Hsidx; [done|]. cbn.
    unfold reindex. case_decide; [|done]. by intros [= <- <- <-].
Qed.

Lemma match_ids_run sm fm t :
  NoDup (sample_ids t) → NoDup (observation_ids t) → NoDup (index sm) →
  list_to_set (sample_ids t) ∩ list_to_set (index sm) ≠ (∅ : gset string) →
  feature_metadata_matches t fm →
  ∃ sm' fm', match_ids sm fm t = (restrict_to_metadata sm fm t, Ok (sm', fm')).
Proof.
  intros Hs Hf Hsm Hne Hfm.
  unfold match_ids, mbind, stateful_bind, read_table, raise. cbn.
  rewrite bool_decide_eq_false_2 by (by rewrite length_size_NoDup; auto).
  rewrite bool_decide_eq_false_2 by (by rewrite length_size_NoDup; auto).
  unfold restrict_to_metadata, match_feature_ids, filter_matched_features,
    filter_inplace, lift, raise, mbind, stateful_bind, mret, stateful_ret.
  assert (size (list_to_set (sample_ids t) ∩ list_to_set (index sm)
                : gset string) ≠ 0%nat) as Hsize.
  { intros H0. apply Hne. apply leibniz_equiv. by apply size_empty_iff. }
  destruct fm as [f|].
  - destruct Hfm as [Hnd Hfne].
    rewrite bool_decide_eq_false_2.
    2:{ intros H0. apply Hfne. apply leibniz_equiv. by apply size_empty_iff. }
    unfold reindex at 1. rewrite decide_True by done. cbn.
    rewrite bool_decide_eq_false_2 by done. cbn.
    unfold reindex. rewrite decide_True by done. by eexists _, _.
  - rewrite bool_decide_eq_false_2 by done. cbn.
    unfold reindex. rewrite decide_True by done. by eexists _, _.
Qed.

Lemma restrict_to_metadata_aligned sm fm a b t :
  table_wf t → already_aligned sm fm a b t → restrict_to_metadata sm fm t = t.
Proof.
  intros Hwf (Hs & Hf & _). unfold restrict_to_metadata.
  assert (match fm with
          | Some f => table_filter
              (elements (list_to_set (observation_ids t)
                         ∩ list_to_set (index f) : gset string))
              observation t
          | None => t
          end = t) as ->.
  { destruct fm as [m|]; [|done]. apply table_filter_all; [done|].
    intros i Hi. rewrite elem_of_elements, <- Hf, elem_of_intersection.
    by rewrite elem_of_list_to_set. }
  apply table_filter_all; [done|].
  intros i Hi. rewrite elem_of_elements, <- Hs, elem_of_intersection.
  by rewrite elem_of_list_to_set.
Qed.

Lemma list_to_set_elements (X : gset string) :
  list_to_set (elements X) = X.
Proof. apply set_eq. intros x. by rewrite elem_of_list_to_set, elem_of_elements. Qed.

Lemma align_and_filter_run sm fm a b t t1 r :
  match_ids sm fm t = (t1, Ok r) →
  align_and_filter sm fm a b t
  = (threshold observation b (threshold sample a t1), Ok r).
Proof.
  intros Hm. unfold align_and_filter, mbind, stateful_bind. rewrite Hm.
  by rewrite filter_min_counts_run.
Qed.

Lemma thresholds_aligned sm fm a b t :
  table_wf t → NoDup (sample_ids t) → NoDup (observation_ids t) →
  already_aligned sm fm a b t →
  threshold observation b (threshold sample a t) = t.
Proof.
  intros Hwf Hs Hf (_ & _ & Ha & Hb).
  rewrite (threshold_all sample) by done. by apply threshold_all.
Qed.

(** Aligned input with something in it passes the alignment stage, and
    comes out as it went in. *)
Lemma aligned_input_passes sm fm a b t :
  table_wf t → already_aligned sm fm a b t →
  NoDup (sample_ids t) → NoDup (observation_ids t) → NoDup (index sm) →
  sample_ids t ≠ [] →
  match fm with
  | Some m => NoDup (index m) ∧ observation_ids t ≠ []
  | None => True
  end →
  ∃ sm' fm', align_and_filter sm fm a b t = (t, Ok (sm', fm')).
Proof.
  intros Hwf Hal Hs Hf Hsm Hne Hfm.
  destruct (match_ids_run sm fm t) as (sm' & fm' & Hm); try done.
  - destruct Hal as (<- & _). rewrite intersection_idemp_L.
    destruct (sample_ids t) as [|s l]; [done|]. cbn.
    intros H0. eapply (not_elem_of_empty (C:=gset string) s).
    rewrite <- H0. apply elem_of_union_l. by apply elem_of_singleton.
  - destruct fm as [m|]; [|done]. destruct Hfm as [Hm Hone].
    split; [done|]. destruct Hal as (_ & <- & _).
    rewrite intersection_idemp_L.
    destruct (observation_ids t) as [|s l]; [done|]. cbn.
    intros H0. eapply (not_elem_of_empty (C:=gset string) s).
    rewrite <- H0. apply elem_of_union_l. by apply elem_of_singleton.
  - exists sm', fm'. rewrite (align_and_filter_run _ _ _ _ _ _ _ Hm).
    rewrite (restrict_to_metadata_aligned sm fm a b) by done.
    by rewrite (thresholds_aligned sm fm).
Qed.

(** C7. On a table and metadata that are already aligned (the same sample
    identifiers, the same feature identifiers when feature metadata is
    given, every total at or above its minimum), the alignment and
    filtering steps return the table unchanged, and running them again on
    what they returned succeeds and yields that same table. *)
Theorem alignment_idempotent sm fm min_sample_count min_feature_count
    (t t1 : Table) sm1 fm1 :
  table_wf t →
  already_aligned sm fm min_sample_count min_feature_count t →
  align_and_filter sm fm min_sample_count min_feature_count t
    = (t1, Ok (sm1, fm1)) →
  t1 = t ∧
  ∃ sm2 fm2,
    align_and_filter sm1 fm1 min_sample_count min_feature_count t1
    = (t1, Ok (sm2, fm2)).
Proof.
  intros Hwf Hal Ha.
  apply align_and_filter_Ok in Ha as [-> Hm].
  pose proof (match_ids_feature_metadata _ _ _ _ _ _ Hm) as Hfm.
  apply match_ids_Ok in Hm as (_ & Hs & Hf & Hidx & Hne).
  rewrite (restrict_to_metadata_aligned sm fm min_sample_count
             min_feature_count) by done.
  rewrite (thresholds_aligned sm fm) by done.
  split; [done|].
  assert (sample_ids t ≠ []) as Hsne.
  { intros H0. apply Hne. rewrite H0. cbn. apply intersection_empty_l_L. }
  destruct Hal as (HS & HF & Ha & Hb).
  apply aligned_input_passes; try done.
  - repeat split; try done.
    + rewrite Hidx, list_to_set_elements, <- HS.
      by rewrite intersection_idemp_L.
    + destruct fm as [m|], fm1 as [m1|]; try done.
      destruct Hfm as [-> _]. rewrite list_to_set_elements, <- HF.
      by rewrite intersection_idemp_L.
  - rewrite Hidx. apply NoDup_elements.
  - destruct fm as [m|], fm1 as [m1|]; try done.
    destruct Hfm as [-> Hone]. split; [apply NoDup_elements|].
    intros H0. apply Hone. rewrite H0. cbn. apply intersection_empty_l_L.
Qed.

(** ** The third axis (lines 150-158) *)

Lemma setitem_zero_column {I} (df : DataFrame I) :
  "PC3" ∉ column_names df →
  ∃ df', setitem_column "PC3" dt_int64 (zeros df) df = Ok df' ∧
         zero_column_appended "PC3" df df'.
Proof.
  intros Hfresh. unfold setitem_column, zeros.
  rewrite decide_True by by rewrite length_replicate.
  rewrite bool_decide_eq_false_2 by done.
  eexists. split; [done|]. split; [done|]. eexists. split; [done|]. cbn.
  split; [done|]. split; [by rewrite length_replicate|].
  apply Forall_replicate. by left.
Qed.

Lemma coerce_int_zero d : is_zero (coerce_int d 0).
Proof. destruct d; by (left + right). Qed.

Lemma loc_setitem_zero_row (df : DataFrame string) :
  "PC3" ∉ index df →
  zero_row_appended "PC3" df (loc_setitem_row "PC3" 0 df).
Proof.
  intros Hfresh. unfold loc_setitem_row.
  rewrite bool_decide_eq_false_2 by done. split; [done|]. cbn.
  induction (columns df) as [|c cols IH]; cbn; constructor; [|done].
  split; [done|]. eexists. split; [apply coerce_int_zero|done].
Qed.

Lemma keep_PC_appended (TF TF' : TensorFactorization) :
  zero_column_appended "PC3" (features TF) (features TF') →
  keep_PC TF' = keep_PC TF ++ ["PC3"].
Proof.
  intros (_ & c & Hc & Hn & _). unfold keep_PC, column_names.
  rewrite Hc, fmap_app, filter_app. cbn. by rewrite Hn.
Qed.

Lemma setitem_zeros_Ok {I} (df : DataFrame I) :
  ∃ df', setitem_column "PC3" dt_int64 (zeros df) df = Ok df'.
Proof.
  unfold setitem_column, zeros.
  rewrite decide_True by by rewrite length_replicate. by eexists.
Qed.

(** What lines 154-158 do to the four tables when the proportion explained
    and the eigenvalues are tables. *)
Lemma add_PC3_appends (TF : TensorFactorization) pe ev :
  proportion_explained TF = axis_table pe → eigvals TF = axis_table ev →
  component_axes TF = replicate 4 ["PC1"; "PC2"] →
  ∃ TF' pe' ev',
    add_PC3 2 TF = Ok TF' ∧
    component_axes TF' = replicate 4 ["PC1"; "PC2"; "PC3"] ∧
    zero_column_appended "PC3" (subjects TF) (subjects TF') ∧
    zero_column_appended "PC3" (features TF) (features TF') ∧
    proportion_explained TF' = axis_table pe' ∧
    zero_row_appended "PC3" pe pe' ∧
    eigvals TF' = axis_table ev' ∧
    zero_row_appended "PC3" ev ev'.
Proof.
  intros Hpe Hev. unfold component_axes. rewrite Hpe, Hev.
  intros [= Hs Hf Hp He]. unfold add_PC3. cbn.
  assert ("PC3" ∉ ["PC1"; "PC2"]) as Hfresh by compute_done.
  destruct (setitem_zero_column (subjects TF)) as (s' & -> & Hs').
  { by rewrite Hs. }
  destruct (setitem_zero_column (features TF)) as (f' & -> & Hf').
  { intros Hin. apply Hfresh. rewrite <- Hf.
    by apply list_elem_of_filter. }
  rewrite Hpe, Hev. cbn.
  pose proof (loc_setitem_zero_row pe) as Hp'.
  pose proof (loc_setitem_zero_row ev) as He'.
  rewrite Hp in Hp'. rewrite He in He'.
  specialize (Hp' Hfresh). specialize (He' Hfresh).
  eexists _, _, _. split; [done|].
  cbn [subjects features proportion_explained eigvals axis_labels].
  split; [|done].
  erewrite (keep_PC_appended TF) by exact Hf'.
  destruct Hs' as (_ & c & Hc & Hn & _).
  destruct Hp' as [-> _]. destruct He' as [-> _].
  unfold column_names. rewrite Hc, fmap_app. cbn. rewrite Hn.
  fold (column_names (subjects TF)). by rewrite Hs, Hf, Hp, He.
Qed.

(** Line 157, or line 158, on a vector. *)
Lemma add_PC3_vector (TF : TensorFactorization) labels data :
  proportion_explained TF = axis_vector labels data
  ∨ eigvals TF = axis_vector labels data →
  add_PC3 2 TF = Raise (IndexingError "Too many indexers").
Proof.
  intros Hvec. unfold add_PC3. cbn.
  destruct (setitem_zeros_Ok (subjects TF)) as [s' ->].
  destruct (setitem_zeros_Ok (features TF)) as [f' ->]. cbn.
  destruct (proportion_explained TF) as [l d|pe]; [done|].
  destruct Hvec as [?| ->]; done.
Qed.

Lemma add_PC3_other (n_components : Z) (TF : TensorFactorization) :
  n_components ≠ 2 → add_PC3 n_components TF = Ok TF.
Proof. intros Hn. unfold add_PC3. by rewrite bool_decide_eq_false_2. Qed.

(** ** Auxiliary metadata columns (lines 66-88) *)

Lemma compress_fmap_filter_bool {A} (f : A → bool) (l : list A) :
  compress (f <$> l) l = filter (λ x, f x = true) l.
Proof.
  rewrite <- (compress_fmap_filter (λ x, f x = true)). f_equal.
  apply list_fmap_ext. intros _ x _. by destruct (f x).
Qed.

Lemma any_eq_spec s c : any_eq s c = true ↔ VStr s ∈ values c.
Proof.
  unfold any_eq. rewrite existsb_exists. split.
  - intros ([| | | |s'] & Hin & Heq); try done.
    apply bool_decide_eq_true in Heq as ->. by apply list_elem_of_In.
  - intros Hin. exists (VStr s). split; [by apply list_elem_of_In|].
    by apply bool_decide_eq_true.
Qed.

Lemma drop_bool_columns_spec (df : DataFrame string) :
  columns (drop_bool_columns df) = filter survives_bool_drop (columns df) ∧
  index (drop_bool_columns df) = index df.
Proof.
  split; [|done]. unfold drop_bool_columns, loc_columns. cbn.
  rewrite <- !list_fmap_compose, !compress_fmap_filter_bool.
  rewrite list_filter_filter. apply list_filter_iff. intros c. cbn.
  unfold survives_bool_drop.
  rewrite !negb_true_iff, bool_decide_eq_false.
  rewrite <- (any_eq_spec "True"), <- (any_eq_spec "False").
  destruct (any_eq "True" c), (any_eq "False" c); cbn;
    forget_oracles; intuition congruence.
Qed.

Lemma drop_columns_Ok {I} labels (df df' : DataFrame I) :
  drop_columns labels df = Ok df' →
  columns df' = filter (λ c, name c ∉ labels) (columns df) ∧
  index df' = index df.
Proof.
  unfold drop_columns. destruct (filter _ labels); [|done].
  by intros [= <-].
Qed.


(** ** The stand-alone commands *)

Lemma click_parse_phylogenetic argv kwargs :
  click_parse ["--in-biom"; "--in-phylogeny"; "--output-dir"] argv
    = Ok kwargs →
  ∃ b p o, kwargs = [("in_biom", b); ("in_phylogeny", p); ("output_dir", o)].
Proof.
  unfold click_parse. destruct (filter _ argv) as [|[o v] rest]; [|done].
  cbn. destruct (option_value "--in-biom" argv) as [b|]; [cbn|done].
  destruct (option_value "--in-phylogeny" argv) as [p|]; [cbn|done].
  destruct (option_value "--output-dir" argv) as [o|]; [cbn|done].
  intros [= <-]. by exists b, p, o.
Qed.

(** C8, the code at any command line: the [phylogenetic-rclr] subcommand
    always ends in an exception and leaves the file system as it was, so it
    writes none of the three artifacts.  When the three options are given,
    the exception is the [TypeError] of calling the callback, whose
    parameter is [in_tree], with the keyword [in_phylogeny] that click
    derives from [--in-phylogeny]. *)
Theorem phylogenetic_rclr_command_fails (argv : list (string * string))
    (fs : filesystem) :
  ∃ e, phylogenetic_rclr_command argv fs = (fs, Raise e) ∧
    (is_Ok (click_parse ["--in-biom"; "--in-phylogeny"; "--output-dir"] argv)
     → e = TypeError "standalone_phylogenetic_rclr() got an unexpected keyword argument 'in_phylogeny'").
Proof.
  unfold phylogenetic_rclr_command, click_invoke, mbind, stateful_bind, lift.
  destruct (click_parse _ argv) as [kwargs|e] eqn:Hparse.
  - apply click_parse_phylogenetic in Hparse as (b & p & o & ->).
    eexists. split; [reflexivity|done].
  - eexists. split; [reflexivity|done].
Qed.

(** Called directly with a string for the tree, the callback fails as well,
    on [in_tree.open()], before anything is written. *)
Lemma standalone_phylogenetic_rclr_str in_biom in_tree output_dir fs :
  ∃ e, standalone_phylogenetic_rclr in_biom (py_str in_tree) output_dir fs
       = (fs, Raise e).
Proof.
  unfold standalone_phylogenetic_rclr, load_table, read_file, py_open, raise.
  unfold mbind, stateful_bind, mret, stateful_ret, lift.
  destruct (files fs !! fspath in_biom) as [f|]; [|by eexists].
  destruct (parse_biom_table f); by eexists.
Qed.

Lemma string_length_app (a b : string) :
  String.length (a +:+ b) = (String.length a + String.length b)%nat.
Proof.
  induction a as [|c a IH]; [done|].
  change (S (String.length (a +:+ b))
          = S (String.length a + String.length b)).
  by rewrite IH.
Qed.

Lemma ancestors_from_length pre rest a :
  a ∈ ancestors_from pre rest →
  (String.length a < String.length pre + String.length rest)%nat.
Proof.
  revert pre. induction rest as [|c rest IH]; intros pre; cbn;
    [by intros ?%elem_of_nil|].
  rewrite elem_of_app. intros [Ha|Ha].
  - case_bool_decide; [|by apply elem_of_nil in Ha].
    apply list_elem_of_singleton in Ha as ->. lia.
  - apply IH in Ha. rewrite string_length_app in Ha. cbn in Ha. lia.
Qed.

(** A file of a directory is neither that directory nor one above it. *)
Lemma path_join_not_above d f :
  f ≠ "" → path_join d f ∉ ancestors d ++ [d].
Proof.
  intros Hf Hin.
  assert (String.length d < String.length (path_join d f))%nat as Hlen.
  { unfold path_join. repeat case_bool_decide; subst;
      rewrite ?string_length_app; destruct f; cbn; try done; lia. }
  apply elem_of_app in Hin as [Hin|Hin%list_elem_of_singleton].
  - apply list_elem_of_filter in Hin as [_ Hin].
    apply ancestors_from_length in Hin. cbn in Hin. lia.
  - rewrite Hin in Hlen. lia.
Qed.

Lemma click_invoke_rclr argv :
  click_invoke "standalone_rclr" ["--in-biom"; "--output-dir"]
               ["in_biom"; "output_dir"] argv
  = match filter (λ a, a.1 ∉ ["--in-biom"; "--output-dir"]) argv with
    | (o, _) :: _ => Raise (UsageError ("No such option: " +:+ o))
    | [] =>
        match option_value "--in-biom" argv with
        | None => Raise (UsageError "Missing option --in-biom")
        | Some b =>
            match option_value "--output-dir" argv with
            | None => Raise (UsageError "Missing option --output-dir")
            | Some o => Ok [b; o]
            end
        end
    end.
Proof.
  unfold click_invoke, click_parse.
  destruct (filter _ argv) as [|[o v] rest]; [|done]. cbn.
  destruct (option_value "--in-biom" argv) as [b|]; [cbn|done].
  by destruct (option_value "--output-dir" argv) as [o|].
Qed.

(** The sibling [rclr] subcommand does what it says: it reads the table,
    transforms it and writes the one artifact. *)
Lemma rclr_command_writes in_biom output_dir fs f t out :
  files fs !! in_biom = Some f →
  parse_biom_table f = Ok t →
  rclr_transformation t = Ok out →
  output_dir ≠ "" →
  Forall (λ p, files fs !! p = None) (ancestors output_dir ++ [output_dir]) →
  path_join output_dir "rclr-table.biom" ∉ dirs fs →
  rclr_command [("--in-biom", in_biom); ("--output-dir", output_dir)] fs
  = ({| files := <[path_join output_dir "rclr-table.biom" := biom_values out]>
                   (files fs);
        dirs := list_to_set (ancestors output_dir ++ [output_dir]) ∪ dirs fs |},
     Ok ()).
Proof.
  intros Hin Hparse Hrclr Hne Hfree Hdir.
  assert (click_invoke "standalone_rclr" ["--in-biom"; "--output-dir"]
            ["in_biom"; "output_dir"]
            [("--in-biom", in_biom); ("--output-dir", output_dir)]
          = Ok [in_biom; output_dir]) as Hcall by by vm_compute.
  unfold rclr_command. rewrite Hcall.
  unfold standalone_rclr, load_table, read_file, lift, makedirs, write_file.
  unfold mbind, stateful_bind, mret, stateful_ret. cbn.
  rewrite Hin, Hparse, Hrclr. rewrite bool_decide_eq_false_2 by done.
  assert (filter (λ p, is_Some (files fs !! p))
                 (ancestors output_dir ++ [output_dir]) = []) as ->.
  { induction Hfree as [|p l Hp _ IH]; [done|].
    rewrite filter_cons, decide_False; [done|]. rewrite Hp.
    by intros [? ?]. }
  cbn. rewrite bool_decide_eq_false_2; [done|].
  rewrite elem_of_union, elem_of_list_to_set.
  intros [Hin'|?]; [|done]. revert Hin'. by apply path_join_not_above.
Qed.

(** ** Distances matched to the metadata (lines 182-188) *)

Lemma mapM_Ok {A B} (f : A → result B) l k :
  mapM f l = Ok k ↔ Forall2 (λ x y, f x = Ok y) l k.
Proof.
  revert k. induction l as [|x l IH]; intros k; cbn; unfold mret, result_ret.
  - split; [intros [= <-]; constructor|by intros ->%Forall2_nil_inv_l].
  - destruct (f x) as [y|e] eqn:Hx; cbn.
    + destruct (mapM f l) as [ys|e]; cbn.
      * split.
        -- intros [= <-]. constructor; [done|]. by apply IH.
        -- intros (y' & ys' & Hy & Hys & ->)%Forall2_cons_inv_l.
           apply IH in Hys. congruence.
      * split; [done|].
        intros (y' & ys' & Hy & Hys & ->)%Forall2_cons_inv_l.
        by apply IH in Hys.
    + split; [done|].
      intros (y' & ys' & Hy & Hys & ->)%Forall2_cons_inv_l. congruence.
Qed.

Lemma enumerate_snoc {A} (l : list A) x :
  enumerate (l ++ [x]) = enumerate l ++ [(length l, x)].
Proof.
  unfold enumerate. rewrite length_app. cbn.
  rewrite seq_app, zip_with_app by by rewrite length_seq. done.
Qed.

Lemma ind_dict_snoc l x : ind_dict (l ++ [x]) = <[x := length l]> (ind_dict l).
Proof. unfold ind_dict. by rewrite enumerate_snoc, foldl_app. Qed.

(** The dictionary sends a label to its last position. *)
Lemma ind_dict_lookup l k i :
  ind_dict l !! k = Some i ↔ l !! i = Some k ∧ k ∉ drop (S i) l.
Proof.
  revert i. induction l as [|x l IH] using rev_ind; intros i.
  - unfold ind_dict. cbn. rewrite lookup_empty. by split; [|intros [? _]].
  - rewrite ind_dict_snoc. destruct (decide (x = k)) as [->|Hne].
    + rewrite lookup_insert_eq. split.
      * intros [= <-]. rewrite list_lookup_middle by done.
        split; [done|]. rewrite drop_ge by (rewrite length_app; cbn; lia).
        apply not_elem_of_nil.
      * intros [Hi Hlast]. f_equal.
        destruct (decide (i = length l)) as [->|Hil]; [done|].
        assert (i < length l)%nat as Hlt.
        { apply lookup_lt_Some in Hi. rewrite length_app in Hi. cbn in Hi.
          lia. }
        destruct Hlast. rewrite drop_app_le by lia.
        apply elem_of_app. right. by left.
    + rewrite lookup_insert_ne by done. rewrite IH. split.
      * intros [Hi Hlast]. pose proof (lookup_lt_Some _ _ _ Hi) as Hlt.
        rewrite lookup_app_l by done. split; [done|].
        rewrite drop_app_le by lia. rewrite elem_of_app.
        intros [?|Hx%list_elem_of_singleton]; [done|]. by subst.
      * intros [Hi Hlast].
        assert (i < length l)%nat as Hlt.
        { apply lookup_lt_Some in Hi as Hlt. rewrite length_app in Hlt.
          cbn in Hlt.
          destruct (decide (i = length l)) as [->|]; [|lia].
          rewrite list_lookup_middle in Hi by done. congruence. }
        rewrite lookup_app_l in Hi by done. split; [done|].
        intros Hin. apply Hlast. rewrite drop_app_le by lia.
        apply elem_of_app. by left.
Qed.

Lemma Forall2_lookups {A B} (g : A → option B) l k :
  Forall2 (λ x y, g x = Some y) l k → g <$> l = Some <$> k.
Proof. induction 1; cbn; by f_equal. Qed.

Lemma filter_seq_sorted (P : nat → Prop) `{∀ i, Decision (P i)} k n :
  Sorted le (filter P (seq k n)).
Proof.
  apply StronglySorted_Sorted. revert k.
  induction n as [|n IH]; intros k; [constructor|].
  cbn [seq]. rewrite filter_cons. destruct (decide (P k)); [|apply IH].
  constructor; [apply IH|]. apply Forall_forall.
  intros x [_ Hx%elem_of_seq]%list_elem_of_filter. lia.
Qed.

(** The sorted list of looked-up positions is the list of kept positions in
    ascending order: the order of the trajectory index itself. *)
Lemma matched_indices_spec ids sm indices :
  matched_indices ids sm = Ok indices →
  indices = kept_positions ids (index sm).
Proof.
  unfold matched_indices.
  set (inter := dom (ind_dict ids) ∩ list_to_set (index sm)).
  set (look := λ ind, match ind_dict ids !! ind with
                      | Some ind_i => Ok ind_i
                      | None => Raise (KeyError ind)
                      end).
  destruct (mapM look (elements inter)) as [found|e] eqn:Hfound; [|done].
  cbn. intros [= <-]. apply mapM_Ok in Hfound.
  assert (Forall2 (λ k i, ind_dict ids !! k = Some i) (elements inter) found)
    as Hlook.
  { eapply Forall2_impl; [done|]. intros k i. unfold look. cbn.
    destruct (ind_dict ids !! k); by intros [= ->]. }
  clear Hfound. apply Forall2_lookups in Hlook.
  assert (∀ i, i ∈ found ↔ i ∈ kept_positions ids (index sm)) as Hmem.
  { intros i.
    rewrite <- (list_elem_of_fmap_inj Some), <- Hlook, list_elem_of_fmap.
    unfold kept_positions. rewrite list_elem_of_filter, elem_of_seq.
    unfold kept_position. split.
    - intros (k & Hk & Hin). symmetry in Hk.
      apply elem_of_elements, elem_of_intersection in Hin as [_ Hsm].
      apply elem_of_list_to_set in Hsm.
      apply ind_dict_lookup in Hk as [Hi Hlast]. rewrite Hi.
      split; [done|]. apply lookup_lt_Some in Hi. lia.
    - intros [Hkept _]. destruct (ids !! i) as [k|] eqn:Hi; [|done].
      destruct Hkept as [Hsm Hlast]. exists k.
      assert (ind_dict ids !! k = Some i) as Hk
        by by apply ind_dict_lookup.
      split; [done|]. apply elem_of_elements, elem_of_intersection.
      split; [by apply elem_of_dom|by apply elem_of_list_to_set]. }
  apply (Sorted_unique le).
  - apply Sorted_merge_sort. apply _.
  - apply filter_seq_sorted.
  - rewrite merge_sort_Permutation. apply NoDup_Permutation; [| |done].
    + apply (NoDup_fmap_1 Some). rewrite <- Hlook.
      apply NoDup_fmap_2_strong; [|apply NoDup_elements].
      intros k1 k2 Hk1 _ Heq.
      apply elem_of_elements, elem_of_intersection in Hk1 as [Hd _].
      apply elem_of_dom in Hd as [i Hi]. rewrite Hi in Heq. symmetry in Heq.
      apply ind_dict_lookup in Hi as [Hi _].
      apply ind_dict_lookup in Heq as [Heq _]. congruence.
    + apply NoDup_filter, NoDup_seq.
Qed.





(** ** The loop over the conditions (lines 174-203) *)



Lemma add_PC3_loop_items n conditions TF TF' :
  add_PC3 n TF = Ok TF' → loop_items conditions TF' = loop_items conditions TF.
Proof.
  unfold add_PC3. case_bool_decide; [|by intros [= <-]].
  destruct (setitem_column _ _ _ (subjects TF)); [|done]. cbn.
  destruct (setitem_column _ _ _ (features TF)); [|done]. cbn.
  destruct (loc_setitem_row_slice _ _ (proportion_explained TF)); [|done].
  cbn. destruct (loc_setitem_row_slice _ _ (eigvals TF)); [|done]. cbn.
  by intros [= <-].
Qed.

Lemma assemble_Ok_inv n conditions TF sm al out :
  assemble n conditions TF sm al = Ok out →
  ∃ TF',
    add_PC3 n TF = Ok TF' ∧
    build_ordination TF' = Ok (ordination out) ∧
    conditions_loop sm al ([], [], []) (loop_items conditions TF)
    = Ok (distances out, subject_trajectories out, feature_trajectories out).
Proof.
  unfold assemble.
  destruct (add_PC3 n TF) as [TF'|e] eqn:Hadd; [|done]. cbn.
  destruct (build_ordination TF') as [ord|e] eqn:Hord; [|done]. cbn.
  rewrite (add_PC3_loop_items _ _ _ _ Hadd).
  destruct (conditions_loop _ _ _ _) as [[[d s] f]|e] eqn:Hloop; [|done].
  cbn. intros [= <-]. by exists TF'.
Qed.



(** ** The ordination (lines 160-171) *)

Lemma compress_nil {A} (mask : list bool) : compress mask (@nil A) = [].
Proof. by destruct mask. Qed.

Lemma frame_rows_compress {I} mask (idx : list I) cols :
  frame_rows (compress mask idx) (compress mask <$> cols)
  = compress mask (frame_rows idx cols).
Proof.
  revert idx cols. induction mask as [|b mask IH]; intros [|i idx] cols;
    try done.
  cbn [frame_rows]. destruct b; cbn [compress frame_rows].
  - f_equal.
    + f_equal. rewrite <- list_fmap_compose. apply list_fmap_ext.
      intros _ [|v vs] _; done.
    + rewrite <- IH. f_equal. rewrite <- !list_fmap_compose.
      apply list_fmap_ext. intros _ [|v vs] _; cbn; [|done].
      by rewrite compress_nil.
  - rewrite <- IH. f_equal. rewrite <- !list_fmap_compose.
    apply list_fmap_ext. intros _ [|v vs] _; cbn; [|done].
    by rewrite compress_nil.
Qed.

Lemma forallb_notna (vs : list value) :
  forallb (λ v, negb (isna v)) vs = bool_decide (Forall (λ v, v ≠ NaN) vs).
Proof.
  induction vs as [|v vs IH]; cbn [forallb].
  { symmetry. by apply bool_decide_eq_true_2. }
  rewrite IH. destruct v; cbn [isna negb andb].
  - symmetry. apply bool_decide_eq_false_2. by intros [? _]%Forall_cons.
  - apply bool_decide_ext. rewrite Forall_cons. by split; [|intros [_ ?]].
  - apply bool_decide_ext. rewrite Forall_cons. by split; [|intros [_ ?]].
  - apply bool_decide_ext. rewrite Forall_cons. by split; [|intros [_ ?]].
  - apply bool_decide_ext. rewrite Forall_cons. by split; [|intros [_ ?]].
Qed.

Lemma notna_rows_frame_rows {I} (idx : list I) (cols : list Series) :
  notna_rows (length idx) cols
  = (λ r, bool_decide (row_complete r))
      <$> frame_rows idx (values <$> cols).
Proof.
  unfold notna_rows.
  transitivity ((λ i, forallb (λ vs, negb (isna (default NaN (vs !! i))))
                              (values <$> cols)) <$> seq 0 (length idx)).
  { apply list_fmap_ext. intros _ i _.
    induction cols as [|c cols IH]; cbn; [done|]. by rewrite IH. }
  generalize (values <$> cols) as vss. clear cols.
  induction idx as [|x idx IH]; intros vss; [done|].
  cbn [length seq fmap list_fmap frame_rows]. f_equal.
  - unfold row_complete. cbn [snd]. rewrite <- forallb_notna.
    induction vss as [|vs vss IHv]; cbn; [done|].
    rewrite IHv. by destruct vs.
  - rewrite <- IH, <- fmap_S_seq, <- list_fmap_compose.
    apply list_fmap_ext. intros _ i _. cbn.
    induction vss as [|vs vss IHv]; cbn; [done|].
    rewrite IHv. by destruct vs.
Qed.

Lemma rows_compress_rows {I} mask (df : DataFrame I) :
  rows (compress_rows mask df) = compress mask (rows df).
Proof.
  unfold rows, compress_rows. cbn. rewrite <- frame_rows_compress.
  by rewrite <- !list_fmap_compose.
Qed.

(** [dropna] keeps exactly the rows without a missing value, in order. *)
Lemma rows_dropna {I} (df : DataFrame I) :
  rows (dropna df) = filter row_complete (rows df) ∧
  column_names (dropna df) = column_names df.
Proof.
  split.
  - unfold dropna. rewrite rows_compress_rows, notna_rows_frame_rows.
    apply compress_fmap_filter.
  - unfold dropna, compress_rows, column_names. cbn.
    by rewrite <- list_fmap_compose.
Qed.

Lemma select_series_Ok labels cols sel :
  select_series labels cols = Ok sel →
  ∀ c, c ∈ sel ↔ c ∈ cols ∧ name c ∈ labels.
Proof.
  revert sel. induction labels as [|l labels IH]; intros sel; cbn.
  - intros [= <-] c. rewrite elem_of_nil. split; [done|].
    by intros [_ ?%elem_of_nil].
  - destruct (filter (λ c, name c = l) cols) as [|c0 found] eqn:Hfound;
      [done|].
    destruct (select_series labels cols) as [rest|e]; [|done]. cbn.
    intros [= <-] c. change (c0 :: found ++ rest) with ((c0 :: found) ++ rest).
    rewrite elem_of_app, <- Hfound, list_elem_of_filter.
    rewrite (IH rest eq_refl c), elem_of_cons.
    forget_oracles. intuition congruence.
Qed.

Lemma getitem_columns_Ok {I} labels (df sel : DataFrame I) :
  getitem_columns labels df = Ok sel →
  index sel = index df ∧
  ∀ c, c ∈ columns sel ↔ c ∈ columns df ∧ name c ∈ labels.
Proof.
  unfold getitem_columns.
  destruct (select_series labels (columns df)) as [cols|e] eqn:Hsel; [|done].
  cbn. intros [= <-]. split; [done|]. by apply select_series_Ok.
Qed.

(** C5 (amended). The ordination [ctf_helper] returns carries the
    eigenvalues and the proportion explained of the factorization as they
    are, and the subject and feature loadings restricted to the columns
    whose name is a principal-coordinate column name of the feature table
    (a name containing PC); from each of the two tables, independently of
    the other, exactly the rows holding a missing value are dropped, the
    other rows are all kept in their order.  Nothing is de-duplicated. *)
Theorem ordination_contents sample_metadata individual_id_column
    state_columns n_components min_sample_count min_feature_count
    max_iterations_als max_iterations_rptm n_initializations
    feature_metadata (t t' : Table) out :
  ctf_helper sample_metadata individual_id_column state_columns n_components
    min_sample_count min_feature_count max_iterations_als max_iterations_rptm
    n_initializations feature_metadata t = (t', Ok out) →
  ∃ sm' fm' conditions TF0 TF samples feats,
    fit_and_label t' sm' individual_id_column state_columns n_components
      max_iterations_als max_iterations_rptm n_initializations fm'
      = Ok (conditions, TF0) ∧
    add_PC3 n_components TF0 = Ok TF ∧
    ord_eigvals (ordination out) = eigvals TF ∧
    ord_proportion_explained (ordination out) = proportion_explained TF ∧
    index samples = index (subjects TF) ∧
    index feats = index (features TF) ∧
    (∀ c, c ∈ columns samples ↔
          c ∈ columns (subjects TF) ∧ name c ∈ keep_PC TF) ∧
    (∀ c, c ∈ columns feats ↔
          c ∈ columns (features TF) ∧ contains "PC" (name c) = true) ∧
    rows (ord_samples (ordination out)) = filter row_complete (rows samples) ∧
    rows (ord_features (ordination out)) = filter row_complete (rows feats) ∧
    column_names (ord_samples (ordination out)) = column_names samples ∧
    column_names (ord_features (ordination out)) = column_names feats.
Proof.
  intros Hrun.
  apply ctf_helper_Ok_inv in Hrun
    as (sm & al & fm & sm' & fm' & c & TF0 & _ & _ & _ & Hfit & Hout).
  apply assemble_Ok_inv in Hout as (TF & Hadd & Hord & _).
  unfold build_ordination in Hord.
  destruct (getitem_columns _ (subjects TF)) as [samples|e] eqn:Hs; [|done].
  destruct (getitem_columns _ (features TF)) as [feats|e] eqn:Hf; [|done].
  cbn in Hord. injection Hord as <-.
  apply getitem_columns_Ok in Hs as [Hsi Hsc].
  apply getitem_columns_Ok in Hf as [Hfi Hfc].
  exists sm', fm', c, TF0, TF, samples, feats.
  cbn [ordination ord_eigvals ord_proportion_explained ord_samples
       ord_features].
  do 6 (split; [done|]). split; [done|]. split.
  - intros col. rewrite Hfc. unfold keep_PC.
    rewrite list_elem_of_filter. unfold column_names.
    split; [by intros (? & ? & _)|].
    intros [Hin Hpc]. split; [done|]. split; [done|].
    by apply list_elem_of_fmap_2.
  - pose proof (rows_dropna samples) as [? ?].
    pose proof (rows_dropna feats) as [? ?]. done.
Qed.

(** ** Trajectories merged with the metadata (lines 189-202) *)

Lemma frame_rows_imap {I} (idx : list I) vss :
  frame_rows idx vss
  = imap (λ k l, (l, (λ vs, default NaN (vs !! k)) <$> vss)) idx.
Proof.
  revert vss. induction idx as [|i idx IH]; intros vss; [done|].
  cbn [frame_rows imap]. f_equal.
  - f_equal. apply list_fmap_ext. by intros _ [|v vs] _.
  - rewrite IH. apply imap_ext. intros k l _. cbn. f_equal.
    rewrite <- list_fmap_compose. apply list_fmap_ext.
    intros _ vs _. cbn. by rewrite lookup_tail.
Qed.

Lemma frame_rows_tabulate {I C} (f : C → I → value) (idx : list I)
    (cols : list C) :
  frame_rows idx ((λ c, f c <$> idx) <$> cols)
  = (λ l, (l, (λ c, f c l) <$> cols)) <$> idx.
Proof.
  rewrite frame_rows_imap.
  rewrite <- (imap_const (λ l, (l, (λ c, f c l) <$> cols))).
  apply imap_ext. intros k l Hk. cbn. f_equal.
  rewrite <- list_fmap_compose. apply list_fmap_ext. intros _ c _. cbn.
  by rewrite list_lookup_fmap, Hk.
Qed.

Lemma get_loc_NoDup {I} `{EqDecision I} (idx : list I) k l :
  NoDup idx → idx !! k = Some l → get_loc l idx = Some k.
Proof.
  revert k. induction idx as [|x idx IH]; intros k Hnd Hk; [done|].
  apply NoDup_cons in Hnd as [Hx Hnd]. cbn.
  destruct k as [|k]; cbn in Hk.
  - injection Hk as ->. by rewrite decide_True.
  - rewrite decide_False.
    + by rewrite (IH k).
    + intros ->. apply Hx. by eapply list_elem_of_lookup_2.
Qed.

Lemma rows_by_label (df : DataFrame string) :
  NoDup (index df) →
  rows df = (λ l, (l, labelled_row df l)) <$> index df.
Proof.
  intros Hnd. unfold rows. rewrite frame_rows_imap.
  rewrite <- (imap_const (λ l, (l, labelled_row df l))).
  apply imap_ext. intros k l Hk. cbn. f_equal.
  unfold labelled_row. rewrite (get_loc_NoDup _ k) by done.
  unfold row_at. by rewrite <- list_fmap_compose.
Qed.

Lemma reindex_Ok (labels : list string) (df df' : DataFrame string) :
  reindex labels df = Ok df' →
  NoDup (index df) ∧ index df' = labels ∧
  column_names df' = column_names df ∧
  rows df' = (λ l, (l, labelled_row df l)) <$> labels.
Proof.
  unfold reindex. case_decide as Hnd; [|done]. intros [= <-].
  split; [done|]. split; [done|]. split.
  { unfold column_names. cbn. by rewrite <- list_fmap_compose. }
  unfold rows. cbn.
  set (F := λ (c : Series) (l : string),
         match get_loc l (index df) with
         | Some i => default NaN (values c !! i)
         | None => NaN
         end).
  transitivity (frame_rows labels ((λ c, F c <$> labels) <$> columns df)).
  { f_equal. rewrite <- list_fmap_compose. apply list_fmap_ext.
    intros _ c _. cbn. unfold take_values.
    by rewrite <- list_fmap_compose. }
  rewrite frame_rows_tabulate. apply list_fmap_ext. intros _ l _.
  f_equal. unfold labelled_row, row_at, F.
  destruct (get_loc l (index df)); done.
Qed.

Lemma align_rows_Ok idx (df df' : DataFrame string) :
  NoDup idx → align_rows idx df = Ok df' →
  index df' = idx ∧ column_names df' = column_names df ∧
  rows df' = (λ l, (l, labelled_row df l)) <$> idx.
Proof.
  intros Hnd. unfold align_rows. case_decide as Hidx.
  - intros [= <-]. subst idx. split; [done|]. split; [done|].
    by apply rows_by_label.
  - intros (_ & ? & ? & ?)%reindex_Ok. done.
Qed.

Lemma labelled_row_reindex labels (df df' : DataFrame string) l :
  reindex labels df = Ok df' → NoDup labels → l ∈ labels →
  labelled_row df' l = labelled_row df l.
Proof.
  intros (_ & Hidx & _ & Hrows)%reindex_Ok Hnd Hl.
  rewrite rows_by_label, Hidx in Hrows by by rewrite Hidx.
  apply Forall_fmap_ext in Hrows. rewrite Forall_forall in Hrows.
  specialize (Hrows l Hl). by injection Hrows.
Qed.

Lemma frame_rows_app {I} (idx : list I) v1 v2 :
  frame_rows idx (v1 ++ v2)
  = zip_with (λ r1 r2, (r1.1, r1.2 ++ r2.2))
             (frame_rows idx v1) (frame_rows idx v2).
Proof.
  revert v1 v2. induction idx as [|i idx IH]; intros v1 v2; [done|].
  cbn. rewrite !fmap_app, IH. done.
Qed.

Lemma zip_with_fmap_diag {A B C D} (h : B → C → D) (f : A → B) (g : A → C)
    (l : list A) :
  zip_with h (f <$> l) (g <$> l) = (λ x, h (f x) (g x)) <$> l.
Proof. induction l; cbn; by f_equal. Qed.

Lemma str_le_total : Total str_le.
Proof. intros a b. apply String.leb_total. Qed.

Lemma safe_sort_index_spec idx :
  Sorted str_le (safe_sort_index idx) ∧ safe_sort_index idx ≡ₚ idx.
Proof.
  unfold safe_sort_index, sort_labels. case_decide; [done|]. split.
  - apply Sorted_merge_sort, str_le_total.
  - apply merge_sort_Permutation.
Qed.

Lemma concat_columns_sorted_Ok (a b m : DataFrame string) :
  index a = index b → NoDup (index b) →
  concat_columns_sorted a b = Ok m →
  let idx := safe_sort_index (index b) in
  ∃ a',
    index a' = idx ∧ column_names a' = column_names a ∧
    rows a' = (λ l, (l, labelled_row a l)) <$> idx ∧
    index m = idx ∧
    (∃ cb, columns m = columns a' ++ cb ∧ name <$> cb = column_names b) ∧
    rows m = (λ l, (l, labelled_row a l ++ labelled_row b l)) <$> idx.
Proof.
  intros Hab Hnd. unfold concat_columns_sorted, union_index.
  rewrite Hab, decide_True by done.
  assert (NoDup (safe_sort_index (index b))) as Hnd'.
  { by rewrite (proj2 (safe_sort_index_spec (index b))). }
  destruct (align_rows _ a) as [a'|e] eqn:Ha; [|done]. cbn.
  destruct (align_rows _ b) as [b'|e] eqn:Hb; [|done]. cbn.
  intros [= <-]. cbn zeta.
  apply align_rows_Ok in Ha as (Hai & Han & Har); [|done].
  apply align_rows_Ok in Hb as (Hbi & Hbn & Hbr); [|done].
  exists a'. do 4 (split; [done|]). split; [by exists (columns b')|].
  unfold rows in *. cbn. rewrite fmap_app, frame_rows_app.
  rewrite Hai in Har. rewrite Hbi in Hbr. rewrite Har, Hbr.
  by rewrite zip_with_fmap_diag.
Qed.

Lemma notna_rows_equiv n (c1 c2 : list Series) :
  (∀ c, c ∈ c1 ↔ c ∈ c2) → notna_rows n c1 = notna_rows n c2.
Proof.
  intros Heq. unfold notna_rows. apply list_fmap_ext. intros _ i _.
  apply eq_true_iff_eq. rewrite !forallb_forall.
  setoid_rewrite <- list_elem_of_In. by setoid_rewrite Heq.
Qed.

Lemma compress_rows_names {I} mask (df : DataFrame I) :
  column_names (compress_rows mask df) = column_names df.
Proof. unfold column_names. cbn. by rewrite <- list_fmap_compose. Qed.

Lemma merge_trajectory_Ok (straj al tr : DataFrame string) :
  merge_trajectory straj al = Ok tr →
  NoDup (index al) →
  column_names straj ## column_names al →
  merged_by_identifier straj al tr.
Proof.
  unfold merge_trajectory. intros Hrun Hnd Hdisj.
  destruct (reindex (index al) straj) as [r|e] eqn:Hr; [|done].
  cbn in Hrun.
  destruct (concat_columns_sorted r al) as [m|e] eqn:Hm; [|done].
  cbn in Hrun.
  destruct (dropna_subset (column_names straj) m) as [d|e] eqn:Hd; [|done].
  cbn in Hrun. injection Hrun as <-.
  pose proof (reindex_Ok _ _ _ Hr) as (_ & Hri & Hrn & _).
  apply concat_columns_sorted_Ok in Hm
    as (a' & Hai & Han & Har & Hmi & (cb & Hmc & Hcb) & Hmr); [|done..].
  set (idx := safe_sort_index (index al)) in *.
  unfold dropna_subset in Hd.
  destruct (select_series _ (columns m)) as [sel|e] eqn:Hsel; [|done].
  cbn in Hd. injection Hd as <-.
  assert (∀ l, l ∈ idx → labelled_row r l = labelled_row straj l) as Hrow.
  { intros l Hl. eapply labelled_row_reindex; [done..|].
    by rewrite <- (proj2 (safe_sort_index_spec (index al))). }
  unfold merged_by_identifier. fold idx. split; [done|]. split.
  { change (column_names (set_index_name "#SampleID" ?df))
      with (column_names df).
    rewrite compress_rows_names. unfold column_names.
    rewrite Hmc, fmap_app, Hcb. fold (column_names a').
    by rewrite Han, Hrn. }
  change (rows (set_index_name "#SampleID" ?df)) with (rows df).
  rewrite rows_compress_rows.
  rewrite (notna_rows_equiv _ sel (columns a')).
  2:{ intros c. rewrite (select_series_Ok _ _ _ Hsel c), Hmc, elem_of_app.
      split.
      - intros [[?|Hc] Hname]; [done|]. destruct (Hdisj (name c)); [done|].
        rewrite <- Hcb. by apply list_elem_of_fmap_2.
      - intros Hc. split; [by left|]. rewrite <- Hrn, <- Han.
        by apply list_elem_of_fmap_2. }
  rewrite Hmi, <- Hai, notna_rows_frame_rows. fold (rows a').
  rewrite Har, Hmr, ?Hai, <- list_fmap_compose, <- compress_fmap.
  unfold compose.
  rewrite (compress_fmap_filter
             (λ l, row_complete (l, labelled_row r l))).
  rewrite (filter_ext_in _
             (λ l, Forall (λ v, v ≠ NaN) (labelled_row straj l))).
  2:{ intros l Hl. unfold row_complete. cbn. by rewrite Hrow. }
  apply list_fmap_ext. intros _ l [_ Hl]%list_elem_of_lookup_2%list_elem_of_filter.
  by rewrite Hrow.
Qed.

Lemma match_ids_reindexed sm fm t t' sm' fm' :
  match_ids sm fm t = (t', Ok (sm', fm')) →
  reindex (elements (list_to_set (sample_ids t) ∩ list_to_set (index sm)
                     : gset string)) sm = Ok sm' ∧
  match fm with
  | Some m =>
      ∃ m', fm' = Some m' ∧
        reindex (elements (list_to_set (observation_ids t)
                           ∩ list_to_set (index m) : gset string)) m = Ok m'
  | None => fm' = None
  end.
Proof.
  unfold match_ids, mbind, stateful_bind, read_table, raise. cbn.
  case_bool_decide as Hs; [done|]. case_bool_decide as Hf; [done|].
  unfold match_feature_ids, filter_matched_features,
    filter_inplace, lift, raise, mbind, stateful_bind, mret, stateful_ret.
  destruct fm as [f|].
  - case_bool_decide as Hfidx; [done|].
    destruct (reindex _ f) as [m'|e] eqn:Hm; [cbn|done].
    case_bool_decide as Hsidx; [done|]. cbn.
    destruct (reindex _ sm) as [s'|e] eqn:Hsm; [|done].
    intros [= <- <- <-]. split; [done|]. by exists m'.
  - case_bool_decide as Hsidx; [done|]. cbn.
    destruct (reindex _ sm) as [s'|e] eqn:Hsm; [|done].
    by intros [= <- <- <-].
Qed.


(** ** The axes of the ordination *)

Lemma filter_name_fmap (l : string) (cols : list Series) :
  name <$> filter (λ c, name c = l) cols
  = filter (λ n, n = l) (name <$> cols).
Proof.
  induction cols as [|c cols IH]; [done|]. cbn [fmap list_fmap].
  rewrite !filter_cons. destruct (decide (name c = l)); cbn; by rewrite IH.
Qed.

Lemma select_series_unique labels cols :
  (∀ l, l ∈ labels → filter (λ n, n = l) (name <$> cols) = [l]) →
  ∃ sel, select_series labels cols = Ok sel ∧ name <$> sel = labels.
Proof.
  induction labels as [|l labels IH]; intros Huniq; [by exists []|].
  destruct IH as (rest & Hrest & Hnames).
  { intros l' Hl'. apply Huniq. by right. }
  pose proof (Huniq l (list_elem_of_here _ _)) as Hl.
  rewrite <- filter_name_fmap in Hl. cbn. rewrite Hrest.
  destruct (filter (λ c, name c = l) cols) as [|c found]; [done|].
  cbn. eexists. split; [done|]. cbn in Hl. injection Hl as Hc Hfound.
  apply fmap_nil_inv in Hfound as ->. cbn. by rewrite Hc, Hnames.
Qed.

Lemma filter_eq_NoDup (names : list string) l :
  NoDup names → l ∈ names → filter (λ n, n = l) names = [l].
Proof.
  induction names as [|n names IH]; intros Hnd Hl; [by apply elem_of_nil in Hl|].
  apply NoDup_cons in Hnd as [Hn Hnd]. rewrite filter_cons.
  destruct (decide (n = l)) as [->|Hne].
  - f_equal. clear IH Hl Hnd.
    induction names as [|x names IH]; [done|].
    apply not_elem_of_cons in Hn as [Hx Hn]. rewrite filter_cons.
    rewrite decide_False by done. by apply IH.
  - apply elem_of_cons in Hl as [->|Hl]; [done|]. by apply IH.
Qed.

(** The ordination shows the axes the factorization is labelled with. *)
Lemma ordination_shows_axes (TF : TensorFactorization) axes :
  NoDup axes → component_axes TF = replicate 4 axes →
  ∃ ord, build_ordination TF = Ok ord ∧
         ordination_axes ord = replicate 4 axes.
Proof.
  intros Hnd [= Hs Hf Hp He]. unfold build_ordination, getitem_columns.
  destruct (select_series_unique (keep_PC TF) (columns (subjects TF)))
    as (ss & -> & Hss).
  { intros l Hl. fold (column_names (subjects TF)). rewrite Hs.
    apply filter_eq_NoDup; [done|]. by rewrite <- Hf. }
  destruct (select_series_unique (keep_PC TF) (columns (features TF)))
    as (fs & -> & Hfs).
  { intros l Hl. fold (column_names (features TF)).
    assert (filter (λ n, n = l) (column_names (features TF))
            = filter (λ n, n = l) (keep_PC TF)) as ->.
    { unfold keep_PC. rewrite list_filter_filter. apply filter_ext_in.
      intros n _. split; [|by intros [? _]]. intros ->. split; [done|].
      by apply list_elem_of_filter in Hl as [? _]. }
    rewrite Hf. apply filter_eq_NoDup; [done|]. by rewrite <- Hf. }
  cbn [mbind result_bind]. eexists. split; [done|]. unfold ordination_axes.
  cbn [ord_samples ord_features ord_proportion_explained ord_eigvals].
  rewrite !(proj2 (rows_dropna _)). unfold column_names at 1 2.
  cbn [columns]. by rewrite Hss, Hfs, Hf, Hp, He.
Qed.

(** C1. What [ctf_helper] makes of a request for two components, on every
    run that gets as far as the factorization.  Lines 154-158 mean to add a
    third axis PC3 of zeros, and on a proportion explained and eigenvalues
    that are tables they do: with the fit labelled PC1, PC2, the subject
    and the feature loadings get a last column PC3 of zeros, the proportion
    explained and the eigenvalues a last row PC3 of zeros, and the
    ordination the run goes on with shows exactly PC1, PC2, PC3 in all
    four.  On a proportion explained or eigenvalues that are vectors, line
    157 (or 158) indexes with a row label and a column slice, one indexer
    too many: the run ends there in an exception, with the table already
    filtered, and returns none of its outputs.  For any other number of
    components the factorization goes on as it is. *)
Theorem third_axis_of_zeros sample_metadata individual_id_column
    state_columns n_components min_sample_count min_feature_count
    max_iterations_als max_iterations_rptm n_initializations
    feature_metadata (t t' : Table) sm all_sample_metadata fm sm' fm'
    conditions TF :
  split_sample_metadata sample_metadata individual_id_column state_columns
    = Ok (sm, all_sample_metadata) →
  load_feature_metadata feature_metadata = Ok fm →
  align_and_filter sm fm min_sample_count min_feature_count t
    = (t', Ok (sm', fm')) →
  fit_and_label t' sm' individual_id_column state_columns n_components
    max_iterations_als max_iterations_rptm n_initializations fm'
    = Ok (conditions, TF) →
  let run :=
    ctf_helper sample_metadata individual_id_column state_columns
      n_components min_sample_count min_feature_count max_iterations_als
      max_iterations_rptm n_initializations feature_metadata t in
  let loop :=
    conditions_loop sm' all_sample_metadata ([], [], [])
                    (loop_items conditions TF) in
  (n_components = 2 →
   (∀ labels data,
      proportion_explained TF = axis_vector labels data
      ∨ eigvals TF = axis_vector labels data →
      run = (t', Raise (IndexingError "Too many indexers"))) ∧
   (∀ pe ev,
      proportion_explained TF = axis_table pe →
      eigvals TF = axis_table ev →
      component_axes TF = replicate 4 ["PC1"; "PC2"] →
      ∃ TF' pe' ev' ord,
        add_PC3 n_components TF = Ok TF' ∧
        component_axes TF' = replicate 4 ["PC1"; "PC2"; "PC3"] ∧
        zero_column_appended "PC3" (subjects TF) (subjects TF') ∧
        zero_column_appended "PC3" (features TF) (features TF') ∧
        proportion_explained TF' = axis_table pe' ∧
        zero_row_appended "PC3" pe pe' ∧
        eigvals TF' = axis_table ev' ∧
        zero_row_appended "PC3" ev ev' ∧
        build_ordination TF' = Ok ord ∧
        ordination_axes ord = replicate 4 ["PC1"; "PC2"; "PC3"] ∧
        run = (t', match loop with
                   | Ok (d, s, f) =>
                       Ok {| ordination := ord;
                             distances := d;
                             subject_trajectories := s;
                             feature_trajectories := f |}
                   | Raise e => Raise e
                   end)))
  ∧ (n_components ≠ 2 →
     add_PC3 n_components TF = Ok TF ∧
     run = (t', match build_ordination TF with
                | Ok ord =>
                    match loop with
                    | Ok (d, s, f) =>
                        Ok {| ordination := ord;
                              distances := d;
                              subject_trajectories := s;
                              feature_trajectories := f |}
                    | Raise e => Raise e
                    end
                | Raise e => Raise e
                end)).
Proof.
  intros Hsplit Hload Ha Hfit run loop.
  assert (run = (t', assemble n_components conditions TF sm'
                              all_sample_metadata)) as Hrun.
  { unfold run. rewrite ctf_helper_stages, Hsplit, Hload, Ha. cbn.
    by rewrite Hfit. }
  rewrite Hrun. unfold assemble. split.
  - intros ->. split.
    + intros labels data Hvec. by rewrite (add_PC3_vector TF labels data).
    + intros pe ev Hpe Hev Haxes.
      destruct (add_PC3_appends TF pe ev Hpe Hev Haxes)
        as (TF' & pe' & ev' & Hadd & Haxes' & Hs & Hf & Hpe' & Hp & Hev'
            & He).
      destruct (ordination_shows_axes TF' ["PC1"; "PC2"; "PC3"])
        as (ord & Hord & Hoaxes); [compute_done|done|].
      exists TF', pe', ev', ord. do 10 (split; [done|]).
      rewrite Hadd. cbn. rewrite Hord. cbn.
      rewrite (add_PC3_loop_items _ _ _ _ Hadd). fold loop.
      by destruct loop as [[[d s] f]|e].
  - intros Hn. split; [by apply add_PC3_other|].
    rewrite (add_PC3_other _ _ Hn). cbn.
    destruct (build_ordination TF) as [ord|e]; [|done]. cbn. fold loop.
    by destruct loop as [[[d s] f]|e].
Qed.

(** ** The entry point [ctf] (lines 15-46) *)

Lemma dict_setitem_keys {V} k (v : V) d :
  (dict_setitem k v d).*1 = if decide (k ∈ d.*1) then d.*1 else d.*1 ++ [k].
Proof.
  induction d as [|[k' v'] d IH]; cbn.
  - rewrite decide_False; [done|]. apply not_elem_of_nil.
  - destruct (decide (k' = k)) as [->|Hne]; cbn.
    + rewrite decide_True; [done|]. by left.
    + rewrite IH. destruct (decide (k ∈ d.*1)) as [Hin|Hin].
      * rewrite decide_True; [done|]. by right.
      * rewrite decide_False; [done|].
        intros [?|?]%elem_of_cons; [congruence|done].
Qed.

Lemma add_keys_spec (ks l : list string) :
  let r := foldl (λ ks k, if decide (k ∈ ks) then ks else ks ++ [k]) ks l in
  (NoDup ks → NoDup r) ∧ (∀ c, c ∈ r ↔ c ∈ ks ∨ c ∈ l) ∧
  (∃ rest, r = ks ++ rest) ∧ (NoDup (ks ++ l) → r = ks ++ l).
Proof.
  revert ks. induction l as [|k l IH]; intros ks; cbn.
  - repeat split.
    + done.
    + by left.
    + intros [?|?%elem_of_nil]; done.
    + exists []. by rewrite app_nil_r.
    + by rewrite app_nil_r.
  - destruct (decide (k ∈ ks)) as [Hin|Hin].
    + destruct (IH ks) as (Hnd & Hmem & Hpre & Heq).
      repeat split; [done| | |done|].
      * rewrite Hmem. intros [?|?]; [by left|right; by right].
      * rewrite Hmem. intros [?|[->|?]%elem_of_cons];
          [by left|by left|by right].
      * intros [_ [Hk _]]%NoDup_app. destruct (Hk k Hin). by left.
    + destruct (IH (ks ++ [k])) as (Hnd & Hmem & [rest Hpre] & Heq).
      repeat split.
      * intros Hks. apply Hnd. apply NoDup_app. split; [done|].
        split; [|apply NoDup_singleton].
        by intros x Hx ->%list_elem_of_singleton.
      * rewrite Hmem, elem_of_app, list_elem_of_singleton.
        intros [[?| ->]|?]; [by left|right; by left|right; by right].
      * rewrite Hmem, elem_of_app, list_elem_of_singleton.
        intros [?|[->|?]%elem_of_cons];
          [left; by left|left; by right|by right].
      * exists ([k] ++ rest). by rewrite Hpre, <- app_assoc.
      * intros Hall. rewrite Heq by by rewrite <- app_assoc.
        by rewrite <- app_assoc.
Qed.

Lemma insertion_order_spec (l : list string) :
  NoDup (insertion_order l) ∧ (∀ c, c ∈ insertion_order l ↔ c ∈ l) ∧
  head (insertion_order l) = head l ∧ (NoDup l → insertion_order l = l).
Proof.
  unfold insertion_order.
  destruct (add_keys_spec [] l) as (Hnd & Hmem & _ & Heq). cbn zeta in *.
  split; [apply Hnd; constructor|]. split.
  { intros c. rewrite Hmem. split; [by intros [?%elem_of_nil|?]|by right]. }
  split; [|done].
  destruct l as [|k l]; [done|]. cbn [foldl].
  rewrite decide_False by apply not_elem_of_nil.
  destruct (add_keys_spec ([] ++ [k]) l) as (_ & _ & [rest Hrest] & _).
  cbn zeta in Hrest. by rewrite Hrest.
Qed.

Lemma conditions_loop_keys sm al acc items d s f :
  conditions_loop sm al acc items = Ok (d, s, f) →
  acc.1.1.*1 = acc.1.2.*1 → acc.1.1.*1 = acc.2.*1 →
  d.*1 = s.*1 ∧ d.*1 = f.*1 ∧
  d.*1 = foldl (λ ks k, if decide (k ∈ ks) then ks else ks ++ [k])
               acc.1.1.*1 items.*1.
Proof.
  revert acc. induction items as [|item items IH]; intros acc; cbn.
  - by intros [= ->].
  - destruct (condition_step sm al acc item) as [acc'|e] eqn:Hstep; [|done].
    cbn. intros Hloop Hs Hf.
    destruct acc as [[d0 s0] f0], item as [c0 [dist0 [straj0 ftraj0]]].
    unfold condition_step in Hstep.
    destruct (match_distances straj0 sm dist0) as [dm0|e]; [|done].
    destruct (merge_trajectory straj0 al) as [tr0|e]; [|done].
    cbn in Hstep. injection Hstep as <-. cbn in Hs, Hf.
    apply IH in Hloop; cbn [fst snd] in *.
    + by rewrite dict_setitem_keys in Hloop.
    + by rewrite !dict_setitem_keys, Hs.
    + by rewrite !dict_setitem_keys, Hf.
Qed.

Lemma first_value_Ok {V} (d : list (string * V)) v :
  first_value d = Ok v → ∃ k, head d.*1 = Some k ∧ dict_get k d = Some v.
Proof.
  destruct d as [|[k v'] d]; [done|]. cbn. intros [= ->]. exists k.
  by rewrite decide_True.
Qed.

Lemma head_loop_items conditions TF c :
  head (loop_items conditions TF).*1 = Some c → head conditions = Some c.
Proof.
  unfold loop_items. destruct conditions as [|c0 cs]; [done|].
  by destruct (zip (subject_distances TF) _).
Qed.

(** The keys of the three dictionaries [ctf_helper] returns. *)
Lemma ctf_helper_keys sample_metadata individual_id_column state_columns
    n_components min_sample_count min_feature_count max_iterations_als
    max_iterations_rptm n_initializations feature_metadata t t' out :
  ctf_helper sample_metadata individual_id_column state_columns n_components
    min_sample_count min_feature_count max_iterations_als max_iterations_rptm
    n_initializations feature_metadata t = (t', Ok out) →
  ∃ sm' fm' conditions TF,
    fit_and_label t' sm' individual_id_column state_columns n_components
      max_iterations_als max_iterations_rptm n_initializations fm'
      = Ok (conditions, TF) ∧
    (distances out).*1 = insertion_order (loop_items conditions TF).*1 ∧
    (subject_trajectories out).*1 = (distances out).*1 ∧
    (feature_trajectories out).*1 = (distances out).*1.
Proof.
  intros Hrun.
  apply ctf_helper_Ok_inv in Hrun
    as (sm & al & fm & sm' & fm' & c & TF & _ & _ & _ & Hfit & Hout).
  apply assemble_Ok_inv in Hout as (TF' & _ & _ & Hloop).
  apply conditions_loop_keys in Hloop as (Hs & Hf & Hd); [|done..].
  exists sm', fm', c, TF. by rewrite <- Hs, <- Hf.
Qed.

(** X1. What [ctf] returns on success is the ordination of [ctf_helper]
    run on the one state column, together with the distance matrix, the
    subject trajectory and the feature trajectory that the three
    dictionaries hold under one and the same key: the first condition the
    factorization reports. *)
Theorem ctf_returns_first_condition sample_metadata individual_id_column
    state_column n_components min_sample_count min_feature_count
    max_iterations_als max_iterations_rptm n_initializations
    feature_metadata (t t' : Table) ord dm straj ftraj :
  ctf sample_metadata individual_id_column state_column n_components
    min_sample_count min_feature_count max_iterations_als max_iterations_rptm
    n_initializations feature_metadata t = (t', Ok (ord, dm, straj, ftraj)) →
  ∃ out sm' fm' conditions TF condition,
    ctf_helper sample_metadata individual_id_column [state_column]
      n_components min_sample_count min_feature_count max_iterations_als
      max_iterations_rptm n_initializations feature_metadata t
    = (t', Ok out) ∧
    fit_and_label t' sm' individual_id_column [state_column] n_components
      max_iterations_als max_iterations_rptm n_initializations fm'
      = Ok (conditions, TF) ∧
    head conditions = Some condition ∧
    ord = ordination out ∧
    dict_get condition (distances out) = Some dm ∧
    dict_get condition (subject_trajectories out) = Some straj ∧
    dict_get condition (feature_trajectories out) = Some ftraj.
Proof.
  unfold ctf, mbind, stateful_bind, lift, mret, stateful_ret.
  destruct (ctf_helper _ _ _ _ _ _ _ _ _ _ t) as [t1 [out|e]] eqn:Hrun;
    [|done].
  destruct (first_value (distances out)) as [dm'|e] eqn:Hd; [|done].
  destruct (first_value (subject_trajectories out)) as [st'|e] eqn:Hs;
    [|done].
  destruct (first_value (feature_trajectories out)) as [ft'|e] eqn:Hf;
    [|done].
  intros [= -> <- -> -> ->].
  destruct (ctf_helper_keys _ _ _ _ _ _ _ _ _ _ _ _ _ Hrun)
    as (sm' & fm' & conditions & TF & Hfit & Hkd & Hks & Hkf).
  apply first_value_Ok in Hd as (c & Hc & Hd).
  apply first_value_Ok in Hs as (cs & Hcs & Hs).
  apply first_value_Ok in Hf as (cf & Hcf & Hf).
  rewrite Hks, Hc in Hcs. injection Hcs as <-.
  rewrite Hkf, Hc in Hcf. injection Hcf as <-.
  exists out, sm', fm', conditions, TF, c. do 2 (split; [done|]).
  split; [|done]. apply (head_loop_items _ TF).
  rewrite Hkd in Hc. by rewrite (proj1 (proj2 (proj2 (insertion_order_spec _)))) in Hc.
Qed.

(** X2. When [ctf_helper] succeeds, [ctf] fails with an [IndexError] exactly
    when the loop over the conditions had nothing to run over (the
    factorization reports no condition, or no distance matrix or
    trajectory for it); the caller's table has been filtered all the same.
    In every other case [ctf] succeeds with the same table. *)
Theorem ctf_without_conditions sample_metadata individual_id_column
    state_column n_components min_sample_count min_feature_count
    max_iterations_als max_iterations_rptm n_initializations
    feature_metadata (t t' : Table) out :
  ctf_helper sample_metadata individual_id_column [state_column]
    n_components min_sample_count min_feature_count max_iterations_als
    max_iterations_rptm n_initializations feature_metadata t
  = (t', Ok out) →
  ∃ sm' fm' conditions TF,
    fit_and_label t' sm' individual_id_column [state_column] n_components
      max_iterations_als max_iterations_rptm n_initializations fm'
      = Ok (conditions, TF) ∧
    (loop_items conditions TF = [] →
     ctf sample_metadata individual_id_column state_column n_components
       min_sample_count min_feature_count max_iterations_als
       max_iterations_rptm n_initializations feature_metadata t
     = (t', Raise (IndexError "list index out of range"))) ∧
    (loop_items conditions TF ≠ [] →
     ∃ r, ctf sample_metadata individual_id_column state_column n_components
            min_sample_count min_feature_count max_iterations_als
            max_iterations_rptm n_initializations feature_metadata t
          = (t', Ok r)).
Proof.
  intros Hrun.
  destruct (ctf_helper_keys _ _ _ _ _ _ _ _ _ _ _ _ _ Hrun)
    as (sm' & fm' & conditions & TF & Hfit & Hkd & Hks & Hkf).
  exists sm', fm', conditions, TF. split; [done|].
  unfold ctf, mbind, stateful_bind, lift, mret, stateful_ret. rewrite Hrun.
  split.
  - intros Hnil. rewrite Hnil in Hkd. cbn in Hkd.
    by apply fmap_nil_inv in Hkd as ->.
  - intros Hne.
    assert ((distances out).*1 ≠ []) as Hd.
    { rewrite Hkd. intros Hnil.
      pose proof (insertion_order_spec (loop_items conditions TF).*1)
        as (_ & _ & Hhd & _).
      rewrite Hnil in Hhd. by destruct (loop_items conditions TF). }
    destruct (distances out) as [|[k1 v1] d]; [done|].
    destruct (subject_trajectories out) as [|[k2 v2] s]; [done|].
    destruct (feature_trajectories out) as [|[k3 v3] f]; [done|].
    by eexists.
Qed.

(** ** The key columns of the sample metadata (lines 66-88) *)

Lemma drop_columns_missing {I} labels (df : DataFrame I) l :
  l ∈ labels → l ∉ column_names df →
  ∃ l', l' ∈ labels ∧ (l' ∉ column_names df) ∧
        drop_columns labels df = Raise (KeyError l').
Proof.
  intros Hl Hmiss. unfold drop_columns.
  destruct (filter (λ l, l ∉ column_names df) labels) as [|l' rest] eqn:Hf.
  - assert (l ∈ filter (λ l, l ∉ column_names df) labels) as Hin
      by by apply list_elem_of_filter.
    rewrite Hf in Hin. by apply elem_of_nil in Hin.
  - exists l'.
    assert (l' ∈ filter (λ l, l ∉ column_names df) labels) as Hin
      by (rewrite Hf; by left).
    by apply list_elem_of_filter in Hin as [? ?].
Qed.

(** X3. When the subject column or one of the state columns is not a column
    of the sample metadata, [ctf_helper] raises a [KeyError] naming such a
    column; the caller's table is untouched, and neither the qiime2
    validator nor the factorization is consulted. *)
Theorem missing_key_column_raises sample_metadata individual_id_column
    state_columns n_components min_sample_count min_feature_count
    max_iterations_als max_iterations_rptm n_initializations
    feature_metadata (t : Table) l :
  l ∈ (state_columns ++ [individual_id_column]) →
  l ∉ column_names (metadata_frame sample_metadata) →
  ∃ l', l' ∈ (state_columns ++ [individual_id_column]) ∧
        (l' ∉ column_names (metadata_frame sample_metadata)) ∧
        ctf_helper sample_metadata individual_id_column state_columns
          n_components min_sample_count min_feature_count max_iterations_als
          max_iterations_rptm n_initializations feature_metadata t
        = (t, Raise (KeyError l')).
Proof.
  intros Hl Hmiss. rewrite ctf_helper_stages.
  destruct (drop_columns_missing _ _ _ Hl Hmiss) as (l' & Hl' & Hmiss' & Hdrop).
  exists l'. do 2 (split; [done|]).
  unfold split_sample_metadata.
  destruct sample_metadata as [df|md]; cbn in Hdrop; by rewrite Hdrop.
Qed.

Lemma drop_columns_present {I} labels (df df' : DataFrame I) l :
  drop_columns labels df = Ok df' → l ∈ labels → l ∈ column_names df.
Proof.
  unfold drop_columns.
  destruct (filter (λ l, l ∉ column_names df) labels) as [|l' rest] eqn:Hf;
    [|done].
  intros _ Hl. destruct (decide (l ∈ column_names df)) as [|Hmiss]; [done|].
  assert (l ∈ filter (λ l, l ∉ column_names df) labels) as Hin
    by by apply list_elem_of_filter.
  rewrite Hf in Hin. by apply elem_of_nil in Hin.
Qed.

(** X4. Of a sample metadata whose columns are uniquely named, what goes on
    to the alignment (and, for a raw frame, through the qiime2 validator
    first) is the frame cut down to exactly the state columns followed by
    the subject column, in that order, on the index it came with; the
    auxiliary metadata holds none of these columns. *)
Theorem key_columns_handed_over sample_metadata individual_id_column
    state_columns sm all_sample_metadata :
  NoDup (column_names (metadata_frame sample_metadata)) →
  split_sample_metadata sample_metadata individual_id_column state_columns
    = Ok (sm, all_sample_metadata) →
  ∃ kept,
    getitem_columns (state_columns ++ [individual_id_column])
                    (metadata_frame sample_metadata) = Ok kept ∧
    column_names kept = state_columns ++ [individual_id_column] ∧
    index kept = index (metadata_frame sample_metadata) ∧
    (∀ c, c ∈ columns kept → c ∈ columns (metadata_frame sample_metadata)) ∧
    (∀ c, c ∈ columns all_sample_metadata →
          name c ∉ state_columns ++ [individual_id_column]) ∧
    match sample_metadata with
    | as_DataFrame _ => ∃ md, Metadata_new kept = Ok md ∧ sm = to_dataframe md
    | as_Metadata _ => sm = kept
    end.
Proof.
  intros Hnd Hsplit.
  set (keep_cols := state_columns ++ [individual_id_column]) in *.
  set (df := metadata_frame sample_metadata) in *.
  assert (∃ al0, drop_columns keep_cols df = Ok al0 ∧
                 ∀ c, c ∈ columns all_sample_metadata → c ∈ columns al0)
    as (al0 & Hdrop & Hal).
  { unfold split_sample_metadata in Hsplit. fold keep_cols in Hsplit.
    destruct sample_metadata as [d|md]; cbn in df; fold df in Hsplit;
      destruct (drop_columns keep_cols df) as [al0|e]; try done;
      exists al0; (split; [done|]); cbn in Hsplit;
      destruct (getitem_columns keep_cols df) as [k|e]; try done;
      cbn in Hsplit.
    - destruct (Metadata_new k) as [md|e]; [|done]. cbn in Hsplit.
      injection Hsplit as _ <-. intros c.
      rewrite (proj1 (drop_bool_columns_spec al0)).
      by intros [_ ?]%list_elem_of_filter.
    - by injection Hsplit as _ <-. }
  destruct (select_series_unique keep_cols (columns df)) as (sel & Hsel & Hnames).
  { intros l Hl. apply filter_eq_NoDup; [done|].
    by eapply drop_columns_present. }
  exists {| index_name := index_name df; index := index df; columns := sel |}.
  assert (getitem_columns keep_cols df
          = Ok {| index_name := index_name df; index := index df;
                  columns := sel |}) as Hget.
  { unfold getitem_columns. by rewrite Hsel. }
  split; [done|]. split; [done|]. split; [done|]. split.
  { intros c Hc. by apply (select_series_Ok _ _ _ Hsel). }
  split.
  { intros c Hc%Hal. apply drop_columns_Ok in Hdrop as [Hcols _].
    rewrite Hcols in Hc. by apply list_elem_of_filter in Hc as [? _]. }
  unfold split_sample_metadata in Hsplit. fold keep_cols in Hsplit.
  destruct sample_metadata as [d|md]; cbn in df; fold df in Hsplit;
    rewrite Hdrop, Hget in Hsplit; cbn in Hsplit.
  - destruct (Metadata_new _) as [md|e] eqn:Hmd; [|done]. cbn in Hsplit.
    injection Hsplit as <- _. by exists md.
  - by injection Hsplit as <- _.
Qed.

(** ** Feature metadata without a feature of the table (lines 104-111) *)

Lemma match_ids_feature_disjoint sm f t :
  NoDup (sample_ids t) → NoDup (observation_ids t) →
  list_to_set (observation_ids t) ∩ list_to_set (index f)
    = (∅ : gset string) →
  match_ids sm (Some f) t
  = (t, Raise (ValueError no_more_features_feature_metadata)).
Proof.
  intros Hs Hf Hempty.
  unfold match_ids, mbind, stateful_bind, read_table, raise. cbn.
  rewrite bool_decide_eq_false_2 by (by rewrite length_size_NoDup; auto).
  rewrite bool_decide_eq_false_2 by (by rewrite length_size_NoDup; auto).
  by rewrite Hempty, size_empty.
Qed.

(** X5. When feature metadata is supplied and shares no feature identifier
    with a table whose identifiers are all distinct, [ctf_helper] raises the
    [ValueError] that names [feature-metadata], with the caller's table
    untouched; this check comes before the one on the sample identifiers,
    so it is this message that is reported even when the sample metadata
    shares no sample with the table either. *)
Theorem disjoint_feature_metadata_raises sample_metadata individual_id_column
    state_columns n_components min_sample_count min_feature_count
    max_iterations_als max_iterations_rptm n_initializations
    feature_metadata (t : Table) sm all_sample_metadata fm :
  split_sample_metadata sample_metadata individual_id_column state_columns
    = Ok (sm, all_sample_metadata) →
  load_feature_metadata feature_metadata = Ok (Some fm) →
  NoDup (sample_ids t) → NoDup (observation_ids t) →
  list_to_set (observation_ids t) ∩ list_to_set (index fm)
    = (∅ : gset string) →
  ctf_helper sample_metadata individual_id_column state_columns
    n_components min_sample_count min_feature_count max_iterations_als
    max_iterations_rptm n_initializations feature_metadata t
  = (t, Raise (ValueError no_more_features_feature_metadata)).
Proof.
  intros Hsplit Hload Hs Hf Hempty.
  rewrite ctf_helper_stages, Hsplit, Hload.
  by rewrite (align_and_filter_raise _ _ _ _ _ _ _
                (match_ids_feature_disjoint sm fm t Hs Hf Hempty)).
Qed.

(** ** Failures after the table has been filtered *)

(** X6. The in-place filtering is not undone when a later step fails: once
    the alignment has gone through, the caller's table is the filtered one
    whatever [ctf_helper] then returns, and an exception of the
    factorization reaches the caller as it is, with the table already cut
    down. *)
Theorem later_failure_keeps_filtered_table sample_metadata
    individual_id_column state_columns n_components min_sample_count
    min_feature_count max_iterations_als max_iterations_rptm
    n_initializations feature_metadata (t t' : Table) sm all_sample_metadata
    fm sm' fm' :
  split_sample_metadata sample_metadata individual_id_column state_columns
    = Ok (sm, all_sample_metadata) →
  load_feature_metadata feature_metadata = Ok fm →
  align_and_filter sm fm min_sample_count min_feature_count t
    = (t', Ok (sm', fm')) →
  t' = threshold observation min_feature_count
         (threshold sample min_sample_count (restrict_to_metadata sm fm t)) ∧
  (ctf_helper sample_metadata individual_id_column state_columns
     n_components min_sample_count min_feature_count max_iterations_als
     max_iterations_rptm n_initializations feature_metadata t).1 = t' ∧
  ∀ e,
    fit_and_label t' sm' individual_id_column state_columns n_components
      max_iterations_als max_iterations_rptm n_initializations fm' = Raise e →
    ctf_helper sample_metadata individual_id_column state_columns
      n_components min_sample_count min_feature_count max_iterations_als
      max_iterations_rptm n_initializations feature_metadata t
    = (t', Raise e).
Proof.
  intros Hsplit Hload Ha.
  split; [by apply align_and_filter_Ok in Ha as [? _]|].
  rewrite ctf_helper_stages, Hsplit, Hload, Ha. cbn.
  split; [done|]. by intros e ->.
Qed.

(** ** What the alignment hands to the factorization (lines 101-121) *)

Lemma reindex_rows (labels : list string) (df df' : DataFrame string) :
  reindex labels df = Ok df' → NoDup labels →
  (∀ l, l ∈ labels → l ∈ index df) →
  index df' = labels ∧ column_names df' = column_names df ∧
  (∀ l, l ∈ labels → labelled_row df' l = labelled_row df l) ∧
  Forall2 (λ c c', dtype_of c' = dtype_of c) (columns df) (columns df').
Proof.
  intros Hre Hnd Hsub.
  pose proof (reindex_Ok _ _ _ Hre) as (_ & Hidx & Hnames & _).
  split; [done|]. split; [done|]. split.
  { intros l Hl. by eapply labelled_row_reindex. }
  unfold reindex in Hre. case_decide; [|done]. injection Hre as <-. cbn.
  apply Forall2_fmap_r, Forall_Forall2_diag, Forall_forall. intros c _. cbn.
  rewrite bool_decide_eq_false_2; [done|].
  intros (l & Hl & Hin)%list_elem_of_fmap.
  apply Hsub in Hin. clear -Hl Hin.
  induction (index df) as [|x idx IH]; [by apply elem_of_nil in Hin|].
  cbn in Hl. destruct (decide (x = l)); [done|].
  apply elem_of_cons in Hin as [?|Hin]; [congruence|].
  destruct (get_loc l idx); [done|]. by apply IH.
Qed.

(** X7. What the alignment hands on: the sample metadata reindexed to the
    identifiers it shares with the table, each once, every such row with
    the cells and the column types it came with (no missing value is
    introduced); every sample left in the table after the minimum-count
    filters still has its row there.  The same holds of the feature
    metadata and the features, when feature metadata is supplied. *)
Theorem retained_metadata_covers_table sm fm min_sample_count
    min_feature_count (t t' : Table) sm' fm' :
  align_and_filter sm fm min_sample_count min_feature_count t
    = (t', Ok (sm', fm')) →
  (NoDup (index sm') ∧
   (∀ s, s ∈ index sm' ↔ s ∈ sample_ids t ∧ s ∈ index sm) ∧
   (∀ s, s ∈ sample_ids t' → s ∈ index sm') ∧
   column_names sm' = column_names sm ∧
   (∀ s, s ∈ index sm' → labelled_row sm' s = labelled_row sm s) ∧
   Forall2 (λ c c', dtype_of c' = dtype_of c) (columns sm) (columns sm')) ∧
  match fm, fm' with
  | Some m, Some m' =>
      NoDup (index m') ∧
      (∀ f, f ∈ index m' ↔ f ∈ observation_ids t ∧ f ∈ index m) ∧
      (∀ f, f ∈ observation_ids t' → f ∈ index m') ∧
      column_names m' = column_names m ∧
      (∀ f, f ∈ index m' → labelled_row m' f = labelled_row m f) ∧
      Forall2 (λ c c', dtype_of c' = dtype_of c) (columns m) (columns m')
  | None, None => True
  | _, _ => False
  end.
Proof.
  intros Ha. apply align_and_filter_Ok in Ha as [-> Hm].
  pose proof (match_ids_reindexed _ _ _ _ _ _ Hm) as [Hsm Hfm].
  pose proof (restrict_to_metadata_ids sm fm t) as [Hsid Hoid].
  assert (∀ (X Y : list string) l,
            l ∈ elements (list_to_set X ∩ list_to_set Y : gset string)
            ↔ l ∈ X ∧ l ∈ Y) as Hel.
  { intros X Y l.
    by rewrite elem_of_elements, elem_of_intersection, !elem_of_list_to_set. }
  split.
  - destruct (reindex_rows _ _ _ Hsm) as (Hidx & Hnames & Hrows & Hdt).
    { apply NoDup_elements. }
    { intros l Hl. by apply Hel in Hl as [_ ?]. }
    rewrite Hidx. split; [apply NoDup_elements|]. split; [apply Hel|].
    split; [|done].
    intros s Hs. apply Hel.
    rewrite (proj2 (threshold_other_ids _ _)) in Hs.
    apply (threshold_ids_sub sample) in Hs.
    change (ids sample ?x) with (sample_ids x) in Hs.
    rewrite Hsid in Hs. by apply list_elem_of_filter in Hs as [? ?].
  - destruct fm as [m|]; [|by rewrite Hfm].
    destruct Hfm as (m' & -> & Hre).
    destruct (reindex_rows _ _ _ Hre) as (Hidx & Hnames & Hrows & Hdt).
    { apply NoDup_elements. }
    { intros l Hl. by apply Hel in Hl as [_ ?]. }
    rewrite Hidx. split; [apply NoDup_elements|]. split; [apply Hel|].
    split; [|done].
    intros f Hf. apply Hel. apply (threshold_ids_sub observation) in Hf.
    change (ids observation ?x) with (observation_ids x) in Hf.
    rewrite (proj1 (threshold_other_ids _ _)) in Hf.
    rewrite Hoid in Hf. by apply list_elem_of_filter in Hf as [? ?].
Qed.

(** ** The table the caller is left with *)

Lemma compress_sublist {A} (mask : list bool) (l : list A) :
  compress mask l `sublist_of` l.
Proof.
  revert mask. induction l as [|x l IH]; intros [|[] mask]; cbn;
    try apply sublist_nil_l.
  - by apply sublist_skip.
  - by apply sublist_cons.
Qed.

Lemma get_loc_compress {A} (mask : list bool) (keys : list string)
    (vals : list A) x :
  NoDup keys → x ∈ compress mask keys →
  get_loc x (compress mask keys) ≫= (compress mask vals !!.)
  = get_loc x keys ≫= (vals !!.).
Proof.
  revert mask vals. induction keys as [|k keys IH]; intros [|b mask] vals;
    cbn; try (by intros _ ?%elem_of_nil).
  intros [Hk Hnd]%NoDup_cons Hx. destruct vals as [|v vals].
  - destruct b; cbn; destruct (decide (k = x));
      by destruct (get_loc x (compress mask keys)), (get_loc x keys).
  - destruct b; cbn.
    + destruct (decide (k = x)) as [->|Hne]; [done|].
      apply elem_of_cons in Hx as [?|Hx]; [congruence|].
      specialize (IH mask vals Hnd Hx).
      by destruct (get_loc x (compress mask keys)), (get_loc x keys).
    + rewrite decide_False.
      2:{ intros ->. apply Hk. by eapply compress_elem_of. }
      specialize (IH mask vals Hnd Hx).
      by destruct (get_loc x (compress mask keys)), (get_loc x keys).
Qed.

Lemma table_compress_cell mask ax t f s :
  NoDup (sample_ids t) → NoDup (observation_ids t) →
  f ∈ observation_ids (table_compress mask ax t) →
  s ∈ sample_ids (table_compress mask ax t) →
  table_cell (table_compress mask ax t) f s = table_cell t f s.
Proof.
  intros Hs Hf Hfin Hsin. unfold table_cell. destruct ax; cbn in *.
  - destruct (get_loc f (observation_ids t)) as [i|]; [cbn|done].
    rewrite list_lookup_fmap.
    destruct (matrix_data t !! i) as [r|]; cbn.
    + by apply get_loc_compress.
    + by destruct (get_loc s (compress mask (sample_ids t))),
                  (get_loc s (sample_ids t)).
  - pose proof (get_loc_compress mask (observation_ids t) (matrix_data t) f
                  Hf Hfin) as Hloc.
    destruct (get_loc s (sample_ids t)) as [j|]; cbn.
    + destruct (get_loc f (compress mask (observation_ids t))),
               (get_loc f (observation_ids t)); cbn in *;
        first [by rewrite Hloc|by rewrite <- Hloc|done].
    + by destruct (get_loc f (compress mask (observation_ids t))),
                  (get_loc f (observation_ids t)).
Qed.

Lemma subtable_refl t : table_wf t → subtable t t.
Proof. intros Hwf. split; [done|]. by do 2 (split; [reflexivity|]). Qed.

Lemma subtable_trans t1 t2 t3 : subtable t1 t2 → subtable t2 t3 → subtable t1 t3.
Proof.
  intros (Hwf1 & Hs1 & Ho1 & Hc1) (Hwf2 & Hs2 & Ho2 & Hc2).
  split; [done|]. split; [by etrans|]. split; [by etrans|].
  intros f s Hf Hs. rewrite Hc1 by done.
  apply Hc2; by eapply elem_of_sublist.
Qed.

Lemma table_filter_subtable keep ax t :
  table_wf t → NoDup (sample_ids t) → NoDup (observation_ids t) →
  subtable (table_filter keep ax t) t ∧
  NoDup (sample_ids (table_filter keep ax t)) ∧
  NoDup (observation_ids (table_filter keep ax t)).
Proof.
  intros Hwf Hs Hf. split; [split; [by apply table_filter_wf|]|].
  - split; [|split].
    + destruct ax; cbn; [apply compress_sublist|done].
    + destruct ax; cbn; [done|apply compress_sublist].
    + intros f s. by apply table_compress_cell.
  - destruct ax; cbn; split; try done; by apply compress_NoDup.
Qed.

Lemma restrict_to_metadata_subtable sm fm t :
  table_wf t → NoDup (sample_ids t) → NoDup (observation_ids t) →
  subtable (restrict_to_metadata sm fm t) t ∧
  NoDup (sample_ids (restrict_to_metadata sm fm t)) ∧
  NoDup (observation_ids (restrict_to_metadata sm fm t)).
Proof.
  intros Hwf Hs Hf. unfold restrict_to_metadata. destruct fm as [m|].
  - destruct (table_filter_subtable
                (elements (list_to_set (observation_ids t)
                           ∩ list_to_set (index m) : gset string))
                observation t) as (H1 & Hs1 & Hf1); [done..|].
    set (t1 := table_filter _ observation t) in *.
    destruct (table_filter_subtable
                (elements (list_to_set (sample_ids t)
                           ∩ list_to_set (index sm) : gset string))
                sample t1) as (H2 & Hs2 & Hf2); [apply H1|done..|].
    split; [by eapply subtable_trans|done].
  - by apply table_filter_subtable.
Qed.

Lemma thresholds_subtable a b t :
  table_wf t → NoDup (sample_ids t) → NoDup (observation_ids t) →
  subtable (threshold observation b (threshold sample a t)) t ∧
  NoDup (sample_ids (threshold sample a t)) ∧
  NoDup (observation_ids (threshold sample a t)).
Proof.
  intros Hwf Hs Hf. unfold threshold at 2.
  destruct (table_filter_subtable
              (compress ((λ s, bool_decide (a ≤ s)) <$> table_sum sample t)
                        (ids sample t)) sample t) as (H1 & Hs1 & Hf1);
    [done..|].
  fold (threshold sample a t) in *.
  split; [|done]. unfold threshold at 1.
  destruct (table_filter_subtable
              (compress ((λ s, bool_decide (b ≤ s))
                           <$> table_sum observation (threshold sample a t))
                        (ids observation (threshold sample a t)))
              observation (threshold sample a t)) as (H2 & _);
    [apply H1|done..|].
  by eapply subtable_trans.
Qed.

Lemma match_ids_table sm fm t t1 r :
  match_ids sm fm t = (t1, r) →
  t1 = t ∨ (t1 = restrict_to_metadata sm fm t ∧
            NoDup (sample_ids t) ∧ NoDup (observation_ids t)).
Proof.
  unfold match_ids, mbind, stateful_bind, read_table, raise. cbn.
  case_bool_decide as Hs; [by intros [= <- _]; left|].
  case_bool_decide as Hf; [by intros [= <- _]; left|].
  rewrite length_size_NoDup in Hs, Hf.
  unfold restrict_to_metadata, match_feature_ids, filter_matched_features,
    filter_inplace, lift, raise, mbind, stateful_bind, mret, stateful_ret.
  destruct fm as [f|].
  - case_bool_decide as Hfidx; [by intros [= <- _]; left|].
    destruct (reindex _ f) as [m'|e]; [cbn|by intros [= <- _]; left].
    case_bool_decide as Hsidx; [by intros [= <- _]; left|]. cbn.
    destruct (reindex _ sm) as [s'|e]; intros [= <- _]; by right.
  - case_bool_decide as Hsidx; [by intros [= <- _]; left|]. cbn.
    destruct (reindex _ sm) as [s'|e]; intros [= <- _]; by right.
Qed.

Lemma align_and_filter_subtable sm fm a b t t' r :
  table_wf t → align_and_filter sm fm a b t = (t', r) → subtable t' t.
Proof.
  intros Hwf. unfold align_and_filter, mbind, stateful_bind.
  destruct (match_ids sm fm t) as [t1 r1] eqn:Hm.
  apply match_ids_table in Hm as Ht1.
  assert (subtable t1 t ∧
          (t1 = t ∨ NoDup (sample_ids t1) ∧ NoDup (observation_ids t1)))
    as [Hsub Hnd].
  { destruct Ht1 as [->|(-> & Hs & Hf)]; [split; [by apply subtable_refl|by left]|].
    destruct (restrict_to_metadata_subtable sm fm t) as (? & ? & ?);
      [done..|]. split; [done|by right]. }
  destruct r1 as [matched|e]; [|by intros [= <- _]].
  rewrite filter_min_counts_run. cbn. intros [= <- _].
  assert (NoDup (sample_ids t1) ∧ NoDup (observation_ids t1)) as [Hs Hf].
  { destruct Hnd as [->|?]; [|done]. destruct matched as [sm' fm'].
    by apply match_ids_Ok in Hm as (_ & ? & ? & _). }
  destruct (thresholds_subtable a b t1) as [H _]; [apply Hsub|done..|].
  by eapply subtable_trans.
Qed.

(** X8. However a call of [ctf_helper] ends, with a value or with an
    exception, the table the caller is left with is the table it passed
    with samples and features taken out and nothing else changed: it has
    the shape of a table, its sample and feature identifiers are those of
    the input in the order of the input, and the count of every feature in
    every sample that is left is the count the input had. *)
Theorem table_only_loses_samples_and_features sample_metadata
    individual_id_column state_columns n_components min_sample_count
    min_feature_count max_iterations_als max_iterations_rptm
    n_initializations feature_metadata (t t' : Table) r :
  table_wf t →
  ctf_helper sample_metadata individual_id_column state_columns
    n_components min_sample_count min_feature_count max_iterations_als
    max_iterations_rptm n_initializations feature_metadata t = (t', r) →
  subtable t' t.
Proof.
  intros Hwf. rewrite ctf_helper_stages.
  destruct (split_sample_metadata _ _ _) as [[sm al]|e];
    [|intros [= <- _]; by apply subtable_refl].
  destruct (load_feature_metadata _) as [fm|e];
    [|intros [= <- _]; by apply subtable_refl].
  unfold after_alignment.
  destruct (align_and_filter _ _ _ _ _) as [t1 [[sm' fm']|e]] eqn:Ha;
    intros [= <- _]; by eapply align_and_filter_subtable.
Qed.

(** ** Minimum counts at or below zero (lines 124-129) *)

Lemma Forall_zip_with_same {A} (P : A → Prop) (f : A → A → A) l1 l2 :
  (∀ x y, P x → P y → P (f x y)) →
  Forall P l1 → Forall P l2 → Forall P (zip_with f l1 l2).
Proof.
  intros Hf H1. revert l2. induction H1 as [|x l1 Hx _ IH]; intros l2 H2;
    [constructor|].
  destruct H2 as [|y l2 Hy H2]; cbn; [constructor|].
  constructor; [by apply Hf|by apply IH].
Qed.

Lemma table_sum_nonnegative ax t :
  nonnegative t → Forall (λ s, 0 ≤ s) (table_sum ax t).
Proof.
  unfold nonnegative. intros Hnn. destruct ax; cbn.
  - induction Hnn as [|r rows Hr _ IH]; cbn.
    + apply Forall_replicate. lia.
    + apply Forall_zip_with_same; [lia|done..].
  - apply Forall_fmap. eapply Forall_impl; [done|]. cbn.
    intros r Hr. unfold sum_row. induction Hr; cbn; lia.
Qed.

Lemma threshold_nonnegative ax m t :
  table_wf t → NoDup (ids ax t) → nonnegative t → m ≤ 0 →
  threshold ax m t = t.
Proof.
  intros Hwf Hnd Hnn Hm. apply threshold_all; [done..|].
  eapply Forall_impl; [by apply table_sum_nonnegative|]. cbn. lia.
Qed.

Lemma table_filter_nonnegative keep ax t :
  nonnegative t → nonnegative (table_filter keep ax t).
Proof.
  unfold nonnegative. intros Hnn. destruct ax; cbn.
  - apply Forall_fmap. eapply Forall_impl; [done|]. cbn.
    intros r Hr. by apply compress_Forall.
  - by apply compress_Forall.
Qed.

(** X9. With both minimum counts at or below zero and a table without
    negative counts, the two minimum-count filters remove nothing: after a
    successful call the caller's table is the input restricted to the
    identifiers shared with the metadata, empty samples and features
    included. *)
Theorem zero_minimum_counts_filter_nothing sample_metadata
    individual_id_column state_columns n_components min_sample_count
    min_feature_count max_iterations_als max_iterations_rptm
    n_initializations feature_metadata (t t' : Table) out :
  table_wf t → nonnegative t →
  min_sample_count ≤ 0 → min_feature_count ≤ 0 →
  ctf_helper sample_metadata individual_id_column state_columns
    n_components min_sample_count min_feature_count max_iterations_als
    max_iterations_rptm n_initializations feature_metadata t
  = (t', Ok out) →
  ∃ sm all_sample_metadata fm,
    split_sample_metadata sample_metadata individual_id_column state_columns
      = Ok (sm, all_sample_metadata) ∧
    load_feature_metadata feature_metadata = Ok fm ∧
    t' = restrict_to_metadata sm fm t ∧
    sample_ids t' = filter (λ s, s ∈ index sm) (sample_ids t) ∧
    observation_ids t'
    = match fm with
      | Some m => filter (λ f, f ∈ index m) (observation_ids t)
      | None => observation_ids t
      end.
Proof.
  intros Hwf Hnn Ha Hb Hrun.
  apply ctf_helper_Ok_inv in Hrun
    as (sm & al & fm & sm' & fm' & c & TF & Hsplit & Hload & Hal & _ & _).
  exists sm, al, fm. do 2 (split; [done|]).
  apply align_and_filter_Ok in Hal as [-> Hm].
  apply match_ids_Ok in Hm as (_ & Hs & Hf & _).
  destruct (restrict_to_metadata_subtable sm fm t) as ((Hwf1 & _) & Hs1 & Hf1);
    [done..|].
  assert (nonnegative (restrict_to_metadata sm fm t)) as Hnn1.
  { unfold restrict_to_metadata. apply table_filter_nonnegative.
    destruct fm; [by apply table_filter_nonnegative|done]. }
  rewrite (threshold_nonnegative sample) by done.
  rewrite (threshold_nonnegative observation) by done.
  split; [done|]. apply restrict_to_metadata_ids.
Qed.

(** ** The keys of the returned dictionaries (lines 174-203) *)

Lemma fst_zip_firstn {A B} (l : list A) (k : list B) :
  (zip l k).*1 = firstn (length k) l.
Proof.
  revert k. induction l as [|x l IH]; intros [|y k]; cbn; try done.
  by rewrite IH.
Qed.

Lemma loop_items_keys conditions TF :
  (loop_items conditions TF).*1
  = firstn (length (subject_distances TF)
            `min` (length (subject_trajectory TF)
                   `min` length (feature_trajectory TF)))
           conditions.
Proof. unfold loop_items. by rewrite fst_zip_firstn, !length_zip_with. Qed.

(** X10. The three dictionaries [ctf_helper] returns have the same keys in
    the same order: the conditions the loop ran over (those for which the
    factorization has a distance matrix and both trajectories), each once,
    at the place of its first occurrence; when the conditions are distinct
    the keys are that list of conditions itself. *)
Theorem dictionaries_share_keys sample_metadata individual_id_column
    state_columns n_components min_sample_count min_feature_count
    max_iterations_als max_iterations_rptm n_initializations
    feature_metadata (t t' : Table) out :
  ctf_helper sample_metadata individual_id_column state_columns
    n_components min_sample_count min_feature_count max_iterations_als
    max_iterations_rptm n_initializations feature_metadata t
  = (t', Ok out) →
  ∃ sm' fm' conditions TF,
    fit_and_label t' sm' individual_id_column state_columns n_components
      max_iterations_als max_iterations_rptm n_initializations fm'
      = Ok (conditions, TF) ∧
    let keys := (distances out).*1 in
    let ran_over :=
      firstn (length (subject_distances TF)
              `min` (length (subject_trajectory TF)
                     `min` length (feature_trajectory TF)))
             conditions in
    NoDup keys ∧
    (subject_trajectories out).*1 = keys ∧
    (feature_trajectories out).*1 = keys ∧
    keys = insertion_order ran_over ∧
    (∀ c, c ∈ keys ↔ c ∈ ran_over) ∧
    head keys = head ran_over ∧
    (NoDup conditions → keys = ran_over).
Proof.
  intros Hrun.
  destruct (ctf_helper_keys _ _ _ _ _ _ _ _ _ _ _ _ _ Hrun)
    as (sm' & fm' & conditions & TF & Hfit & Hkd & Hks & Hkf).
  exists sm', fm', conditions, TF. split; [done|]. cbn zeta.
  rewrite loop_items_keys in Hkd. rewrite Hks, Hkf, Hkd.
  pose proof (insertion_order_spec
                (firstn (length (subject_distances TF)
                         `min` (length (subject_trajectory TF)
                                `min` length (feature_trajectory TF)))
                        conditions)) as (Hnd & Hmem & Hhd & Heq).
  do 6 (split; [done|]). intros Hc. apply Heq.
  eapply sublist_NoDup; [exact Hc|apply sublist_take].
Qed.

(** ** When the ordination can be built (lines 164-171) *)

Lemma filter_name_nil (l : string) (cols : list Series) :
  filter (λ c, name c = l) cols = [] ↔ l ∉ name <$> cols.
Proof.
  induction cols as [|c cols IH]; cbn [fmap list_fmap].
  - split; [intros _; apply not_elem_of_nil|done].
  - rewrite filter_cons, not_elem_of_cons.
    destruct (decide (name c = l)) as [Hc|Hc].
    + split; [done|]. by intros [? _].
    + rewrite IH. split; [by intros; split|by intros [_ ?]].
Qed.

Lemma select_series_present labels cols :
  (∀ l, l ∈ labels → l ∈ name <$> cols) →
  ∃ sel, select_series labels cols = Ok sel.
Proof.
  induction labels as [|l labels IH]; intros Hall; [by exists []|].
  destruct IH as [rest Hrest]. { intros l' Hl'. apply Hall. by right. }
  cbn. rewrite Hrest.
  destruct (filter (λ c, name c = l) cols) as [|c found] eqn:Hf.
  - apply filter_name_nil in Hf. destruct Hf. apply Hall. by left.
  - by eexists.
Qed.

Lemma select_series_absent labels cols l :
  l ∈ labels → l ∉ name <$> cols →
  ∃ l', l' ∈ labels ∧ (l' ∉ name <$> cols) ∧
        select_series labels cols = Raise (KeyError l').
Proof.
  induction labels as [|l0 labels IH]; intros Hl Hmiss;
    [by apply elem_of_nil in Hl|].
  cbn. destruct (filter (λ c, name c = l0) cols) as [|c found] eqn:Hf.
  - apply filter_name_nil in Hf. exists l0. split; [by left|done].
  - apply elem_of_cons in Hl as [->|Hl].
    + apply filter_name_nil in Hmiss. congruence.
    + destruct (IH Hl Hmiss) as (l' & Hl' & Hmiss' & ->).
      exists l'. split; [by right|done].
Qed.

(** X11. The ordination is built exactly when every column of the feature
    loadings whose name contains PC is also a column of the subject
    loadings; a column of the feature loadings with PC in its name that the
    subject loadings lack (a taxonomy column, say) makes the selection of
    [keep_PC] from the subject loadings fail with a [KeyError] naming such a
    column. *)
Theorem ordination_needs_shared_columns (TF : TensorFactorization) :
  ((∀ c, c ∈ keep_PC TF → c ∈ column_names (subjects TF)) →
   ∃ ord, build_ordination TF = Ok ord) ∧
  (∀ c, c ∈ column_names (features TF) → contains "PC" c = true →
        c ∉ column_names (subjects TF) →
        ∃ c', c' ∈ keep_PC TF ∧ (c' ∉ column_names (subjects TF)) ∧
              build_ordination TF = Raise (KeyError c')).
Proof.
  unfold build_ordination, getitem_columns. split.
  - intros Hall.
    destruct (select_series_present (keep_PC TF) (columns (subjects TF)))
      as [ss ->]; [done|].
    destruct (select_series_present (keep_PC TF) (columns (features TF)))
      as [fs ->]; [|by eexists].
    intros l Hl. unfold keep_PC in Hl.
    by apply list_elem_of_filter in Hl as [_ ?].
  - intros c Hc Hpc Hmiss.
    destruct (select_series_absent (keep_PC TF) (columns (subjects TF)) c)
      as (c' & Hc' & Hmiss' & ->); [|done|by exists c'].
    unfold keep_PC. by apply list_elem_of_filter.
Qed.

(** ** What the stand-alone commands leave on disk *)

Lemma path_join_inj d f1 f2 : path_join d f1 = path_join d f2 → f1 = f2.
Proof.
  unfold path_join. repeat case_bool_decide; [done|..].
  - apply (inj (String.append d)).
  - intros Heq%(inj (String.append d)).
    by apply (inj (String.append "/")) in Heq.
Qed.

Lemma makedirs_Ok d fs :
  d ≠ "" → Forall (λ p, files fs !! p = None) (ancestors d ++ [d]) →
  makedirs d fs
  = ({| files := files fs;
        dirs := list_to_set (ancestors d ++ [d]) ∪ dirs fs |}, Ok ()).
Proof.
  intros Hne Hfree. unfold makedirs. rewrite bool_decide_eq_false_2 by done.
  assert (filter (λ p, is_Some (files fs !! p)) (ancestors d ++ [d]) = [])
    as ->; [|done].
  induction Hfree as [|p l Hp _ IH]; [done|].
  rewrite filter_cons, decide_False; [done|]. rewrite Hp. by intros [? ?].
Qed.

(** Whatever [makedirs] answers, it leaves the files alone; when it goes
    through, the directory was named, neither it nor one above it was a
    file, and it is there afterwards with those above it. *)
Lemma makedirs_inv d fs fs' r :
  makedirs d fs = (fs', r) →
  files fs' = files fs ∧
  match r with
  | Ok _ =>
      d ≠ "" ∧
      Forall (λ p, files fs !! p = None) (ancestors d ++ [d]) ∧
      dirs fs' = list_to_set (ancestors d ++ [d]) ∪ dirs fs
  | Raise _ => fs' = fs
  end.
Proof.
  unfold makedirs. case_bool_decide as Hd; [by intros [= <- <-]|].
  destruct (filter _ (ancestors d ++ [d])) as [|p l] eqn:Hf;
    intros [= <- <-]; [|done].
  split; [done|]. split; [done|]. split; [|done].
  apply Forall_forall. intros p Hp.
  destruct (files fs !! p) as [x|] eqn:Hx; [|done].
  assert (p ∈ filter (λ p, is_Some (files fs !! p)) (ancestors d ++ [d]))
    as Hin by (apply list_elem_of_filter; by rewrite Hx).
  rewrite Hf in Hin. by apply elem_of_nil in Hin.
Qed.

Lemma write_file_inv path f fs fs' r :
  write_file path f fs = (fs', r) →
  match r with
  | Ok _ =>
      (path ∉ dirs fs) ∧
      fs' = {| files := <[path := f]> (files fs); dirs := dirs fs |}
  | Raise _ => fs' = fs
  end.
Proof. unfold write_file. case_bool_decide; by intros [= <- <-]. Qed.

Lemma not_dir_after_makedirs d f (ds : gset string) :
  f ≠ "" → path_join d f ∉ ds →
  path_join d f ∉ list_to_set (ancestors d ++ [d]) ∪ ds.
Proof.
  intros Hf Hds. rewrite elem_of_union, elem_of_list_to_set.
  intros [Hin|?]; [|done]. revert Hin. by apply path_join_not_above.
Qed.

(** X12. What the [rclr] subcommand leaves behind.  When it succeeds, the
    table under the path given last for [--in-biom] was read and
    transformed, the directory given last for [--output-dir] is there with
    those above it, the one file [rclr-table.biom] in it holds the
    transformed table, and every other path holds what it held; when it
    fails, for a bad command line, an unreadable table, a failing
    transformation, an output directory that cannot be made or a directory
    standing where the file should go, no file is written or changed. *)
Theorem rclr_command_outcome (argv : list (string * string))
    (fs fs' : filesystem) r :
  rclr_command argv fs = (fs', r) →
  match r with
  | Ok _ =>
      ∃ in_biom output_dir f t out,
        option_value "--in-biom" argv = Some in_biom ∧
        option_value "--output-dir" argv = Some output_dir ∧
        files fs !! in_biom = Some f ∧
        parse_biom_table f = Ok t ∧
        rclr_transformation t = Ok out ∧
        wrote output_dir [("rclr-table.biom", biom_values out)] fs fs'
  | Raise _ => files fs' = files fs
  end.
Proof.
  unfold rclr_command, mbind, stateful_bind, lift.
  rewrite click_invoke_rclr.
  destruct (filter _ argv) as [|[o' v'] rest]; [|by intros [= <- <-]].
  destruct (option_value "--in-biom" argv) as [b|] eqn:Hb;
    [|by intros [= <- <-]].
  destruct (option_value "--output-dir" argv) as [o|] eqn:Ho;
    [|by intros [= <- <-]].
  unfold standalone_rclr, load_table, read_file, lift, raise,
    mbind, stateful_bind, mret, stateful_ret. cbn.
  destruct (files fs !! b) as [f|] eqn:Hin; [|by intros [= <- <-]].
  destruct (parse_biom_table f) as [t|e] eqn:Hparse; [|by intros [= <- <-]].
  destruct (rclr_transformation t) as [out|e] eqn:Hout;
    [|by intros [= <- <-]].
  destruct (makedirs o fs) as [fs1 [[]|e]] eqn:Hmk;
    apply makedirs_inv in Hmk as [Hfiles Hmk];
    [|intros [= <- <-]; by subst].
  destruct Hmk as (Hne & Hfree & Hdirs).
  destruct (write_file _ _ fs1) as [fs2 [[]|e]] eqn:Hw;
    apply write_file_inv in Hw; intros [= <- <-];
    [|by subst].
  destruct Hw as [Hnd ->]. exists b, o, f, t, out. do 5 (split; [done|]).
  split; [done|]. cbn [files]. rewrite Hfiles. split.
  - intros p x [= -> ->]%list_elem_of_singleton. apply lookup_insert_eq.
  - intros q Hq. apply lookup_insert_ne. intros Heq.
    apply (Hq "rclr-table.biom"); [by left|done].
Qed.

(** X13. The callback of the [phylogenetic-rclr] subcommand, called with a
    path object for the tree, writes its three artifacts: given a table and
    a tree that can be read, an output directory that is named and can be
    made (neither it nor a directory above it is a file) and no directory
    standing where an artifact should go, the labelled phylogeny, the
    transformed table and the count table are each found under their own
    name in the output directory afterwards (no one of them overwrites
    another), and every other path holds what it held. *)
Theorem phylogenetic_rclr_callback_writes (in_biom : pyobj)
    (in_tree output_dir : string) (fs : filesystem) f t tree counts_by_node
    rclr_table phylogeny :
  files fs !! fspath in_biom = Some f →
  parse_biom_table f = Ok t →
  files fs !! in_tree = Some (newick tree) →
  phylogenetic_rclr_transformation t tree
    = Ok (counts_by_node, rclr_table, phylogeny) →
  output_dir ≠ "" →
  Forall (λ p, files fs !! p = None) (ancestors output_dir ++ [output_dir]) →
  Forall (λ name, path_join output_dir name ∉ dirs fs)
         ["labeled-phylogeny.tsv"; "phylo-rclr-table.biom";
          "phylo-count-table.biom"] →
  ∃ fs',
    standalone_phylogenetic_rclr in_biom (py_path in_tree) output_dir fs
      = (fs', Ok ()) ∧
    wrote output_dir
          [("labeled-phylogeny.tsv", newick phylogeny);
           ("phylo-rclr-table.biom", biom_values rclr_table);
           ("phylo-count-table.biom", biom_counts counts_by_node)] fs fs'.
Proof.
  intros Hin Hparse Htree Hrun Hne Hfree Hnd.
  apply Forall_cons in Hnd as [Hd1 Hnd]. apply Forall_cons in Hnd as [Hd2 Hnd].
  apply Forall_cons in Hnd as [Hd3 _].
  unfold standalone_phylogenetic_rclr, load_table, py_open, read_file, lift,
    raise, mbind, stateful_bind, mret, stateful_ret.
  rewrite Hin, Hparse, Htree. cbn. rewrite Hrun.
  rewrite (makedirs_Ok _ _ Hne Hfree).
  unfold write_file. cbn [files dirs].
  rewrite !bool_decide_eq_false_2 by by apply not_dir_after_makedirs.
  eexists. split; [done|]. split; [done|]. cbn [files]. split.
  - intros p x Hp. rewrite !elem_of_cons in Hp.
    destruct Hp as [[= -> ->]|[[= -> ->]|[[= -> ->]|?%elem_of_nil]]];
      [|..|done].
    + rewrite lookup_insert_ne by by intros ?%path_join_inj.
      rewrite lookup_insert_ne by by intros ?%path_join_inj.
      apply lookup_insert_eq.
    + rewrite lookup_insert_ne by by intros ?%path_join_inj.
      apply lookup_insert_eq.
    + apply lookup_insert_eq.
  - intros q Hq.
    rewrite !lookup_insert_ne; [done|..]; intros Heq; symmetry in Heq;
      revert Heq; apply Hq; cbn; rewrite !elem_of_cons; auto.
Qed.

(** ** Distances that scikit-bio accepts (lines 182-188) *)

Lemma mapM_total {A B} (f : A → result B) l :
  Forall (λ x, ∃ y, f x = Ok y) l → ∃ k, mapM f l = Ok k.
Proof.
  induction 1 as [|x l [y Hy] _ [k Hk]]; [by exists []|].
  exists (y :: k). cbn. by rewrite Hy, Hk.
Qed.

Lemma take_Ok_Forall2 {A} indices (l r : list A) :
  take indices l = Ok r → Forall2 (λ i x, l !! i = Some x) indices r.
Proof.
  revert r. induction indices as [|i indices IH]; intros r; cbn.
  - intros [= <-]. constructor.
  - destruct (l !! i) as [x|] eqn:Hi; [|done].
    destruct (take indices l) as [rest|e]; [|done]. cbn. intros [= <-].
    constructor; [done|by apply IH].
Qed.

Lemma take_total {A} indices (l : list A) :
  Forall (λ i, (i < length l)%nat) indices → ∃ r, take indices l = Ok r.
Proof.
  induction 1 as [|i indices Hi _ [r Hr]]; [by exists []|].
  apply lookup_lt_is_Some_2 in Hi as [x Hx]. exists (x :: r). cbn.
  by rewrite Hx, Hr.
Qed.

Lemma forallb_seq (P : nat → bool) n :
  forallb P (seq 0 n) = true ↔ ∀ i, (i < n)%nat → P i = true.
Proof.
  rewrite forallb_forall. split.
  - intros H i Hi. apply H, in_seq. lia.
  - intros H i Hi%in_seq. apply H. lia.
Qed.

Lemma is_square_spec m :
  is_square m = true ↔ Forall (λ r, length r = length m) m.
Proof.
  unfold is_square. rewrite forallb_forall, Forall_forall.
  setoid_rewrite <- list_elem_of_In.
  by setoid_rewrite bool_decide_eq_true.
Qed.

Lemma kept_positions_lt ids smi :
  Forall (λ i, (i < length ids)%nat) (kept_positions ids smi).
Proof.
  apply Forall_forall. intros i [_ Hi%elem_of_seq]%list_elem_of_filter. lia.
Qed.

Lemma kept_labels_NoDup ids smi indices l :
  NoDup indices → Forall (kept_position ids smi) indices →
  Forall2 (λ i x, ids !! i = Some x) indices l → NoDup l.
Proof.
  intros Hnd Hkept Hl.
  induction Hl as [|i x indices l Hi Hl IH]; [constructor|].
  apply NoDup_cons in Hnd as [Hnotin Hnd].
  apply Forall_cons in Hkept as [Hki Hkept].
  constructor; [|by apply IH].
  intros [k Hk]%list_elem_of_lookup_1.
  destruct (Forall2_lookup_r _ _ _ _ _ Hl Hk) as (j & Hj & Hjx).
  pose proof (Forall_lookup_1 _ _ _ _ Hkept Hj) as Hkj.
  assert (i ≠ j) as Hij.
  { intros ->. apply Hnotin. by eapply list_elem_of_lookup_2. }
  unfold kept_position in Hki, Hkj. rewrite Hi in Hki. rewrite Hjx in Hkj.
  destruct Hki as [_ Hlast_i], Hkj as [_ Hlast_j].
  destruct (decide (i < j)%nat).
  - apply Hlast_i. apply list_elem_of_lookup. exists (j - S i)%nat.
    rewrite lookup_drop. by replace (S i + (j - S i))%nat with j by lia.
  - apply Hlast_j. apply list_elem_of_lookup. exists (i - S j)%nat.
    rewrite lookup_drop. by replace (S j + (i - S j))%nat with i by lia.
Qed.

Lemma kept_labels_elem_of ids smi l s :
  Forall2 (λ i x, ids !! i = Some x) (kept_positions ids smi) l →
  s ∈ l ↔ s ∈ ids ∧ s ∈ smi.
Proof.
  intros Hl. split.
  - intros [k Hk]%list_elem_of_lookup_1.
    destruct (Forall2_lookup_r _ _ _ _ _ Hl Hk) as (i & Hi & His).
    apply list_elem_of_lookup_2 in Hi.
    apply list_elem_of_filter in Hi as [Hkept _].
    unfold kept_position in Hkept. rewrite His in Hkept.
    split; [by eapply list_elem_of_lookup_2|by destruct Hkept].
  - intros [Hin Hsm].
    apply list_elem_of_split_r in Hin as (l1 & l2 & -> & Hlast).
    assert (length l1 ∈ kept_positions (l1 ++ s :: l2) smi) as Hpos.
    { apply list_elem_of_filter. split.
      - unfold kept_position. rewrite list_lookup_middle by done.
        split; [done|]. rewrite drop_app_ge by lia.
        by replace (S (length l1) - length l1)%nat with 1%nat by lia.
      - apply elem_of_seq. rewrite length_app. cbn. lia. }
    apply list_elem_of_lookup_1 in Hpos as [k Hk].
    destruct (Forall2_lookup_l _ _ _ _ _ Hl Hk) as (x & Hx & Hix).
    rewrite list_lookup_middle in Hix by done. injection Hix as <-.
    by eapply list_elem_of_lookup_2.
Qed.

Lemma matched_indices_total ids sm :
  matched_indices ids sm = Ok (kept_positions ids (index sm)).
Proof.
  destruct (matched_indices ids sm) as [indices|e] eqn:H.
  - by apply matched_indices_spec in H as ->.
  - exfalso. unfold matched_indices in H.
    set (look := λ ind, match ind_dict ids !! ind with
                        | Some ind_i => Ok ind_i
                        | None => Raise (KeyError ind)
                        end) in H.
    destruct (mapM_total look
                (elements (dom (ind_dict ids)
                           ∩ list_to_set (index sm) : gset string)))
      as [found Hfound]; [|by rewrite Hfound in H].
    apply Forall_forall. intros k Hk.
    apply elem_of_elements, elem_of_intersection in Hk as [Hd _].
    apply elem_of_dom in Hd as [i Hi]. exists i. unfold look. by rewrite Hi.
Qed.

Lemma submatrix_total indices m :
  is_square m = true → Forall (λ i, (i < length m)%nat) indices →
  ∃ data, submatrix indices m = Ok data ∧
    length data = length indices ∧
    Forall (λ r, length r = length indices) data ∧
    ∀ k k' i i', indices !! k = Some i → indices !! k' = Some i' →
                 entry data k k' = entry m i i'.
Proof.
  intros Hsq%is_square_spec Hlt.
  destruct (take_total indices m Hlt) as [rows Hrows].
  pose proof (take_Ok_Forall2 _ _ _ Hrows) as Hr2.
  assert (Forall (λ r, ∃ r', take indices r = Ok r') rows) as Htot.
  { apply Forall_forall. intros r [k Hk]%list_elem_of_lookup_1.
    destruct (Forall2_lookup_r _ _ _ _ _ Hr2 Hk) as (i & _ & Hi).
    apply take_total. by rewrite (Forall_lookup_1 _ _ _ _ Hsq Hi). }
  destruct (mapM_total _ _ Htot) as [data Hdata].
  exists data. unfold submatrix. rewrite Hrows. cbn. split; [done|].
  apply mapM_Ok in Hdata.
  assert (Forall2 (λ r r', Forall2 (λ i x, r !! i = Some x) indices r')
                  rows data) as Hd2.
  { eapply Forall2_impl; [done|]. intros r r'. apply take_Ok_Forall2. }
  split.
  { rewrite <- (Forall2_length _ _ _ Hd2). symmetry. by eapply Forall2_length. }
  split.
  { apply Forall_forall. intros r' [k Hk]%list_elem_of_lookup_1.
    destruct (Forall2_lookup_r _ _ _ _ _ Hd2 Hk) as (r & _ & Hrr').
    symmetry. by eapply Forall2_length. }
  intros k k' i i' Hk Hk'.
  destruct (Forall2_lookup_l _ _ _ _ _ Hr2 Hk) as (r & Hrk & Hmi).
  destruct (Forall2_lookup_l _ _ _ _ _ Hd2 Hrk) as (r' & Hdk & Hrr').
  destruct (Forall2_lookup_l _ _ _ _ _ Hrr' Hk') as (x & Hx & Hrx).
  unfold entry. rewrite Hdk, Hmi. cbn. by rewrite Hx, Hrx.
Qed.

(** X14. Whenever the distances of a condition are what scikit-bio asks of
    a distance matrix over the trajectory index (square of that size,
    hollow, symmetric) and the trajectory shares an identifier with the
    retained sample metadata, matching them to the metadata succeeds: the
    matrix that comes out has each shared identifier exactly once, is
    again square of the right size, hollow and symmetric, and no check of
    the [DistanceMatrix] constructor can fail, also for a trajectory index
    that repeats a label. *)
Theorem valid_distances_are_matched (straj sm : DataFrame string)
    (dist : list (list Q)) :
  valid_distances (length (index straj)) dist →
  (∃ s, s ∈ index straj ∧ s ∈ index sm) →
  ∃ dm, match_distances straj sm dist = Ok dm ∧
    NoDup (dm_ids dm) ∧
    (∀ s, s ∈ dm_ids dm ↔ s ∈ index straj ∧ s ∈ index sm) ∧
    valid_distances (length (dm_ids dm)) (dm_data dm).
Proof.
  intros (Hlen & Hsq & Hhol & Hsym) (s & Hs & Hsm).
  unfold match_distances. rewrite matched_indices_total. cbn.
  set (indices := kept_positions (index straj) (index sm)).
  pose proof (kept_positions_lt (index straj) (index sm)) as Hlt.
  fold indices in Hlt.
  destruct (submatrix_total indices dist)
    as (data & -> & Hdlen & Hdrows & Hentry); [done|by rewrite Hlen|]. cbn.
  destruct (take_total indices (index straj) Hlt) as [ids Hids].
  rewrite Hids. cbn. apply take_Ok_Forall2 in Hids.
  pose proof (Forall2_length _ _ _ Hids) as Hilen.
  assert (NoDup ids) as Hnd.
  { eapply (kept_labels_NoDup (index straj) (index sm) indices); [| |done].
    - apply NoDup_filter, NoDup_seq.
    - apply Forall_forall. by intros i [? _]%list_elem_of_filter. }
  assert (∀ x, x ∈ ids ↔ x ∈ index straj ∧ x ∈ index sm) as Hmem
    by (intros x; by apply kept_labels_elem_of).
  assert (is_square data = true) as Hdsq.
  { apply is_square_spec. by rewrite Hdlen. }
  assert (∀ k, (k < length data)%nat →
               ∃ i, indices !! k = Some i ∧ (i < length dist)%nat) as Hpos.
  { intros k Hk. rewrite Hdlen in Hk.
    apply lookup_lt_is_Some_2 in Hk as [i Hi]. exists i. split; [done|].
    rewrite Hlen. by eapply Forall_lookup_1 in Hlt. }
  assert (is_hollow data = true) as Hdhol.
  { apply forallb_seq. intros k Hk.
    destruct (Hpos k Hk) as (i & Hi & Hilt).
    rewrite (Hentry k k i i) by done.
    by apply (proj1 (forallb_seq _ _) Hhol). }
  assert (is_symmetric data = true) as Hdsym.
  { apply forallb_seq. intros k Hk. apply forallb_seq. intros k' Hk'.
    destruct (Hpos k Hk) as (i & Hi & Hilt).
    destruct (Hpos k' Hk') as (i' & Hi' & Hilt').
    rewrite (Hentry k k' i i'), (Hentry k' k i' i) by done.
    pose proof (proj1 (forallb_seq _ _) Hsym i Hilt) as Hrow. cbn in Hrow.
    by apply (proj1 (forallb_seq _ _) Hrow). }
  assert (data ≠ []) as Hne.
  { intros ->. cbn in Hdlen. rewrite <- Hdlen in Hilen.
    destruct ids; [|done].
    assert (s ∈ @nil string) as Hin by by apply Hmem.
    by apply elem_of_nil in Hin. }
  unfold DistanceMatrix_new.
  rewrite bool_decide_eq_false_2 by done. rewrite Hdsq. cbn.
  rewrite bool_decide_eq_true_2 by done. cbn.
  rewrite bool_decide_eq_true_2 by congruence. cbn.
  rewrite Hdhol, Hdsym. cbn.
  eexists. split; [done|]. cbn. split; [done|]. split; [done|].
  unfold valid_distances. by rewrite <- Hilen, Hdlen.
Qed.

(** ** The identifiers of a merged trajectory (lines 192-198) *)

Lemma string_compare_trans a b c :
  String.compare a b ≠ Gt → String.compare b c ≠ Gt →
  String.compare a c ≠ Gt.
Proof.
  revert b c. induction a as [|x a IH]; intros [|y b] [|z c];
    cbn [String.compare]; try done.
  unfold Ascii.compare.
  destruct (N.compare_spec (N_of_ascii x) (N_of_ascii y)) as [Hxy|Hxy|Hxy],
           (N.compare_spec (N_of_ascii y) (N_of_ascii z)) as [Hyz|Hyz|Hyz],
           (N.compare_spec (N_of_ascii x) (N_of_ascii z)) as [Hxz|Hxz|Hxz];
    try done; try (intros; lia); apply IH.
Qed.

Lemma str_le_trans : Transitive str_le.
Proof.
  intros a b c. unfold str_le, String.leb.
  pose proof (string_compare_trans a b c) as H.
  destruct (String.compare a b), (String.compare b c),
           (String.compare a c); try done; intros; by destruct H.
Qed.

Lemma StronglySorted_filter {A} (R : relation A) (P : A → Prop)
    `{∀ x, Decision (P x)} l :
  StronglySorted R l → StronglySorted R (filter P l).
Proof.
  induction 1 as [|x l Hl IH Hx]; [constructor|].
  rewrite filter_cons. destruct (decide (P x)); [|done].
  constructor; [done|]. apply Forall_forall.
  intros y [_ Hy]%list_elem_of_filter. by eapply Forall_forall in Hx.
Qed.

Lemma frame_rows_index {I} (idx : list I) cols :
  (frame_rows idx cols).*1 = idx.
Proof.
  revert cols. induction idx as [|i idx IH]; intros cols; [done|].
  cbn. by rewrite IH.
Qed.

Lemma get_loc_elem_of {I} `{EqDecision I} (l : I) idx p :
  get_loc l idx = Some p → l ∈ idx.
Proof.
  revert p. induction idx as [|x idx IH]; intros p; [done|]. cbn.
  destruct (decide (x = l)) as [->|]; [by left|].
  destruct (get_loc l idx) as [q|]; [|done]. intros _. right. by eapply IH.
Qed.

(** X15. The rows of a subject trajectory come out in ascending order of
    their identifier and no identifier comes twice; every identifier is one
    of the retained metadata and (the trajectory having a loading column)
    one of the fitted trajectory; and an identifier of the metadata is
    there exactly when its loadings hold no missing value.  As for the
    merge itself, the metadata is taken with a duplicate-free index and
    with no column named like a loading column. *)
Theorem trajectory_identifiers_sorted (straj al tr : DataFrame string) :
  merge_trajectory straj al = Ok tr →
  NoDup (index al) →
  column_names straj ## column_names al →
  Sorted str_le (index tr) ∧ NoDup (index tr) ∧
  (∀ s, s ∈ index tr ↔
        s ∈ index al ∧ Forall (λ v, v ≠ NaN) (labelled_row straj s)) ∧
  (columns straj ≠ [] → ∀ s, s ∈ index tr → s ∈ index straj).
Proof.
  intros Hrun Hnd Hdisj.
  destruct (merge_trajectory_Ok _ _ _ Hrun Hnd Hdisj) as (_ & _ & Hrows).
  assert (index tr
          = filter (λ l, Forall (λ v, v ≠ NaN) (labelled_row straj l))
                   (safe_sort_index (index al))) as Hidx.
  { rewrite <- (frame_rows_index (index tr) (values <$> columns tr)).
    fold (rows tr). rewrite Hrows, <- list_fmap_compose.
    apply list_fmap_id. }
  destruct (safe_sort_index_spec (index al)) as [Hsorted Hperm].
  assert (∀ s, s ∈ index tr ↔
               s ∈ index al ∧ Forall (λ v, v ≠ NaN) (labelled_row straj s))
    as Hmem.
  { intros s. rewrite Hidx, list_elem_of_filter, Hperm.
    clear. split; intros [? ?]; by split. }
  split; [|split; [|split; [done|]]].
  - rewrite Hidx. apply StronglySorted_Sorted, StronglySorted_filter.
    apply Sorted_StronglySorted; [apply str_le_trans|done].
  - rewrite Hidx. apply NoDup_filter. by rewrite Hperm.
  - intros Hcols s [_ Hcomplete]%Hmem. unfold labelled_row in Hcomplete.
    destruct (get_loc s (index straj)) as [p|] eqn:Hp;
      [by eapply get_loc_elem_of|].
    destruct (columns straj) as [|c cols]; [done|].
    by apply Forall_cons in Hcomplete as [? _].
Qed.

(** ** The two forms of the sample metadata (lines 66-88) *)

Lemma filter_all_id {A} (P : A → Prop) `{∀ x, Decision (P x)} (l : list A) :
  Forall P l → filter P l = l.
Proof.
  induction 1 as [|x l Hx _ IH]; [done|].
  by rewrite filter_cons, decide_True, IH.
Qed.

(** X16. A raw frame and the qiime2 object around the same frame are
    treated alike, but for two things: the raw frame's key columns go
    through the validator, and its boolean looking auxiliary columns are
    dropped.  When the validator returns the key columns as they are and
    no auxiliary column is boolean looking, [ctf_helper] does the same to
    the table and returns the same, whichever form it is given. *)
Theorem raw_frame_agrees_with_metadata_object (df : DataFrame string)
    individual_id_column state_columns n_components min_sample_count
    min_feature_count max_iterations_als max_iterations_rptm
    n_initializations feature_metadata (t : Table) :
  (∀ kept,
     getitem_columns (state_columns ++ [individual_id_column]) df = Ok kept →
     Metadata_new kept = Ok {| to_dataframe := kept |}) →
  Forall (λ c, name c ∈ (state_columns ++ [individual_id_column])
               ∨ survives_bool_drop c) (columns df) →
  ctf_helper (as_DataFrame df) individual_id_column state_columns
    n_components min_sample_count min_feature_count max_iterations_als
    max_iterations_rptm n_initializations feature_metadata t
  = ctf_helper (as_Metadata {| to_dataframe := df |}) individual_id_column
      state_columns n_components min_sample_count min_feature_count
      max_iterations_als max_iterations_rptm n_initializations
      feature_metadata t.
Proof.
  intros Hvalid Haux. rewrite !ctf_helper_stages.
  assert (split_sample_metadata (as_DataFrame df) individual_id_column
            state_columns
          = split_sample_metadata (as_Metadata {| to_dataframe := df |})
              individual_id_column state_columns) as ->; [|done].
  unfold split_sample_metadata. cbn [to_dataframe].
  destruct (drop_columns _ df) as [al|e] eqn:Hdrop; [cbn|done].
  destruct (getitem_columns _ df) as [kept|e] eqn:Hkept; [cbn|done].
  rewrite (Hvalid kept eq_refl). cbn. do 2 f_equal.
  pose proof (drop_bool_columns_spec al) as [Hcols Hidx].
  apply drop_columns_Ok in Hdrop as [Hal _].
  rewrite filter_all_id in Hcols.
  - destruct al, (drop_bool_columns _) eqn:Heq. cbn in *.
    assert (index_name1 = index_name0) as ->.
    { by injection Heq as <- _ _. }
    congruence.
  - rewrite Hal. apply Forall_forall.
    intros c [Hname Hc]%list_elem_of_filter.
    eapply Forall_forall in Haux; [|done]. by destruct Haux.
Qed.

(** ** Command lines the [rclr] subcommand rejects *)

Lemma dict_get_None {V} k (d : list (string * V)) :
  dict_get k d = None ↔ k ∉ d.*1.
Proof.
  induction d as [|[k' v] d IH]; cbn.
  - split; [intros _; apply not_elem_of_nil|done].
  - rewrite not_elem_of_cons. destruct (decide (k' = k)) as [->|Hne].
    + split; [done|]. by intros [? _].
    + rewrite IH. split; [by intros; split|by intros [_ ?]].
Qed.

Lemma option_value_None o argv :
  option_value o argv = None ↔ dict_get o argv = None.
Proof.
  unfold option_value. rewrite !dict_get_None, fmap_reverse.
  by rewrite elem_of_reverse.
Qed.

(** X17. Both options of the [rclr] subcommand are required: a command line
    made of its options only that leaves out [--in-biom] or [--output-dir]
    is rejected with the usage error naming a missing option, before any
    file is read or written. *)
Theorem rclr_command_missing_option (argv : list (string * string))
    (fs : filesystem) :
  (∀ o, o ∈ argv.*1 → o ∈ ["--in-biom"; "--output-dir"]) →
  dict_get "--in-biom" argv = None ∨ dict_get "--output-dir" argv = None →
  ∃ o, o ∈ ["--in-biom"; "--output-dir"] ∧ dict_get o argv = None ∧
       rclr_command argv fs
       = (fs, Raise (UsageError ("Missing option " +:+ o))).
Proof.
  intros Hknown Hmiss.
  unfold rclr_command, mbind, stateful_bind, lift.
  rewrite click_invoke_rclr.
  destruct (filter (λ a, a.1 ∉ ["--in-biom"; "--output-dir"]) argv)
    as [|[o v] rest] eqn:Hf.
  - destruct (option_value "--in-biom" argv) as [b|] eqn:Hb.
    + destruct (option_value "--output-dir" argv) as [o|] eqn:Ho.
      * destruct Hmiss as [Hm|Hm];
          apply (proj2 (option_value_None _ _)) in Hm; congruence.
      * apply (proj1 (option_value_None _ _)) in Ho.
        exists "--output-dir". split; [|split; [done|reflexivity]].
        right. by left.
    + apply (proj1 (option_value_None _ _)) in Hb.
      exists "--in-biom". split; [by left|split; [done|reflexivity]].
  - assert ((o, v) ∈ filter (λ a, a.1 ∉ ["--in-biom"; "--output-dir"]) argv)
      as [Hbad Hin]%list_elem_of_filter by (rewrite Hf; by left).
    destruct Hbad. apply Hknown. by apply (list_elem_of_fmap_2 fst) in Hin.
Qed.

(** ** Minimum counts no sample reaches (lines 124-148) *)

Lemma compress_none {A} (mask : list bool) (l : list A) :
  Forall (λ b, b = false) mask → compress mask l = [].
Proof.
  intros Hmask. revert l.
  induction Hmask as [|b mask -> _ IH]; intros [|x l]; cbn; auto.
Qed.

(** X18. Nothing guards the outcome of the minimum-count filters: when the
    identifier checks pass and no sample of the aligned table reaches
    [min_sample_count], the table is left without any sample, no error of
    [ctf_helper] itself is raised, and the tensor building and
    factorization are called on that empty table, their outcome being what
    [ctf_helper] goes on with. *)
Theorem minimum_count_can_empty_table sample_metadata individual_id_column
    state_columns n_components min_sample_count min_feature_count
    max_iterations_als max_iterations_rptm n_initializations
    feature_metadata (t t1 : Table) sm all_sample_metadata fm sm' fm' :
  table_wf t →
  split_sample_metadata sample_metadata individual_id_column state_columns
    = Ok (sm, all_sample_metadata) →
  load_feature_metadata feature_metadata = Ok fm →
  match_ids sm fm t = (t1, Ok (sm', fm')) →
  Forall (λ s, s < min_sample_count) (table_sum sample t1) →
  ∃ t',
    sample_ids t' = [] ∧
    ctf_helper sample_metadata individual_id_column state_columns
      n_components min_sample_count min_feature_count max_iterations_als
      max_iterations_rptm n_initializations feature_metadata t
    = (t', match fit_and_label t' sm' individual_id_column state_columns
                   n_components max_iterations_als max_iterations_rptm
                   n_initializations fm' with
           | Raise e => Raise e
           | Ok (conditions, TF) =>
               assemble n_components conditions TF sm' all_sample_metadata
           end).
Proof.
  intros Hwf Hsplit Hload Hm Hlow.
  exists (threshold observation min_feature_count
            (threshold sample min_sample_count t1)).
  split.
  - rewrite (proj2 (threshold_other_ids _ _)).
    apply match_ids_Ok in Hm as (-> & Hs & Hf & _).
    destruct (restrict_to_metadata_subtable sm fm t) as ((Hwf1 & _) & Hs1 & _);
      [done..|].
    rewrite (threshold_mask sample) by done. cbn.
    apply compress_none. apply Forall_fmap.
    eapply Forall_impl; [done|]. cbn. intros s Hs'.
    apply bool_decide_eq_false_2. lia.
  - rewrite ctf_helper_stages, Hsplit, Hload.
    by rewrite (align_and_filter_run _ _ _ _ _ _ _ Hm).
Qed.

End driver.

(** * The statements at concrete inputs *)

Lemma duplicate_identifiers_rejected_witness :
  let dup := {| observation_ids := ["f1"]; sample_ids := ["a"; "a"];
                matrix_data := [[1; 2]] |} in
  let ok := {| observation_ids := ["f1"]; sample_ids := ["a"; "b"];
               matrix_data := [[1; 2]] |} in
  (∃ e, ctf_helper accept_metadata (fit_returns [] nothing_fitted)
          (as_DataFrame (subject_time_metadata ["a"])) "subject" ["time"]
          3 0 0 5 5 5 None dup = (dup, Raise e))
  ∧ (∀ e, (match_ids (subject_time_metadata ["a"]) None ok).2 = Raise e →
          ¬ duplicate_error e).
Proof.
  intros dup ok. split.
  - refine (proj2 (proj1 (duplicate_identifiers_rejected accept_metadata
             (fit_returns [] nothing_fitted)
             (as_DataFrame (subject_time_metadata ["a"])) "subject" ["time"]
             3 0 0 5 5 5 None dup) _)).
    intros [H _]. apply NoDup_cons in H as [H _]. apply H. by left.
  - refine (proj2 (duplicate_identifiers_rejected accept_metadata
             (fit_returns [] nothing_fitted)
             (as_DataFrame (subject_time_metadata ["a"])) "subject" ["time"]
             3 0 0 5 5 5 None ok) _ (subject_time_metadata ["a"]) None).
    split; compute_done.
Defined.

(** C2, as stated, fails: the table below shares no sample identifier with
    the metadata, and [ctf_helper] rejects it for its repeated sample
    identifier; the message names no empty identifier set. *)
Lemma empty_intersection_duplicate_message :
  let t := {| observation_ids := ["f1"]; sample_ids := ["a"; "a"];
              matrix_data := [[1; 2]] |} in
  let md := subject_time_metadata ["b"] in
  list_to_set (sample_ids t) ∩ list_to_set (index md) = (∅ : gset string) ∧
  ∃ e, ctf_helper accept_metadata (fit_returns [] nothing_fitted)
         (as_DataFrame md) "subject" ["time"] 3 0 0 5 5 5 None t
       = (t, Raise e) ∧ ¬ names_empty_id_set e.
Proof.
  intros t md. split; [by vm_compute|].
  exists (ValueError "Data-table contains duplicate sample IDs").
  split; [by vm_compute|]. by intros [H|H].
Qed.

Lemma empty_sample_intersection_raises_witness :
  let t := {| observation_ids := ["f1"]; sample_ids := ["a"; "c"];
              matrix_data := [[1; 2]] |} in
  let md := subject_time_metadata ["b"] in
  ∃ msg,
    ctf_helper accept_metadata (fit_returns [] nothing_fitted)
      (as_DataFrame md) "subject" ["time"] 3 0 0 5 5 5 None t
    = (t, Raise (ValueError msg)) ∧
    (NoDup (sample_ids t) → NoDup (observation_ids t) →
     feature_metadata_matches t None →
     msg = no_more_features_sample_metadata).
Proof.
  intros t md.
  apply (empty_sample_intersection_raises accept_metadata
           (fit_returns [] nothing_fitted) (as_DataFrame md) "subject"
           ["time"] 3 0 0 5 5 5 None t
           {| index_name := None; index := ["b"];
              columns := [str_column "time" ["0"];
                          str_column "subject" ["b"]] |}
           {| index_name := None; index := ["b"]; columns := [] |} None).
  - by vm_compute.
  - reflexivity.
  - by vm_compute.
Defined.

Lemma example_table_wf : table_wf example_table.
Proof. split; [done|]. by repeat constructor. Qed.

Lemma table_filtered_in_place_witness :
  ∃ t' out,
    ctf_helper accept_metadata (fit_returns ["time"] example_TF)
      (as_DataFrame example_metadata) "subject" ["time"] 2 4 10 5 5 5 None
      example_table = (t', Ok out) ∧
    t' = {| observation_ids := ["f2"]; sample_ids := ["s1"; "s2"];
            matrix_data := [[5; 6]] |} ∧
    Forall (λ s, 10 ≤ s) (table_sum observation t').
Proof.
  eexists _, _. split; [by vm_compute|].
  destruct (table_filtered_in_place accept_metadata
              (fit_returns ["time"] example_TF)
              (as_DataFrame example_metadata) "subject" ["time"] 2 4 10 5 5 5
              None example_table _ _ example_table_wf eq_refl)
    as (sm & al & fm & Hsplit & Hload & Ht & _ & _ & _ & _ & _ & _ & Hsum).
  split; [done|]. exact Hsum.
Defined.

Lemma alignment_idempotent_witness :
  ∃ t1 sm1 fm1,
    align_and_filter example_metadata None 7 7 example_table
      = (t1, Ok (sm1, fm1)) ∧
    t1 = example_table ∧
    ∃ sm2 fm2, align_and_filter sm1 fm1 7 7 t1 = (t1, Ok (sm2, fm2)).
Proof.
  eexists _, _, _. split; [by vm_compute|].
  apply (alignment_idempotent example_metadata None 7 7 example_table).
  - exact example_table_wf.
  - split; [by vm_compute|]. split; [done|].
    split; repeat constructor; by vm_compute.
  - by vm_compute.
Defined.

Lemma third_axis_of_zeros_witness :
  ctf_helper accept_metadata (fit_returns ["time"] vector_TF)
    (as_DataFrame example_metadata) "subject" ["time"] 2 0 0 5 5 5 None
    example_table
  = (example_table, Raise (IndexingError "Too many indexers"))
  ∧ ∃ TF' ord out,
      add_PC3 2 example_TF = Ok TF' ∧
      component_axes TF' = replicate 4 ["PC1"; "PC2"; "PC3"] ∧
      build_ordination TF' = Ok ord ∧
      ordination_axes ord = replicate 4 ["PC1"; "PC2"; "PC3"] ∧
      ctf_helper accept_metadata (fit_returns ["time"] example_TF)
        (as_DataFrame example_metadata) "subject" ["time"] 2 0 0 5 5 5 None
        example_table = (example_table, Ok out) ∧
      ordination out = ord.
Proof.
  split.
  - edestruct (third_axis_of_zeros accept_metadata
                 (fit_returns ["time"] vector_TF)
                 (as_DataFrame example_metadata) "subject" ["time"] 2 0 0
                 5 5 5 None example_table) as [Htwo _];
      [by vm_compute|reflexivity|by vm_compute|reflexivity|].
    destruct (Htwo eq_refl) as [Hvec _].
    apply (Hvec ["PC1"; "PC2"]
                (float_column "proportion_explained" [3 # 4; 1 # 4])).
    by left.
  - edestruct (third_axis_of_zeros accept_metadata
                 (fit_returns ["time"] example_TF)
                 (as_DataFrame example_metadata) "subject" ["time"] 2 0 0
                 5 5 5 None example_table) as [Htwo _];
      [by vm_compute|reflexivity|by vm_compute|reflexivity|].
    destruct (Htwo eq_refl) as [_ Htab].
    edestruct Htab
      as (TF' & pe' & ev' & ord & Hadd & Haxes & _ & _ & _ & _ & _ & _
          & Hord & Hoaxes & Hrun);
      [reflexivity|reflexivity|by vm_compute|].
    exists TF', ord. eexists. do 4 (split; [done|]).
    split; [rewrite Hrun; by vm_compute|reflexivity].
Defined.




(** C5, as stated, fails: the two subjects below have the same loadings, and
    both rows are in the ordination; nothing was de-duplicated. *)
Lemma ordination_keeps_duplicate_rows :
  ∃ t' out,
    ctf_helper accept_metadata (fit_returns ["time"] twin_TF)
      (as_DataFrame example_metadata) "subject" ["time"] 2 0 0 5 5 5 None
      example_table = (t', Ok out) ∧
    index (ord_samples (ordination out)) = ["A"; "B"] ∧
    ¬ deduplicated (ord_samples (ordination out)).
Proof.
  eexists _, _. split; [by vm_compute|]. split; [done|].
  unfold deduplicated. intros Hnd. vm_compute in Hnd.
  apply NoDup_cons in Hnd as [Hin _]. apply Hin. by left.
Qed.

Lemma ordination_contents_witness :
  ∃ t' out,
    ctf_helper accept_metadata (fit_returns ["time"] twin_TF)
      (as_DataFrame example_metadata) "subject" ["time"] 2 0 0 5 5 5 None
      example_table = (t', Ok out) ∧
    ∃ TF samples,
      ord_eigvals (ordination out) = eigvals TF ∧
      index samples = index (subjects TF) ∧
      rows (ord_samples (ordination out))
      = filter row_complete (rows samples).
Proof.
  eexists _, _. split; [by vm_compute|].
  destruct (ordination_contents accept_metadata
              (fit_returns ["time"] twin_TF)
              (as_DataFrame example_metadata) "subject" ["time"] 2 0 0 5 5 5
              None example_table _ _ eq_refl)
    as (sm' & fm' & c & TF0 & TF & samples & feats
        & _ & _ & He & _ & Hi & _ & _ & _ & Hr & _).
  by exists TF, samples.
Defined.



Lemma phylogenetic_rclr_command_fails_witness :
  phylogenetic_rclr_command relabel_only counts_or_nothing
    [("--in-biom", "table.biom"); ("--in-phylogeny", "tree.nwk");
     ("--output-dir", "out")] example_files
  = (example_files,
     Raise (TypeError "standalone_phylogenetic_rclr() got an unexpected keyword argument 'in_phylogeny'")).
Proof.
  destruct (phylogenetic_rclr_command_fails relabel_only counts_or_nothing
              [("--in-biom", "table.biom"); ("--in-phylogeny", "tree.nwk");
               ("--output-dir", "out")] example_files) as (e & -> & He).
  rewrite He; [done|]. by vm_compute.
Defined.

(** * The further properties at concrete inputs *)

Lemma ctf_returns_first_condition_witness :
  ∃ t' ord dm straj ftraj,
    ctf accept_metadata (fit_returns ["time"] example_TF)
      (as_DataFrame example_metadata) "subject" "time" 2 0 0 5 5 5 None
      example_table = (t', Ok (ord, dm, straj, ftraj)) ∧
    ∃ out,
      ord = ordination out ∧
      dict_get "time" (distances out) = Some dm ∧
      dict_get "time" (subject_trajectories out) = Some straj ∧
      dict_get "time" (feature_trajectories out) = Some ftraj.
Proof.
  eexists _, _, _, _, _. split; [by vm_compute|].
  destruct (ctf_returns_first_condition accept_metadata
              (fit_returns ["time"] example_TF)
              (as_DataFrame example_metadata) "subject" "time" 2 0 0 5 5 5
              None example_table _ _ _ _ _ eq_refl)
    as (out & sm' & fm' & c & TF & condition & _ & Hfit & Hhead & Hord
        & Hd & Hs & Hf).
  injection Hfit as <- <-. injection Hhead as <-. by exists out.
Defined.

Lemma ctf_without_conditions_witness :
  ∃ t' out,
    ctf_helper accept_metadata (fit_returns [] nothing_fitted)
      (as_DataFrame example_metadata) "subject" ["time"] 3 0 0 5 5 5 None
      example_table = (t', Ok out) ∧
    ctf accept_metadata (fit_returns [] nothing_fitted)
      (as_DataFrame example_metadata) "subject" "time" 3 0 0 5 5 5 None
      example_table = (t', Raise (IndexError "list index out of range")).
Proof.
  eexists _, _. split; [by vm_compute|].
  destruct (ctf_without_conditions accept_metadata
              (fit_returns [] nothing_fitted)
              (as_DataFrame example_metadata) "subject" "time" 3 0 0 5 5 5
              None example_table _ _ eq_refl)
    as (sm' & fm' & c & TF & Hfit & Hnil & _).
  injection Hfit as <- <-. by apply Hnil.
Defined.

Lemma missing_key_column_raises_witness :
  ∃ l',
    ctf_helper accept_metadata (fit_returns [] nothing_fitted)
      (as_DataFrame example_metadata) "host" ["time"] 3 0 0 5 5 5 None
      example_table = (example_table, Raise (KeyError l')).
Proof.
  destruct (missing_key_column_raises accept_metadata
              (fit_returns [] nothing_fitted)
              (as_DataFrame example_metadata) "host" ["time"] 3 0 0 5 5 5
              None example_table "host") as (l' & _ & _ & Hrun);
    [compute_done..|].
  by exists l'.
Defined.

Lemma key_columns_handed_over_witness :
  ∃ sm al,
    split_sample_metadata accept_metadata (as_DataFrame example_metadata)
      "subject" ["time"] = Ok (sm, al) ∧
    ∃ kept, column_names kept = ["time"; "subject"] ∧
            index kept = ["s1"; "s2"] ∧ sm = kept.
Proof.
  eexists _, _. split; [by vm_compute|].
  edestruct (key_columns_handed_over accept_metadata
               (as_DataFrame example_metadata) "subject" ["time"])
    as (kept & _ & Hnames & Hidx & _ & _ & md & Hmd & Hsm);
    [compute_done|reflexivity|].
  exists kept. injection Hmd as <-. by repeat split.
Defined.

Lemma disjoint_feature_metadata_raises_witness :
  ctf_helper accept_metadata (fit_returns [] nothing_fitted)
    (as_DataFrame example_metadata) "subject" ["time"] 3 0 0 5 5 5
    (Some (as_DataFrame foreign_taxonomy)) example_table
  = (example_table, Raise (ValueError no_more_features_feature_metadata)).
Proof.
  eapply (disjoint_feature_metadata_raises accept_metadata
            (fit_returns [] nothing_fitted)
            (as_DataFrame example_metadata) "subject" ["time"] 3 0 0 5 5 5
            (Some (as_DataFrame foreign_taxonomy)) example_table).
  - by vm_compute.
  - reflexivity.
  - compute_done.
  - compute_done.
  - by vm_compute.
Defined.

Lemma later_failure_keeps_filtered_table_witness :
  ctf_helper accept_metadata (fit_raises (ValueError "no condition"))
    (as_DataFrame example_metadata) "subject" ["time"] 2 4 10 5 5 5 None
    example_table
  = ({| observation_ids := ["f2"]; sample_ids := ["s1"; "s2"];
        matrix_data := [[5; 6]] |}, Raise (ValueError "no condition")).
Proof.
  edestruct (later_failure_keeps_filtered_table accept_metadata
               (fit_raises (ValueError "no condition"))
               (as_DataFrame example_metadata) "subject" ["time"] 2 4 10
               5 5 5 None example_table) as (_ & _ & Hfail);
    [by vm_compute|reflexivity|by vm_compute|].
  by apply Hfail.
Defined.

Lemma retained_metadata_covers_table_witness :
  ∃ t' sm' fm',
    align_and_filter (subject_time_metadata ["s1"; "s3"]) None 0 0
      example_table = (t', Ok (sm', fm')) ∧
    NoDup (index sm') ∧ (∀ s, s ∈ sample_ids t' → s ∈ index sm').
Proof.
  eexists _, _, _. split; [by vm_compute|].
  destruct (retained_metadata_covers_table
              (subject_time_metadata ["s1"; "s3"]) None 0 0 example_table
              _ _ _ eq_refl) as [(Hnd & _ & Hcov & _) _].
  by split.
Defined.

Lemma table_only_loses_samples_and_features_witness :
  ∃ t' out,
    ctf_helper accept_metadata (fit_returns ["time"] example_TF)
      (as_DataFrame example_metadata) "subject" ["time"] 2 4 10 5 5 5 None
      example_table = (t', Ok out) ∧
    subtable t' example_table.
Proof.
  eexists _, _. split; [by vm_compute|].
  by apply (table_only_loses_samples_and_features accept_metadata
              (fit_returns ["time"] example_TF)
              (as_DataFrame example_metadata) "subject" ["time"] 2 4 10
              5 5 5 None example_table _ _ example_table_wf eq_refl).
Defined.

Lemma sparse_table_wf : table_wf sparse_table.
Proof. split; [done|]. by repeat constructor. Qed.

Lemma zero_minimum_counts_filter_nothing_witness :
  ∃ t' out,
    ctf_helper accept_metadata (fit_returns [] nothing_fitted)
      (as_DataFrame (subject_time_metadata ["s1"; "s2"; "s3"])) "subject"
      ["time"] 3 0 0 5 5 5 None sparse_table = (t', Ok out) ∧
    sample_ids t' = ["s1"; "s2"; "s3"] ∧
    observation_ids t' = ["f1"; "f2"; "f3"].
Proof.
  eexists _, _. split; [by vm_compute|].
  edestruct (zero_minimum_counts_filter_nothing accept_metadata
               (fit_returns [] nothing_fitted)
               (as_DataFrame (subject_time_metadata ["s1"; "s2"; "s3"]))
               "subject" ["time"] 3 0 0 5 5 5 None sparse_table)
    as (sm & al & fm & Hsplit & Hload & _ & Hs & Ho);
    [exact sparse_table_wf|compute_done|lia|lia|reflexivity|].
  injection Hsplit as <- _. injection Hload as <-. split.
  - etrans; [|etrans; [exact Hs|]]; by vm_compute.
  - etrans; [|etrans; [exact Ho|]]; by vm_compute.
Defined.

Lemma dictionaries_share_keys_witness :
  ∃ t' out,
    ctf_helper accept_metadata (fit_returns ["time"] example_TF)
      (as_DataFrame example_metadata) "subject" ["time"] 2 0 0 5 5 5 None
      example_table = (t', Ok out) ∧
    (distances out).*1 = ["time"] ∧
    (subject_trajectories out).*1 = ["time"] ∧
    (feature_trajectories out).*1 = ["time"].
Proof.
  eexists _, _. split; [by vm_compute|].
  destruct (dictionaries_share_keys accept_metadata
              (fit_returns ["time"] example_TF)
              (as_DataFrame example_metadata) "subject" ["time"] 2 0 0 5 5 5
              None example_table _ _ eq_refl)
    as (sm' & fm' & c & TF & Hfit & _ & Hs & Hf & _ & _ & _ & Heq).
  injection Hfit as <- <-.
  assert (NoDup ["time"]) as Hnd by compute_done. specialize (Heq Hnd).
  split; [|split].
  - etrans; [|etrans; [exact Heq|]]; by vm_compute.
  - etrans; [|etrans; [exact Hs|etrans; [exact Heq|]]]; by vm_compute.
  - etrans; [|etrans; [exact Hf|etrans; [exact Heq|]]]; by vm_compute.
Defined.

Lemma ordination_needs_shared_columns_witness :
  (∃ ord, build_ordination example_TF = Ok ord) ∧
  ∃ c', build_ordination taxonomy_TF = Raise (KeyError c').
Proof.
  split.
  - apply (proj1 (ordination_needs_shared_columns example_TF)).
    assert (keep_PC example_TF = column_names (subjects example_TF)) as ->
      by by vm_compute.
    done.
  - destruct (proj2 (ordination_needs_shared_columns taxonomy_TF)
                    "PCR_primer") as (c' & _ & _ & H); [compute_done..|].
    by exists c'.
Defined.

Lemma rclr_command_outcome_witness :
  ∃ fs' out,
    rclr_command values_of_counts counts_or_nothing
      [("--in-biom", "old.biom"); ("--in-biom", "table.biom");
       ("--output-dir", "out")] example_files
    = (fs', Ok ()) ∧
    values_of_counts example_table = Ok out ∧
    wrote "out" [("rclr-table.biom", biom_values out)] example_files fs'.
Proof.
  eexists _, _. split; [by vm_compute|].
  pose proof (rclr_command_outcome values_of_counts counts_or_nothing
                [("--in-biom", "old.biom"); ("--in-biom", "table.biom");
                 ("--output-dir", "out")]
                example_files _ (Ok ()) eq_refl) as H.
  cbn beta iota in H.
  destruct H as (b & o & f & t & out & Hb & Ho & Hin & Hparse & Hout & Hw).
  injection Hb as <-. injection Ho as <-.
  vm_compute in Hin. injection Hin as <-.
  injection Hparse as <-. injection Hout as <-.
  split; [reflexivity|exact Hw].
Defined.

Lemma phylogenetic_rclr_callback_writes_witness :
  ∃ fs',
    standalone_phylogenetic_rclr relabel_only counts_or_nothing
      (py_str "table.biom") (py_path "tree.nwk") "results/out" example_files
    = (fs', Ok ()) ∧
    wrote "results/out"
      [("labeled-phylogeny.tsv", newick {| newick_text := "(f1,f2);" |});
       ("phylo-rclr-table.biom",
        biom_values {| vt_observation_ids := ["f1"; "f2"];
                       vt_sample_ids := ["s1"; "s2"]; vt_data := [] |});
       ("phylo-count-table.biom", biom_counts example_table)]
      example_files fs'.
Proof.
  apply (phylogenetic_rclr_callback_writes relabel_only counts_or_nothing
           (py_str "table.biom") "tree.nwk" "results/out" example_files
           (biom_counts example_table) example_table
           {| newick_text := "(f1,f2);" |}).
  - by vm_compute.
  - reflexivity.
  - by vm_compute.
  - reflexivity.
  - done.
  - vm_compute. by repeat constructor.
  - repeat (constructor; [compute_done|]). constructor.
Defined.

Lemma valid_distances_are_matched_witness :
  ∃ dm,
    match_distances four_trajectory (subject_time_metadata ["s1"; "s2"; "s9"])
                    four_distances = Ok dm ∧
    NoDup (dm_ids dm) ∧
    valid_distances (length (dm_ids dm)) (dm_data dm).
Proof.
  destruct (valid_distances_are_matched four_trajectory
              (subject_time_metadata ["s1"; "s2"; "s9"]) four_distances)
    as (dm & Hrun & Hnd & _ & Hvalid).
  - compute_done.
  - exists "s1". split; compute_done.
  - by exists dm.
Defined.

Lemma trajectory_identifiers_sorted_witness :
  let al := {| index_name := None; index := ["s3"; "s1"; "s5"];
               columns := [str_column "site" ["gut"; "skin"; "oral"]] |} in
  ∃ tr,
    merge_trajectory four_trajectory al = Ok tr ∧
    index tr = ["s1"; "s3"] ∧ Sorted str_le (index tr).
Proof.
  intros al. eexists. split; [by vm_compute|]. split; [by vm_compute|].
  apply (trajectory_identifiers_sorted four_trajectory al).
  - by vm_compute.
  - compute_done.
  - intros x Hx Hx'. apply list_elem_of_singleton in Hx' as ->.
    by apply list_elem_of_singleton in Hx.
Defined.

Lemma raw_frame_agrees_with_metadata_object_witness :
  ctf_helper accept_metadata (fit_returns ["time"] example_TF)
    (as_DataFrame example_metadata) "subject" ["time"] 2 0 0 5 5 5 None
    example_table
  = ctf_helper accept_metadata (fit_returns ["time"] example_TF)
      (as_Metadata {| to_dataframe := example_metadata |}) "subject"
      ["time"] 2 0 0 5 5 5 None example_table.
Proof.
  apply (raw_frame_agrees_with_metadata_object accept_metadata
           (fit_returns ["time"] example_TF) example_metadata).
  - by intros kept _.
  - compute_done.
Defined.

Lemma rclr_command_missing_option_witness :
  rclr_command values_of_counts counts_or_nothing
    [("--in-biom", "table.biom")] example_files
  = (example_files, Raise (UsageError "Missing option --output-dir")).
Proof.
  destruct (rclr_command_missing_option values_of_counts counts_or_nothing
              [("--in-biom", "table.biom")] example_files)
    as (o & Ho & Hnone & Hrun).
  - intros o ->%list_elem_of_singleton. by left.
  - by right.
  - apply elem_of_cons in Ho as [->|Ho]; [done|].
    by apply list_elem_of_singleton in Ho as ->.
Defined.

Lemma minimum_count_can_empty_table_witness :
  ∃ t' out,
    sample_ids t' = [] ∧
    ctf_helper accept_metadata (fit_returns [] nothing_fitted)
      (as_DataFrame example_metadata) "subject" ["time"] 3 100 0 5 5 5 None
      example_table = (t', Ok out).
Proof.
  edestruct (minimum_count_can_empty_table accept_metadata
               (fit_returns [] nothing_fitted)
               (as_DataFrame example_metadata) "subject" ["time"] 3 100 0
               5 5 5 None example_table) as (t' & Hempty & Hrun);
    [exact example_table_wf|by vm_compute|reflexivity|by vm_compute| |].
  - repeat constructor; by vm_compute.
  - exists t'. eexists. split; [done|]. rewrite Hrun. by vm_compute.
Defined.
